(** * The element refinement algebra of t8code: triangles, prisms, quads

    A shallow embedding of the element kernels
    - [t8_dtri_bits.c]   (triangle / tetrahedron, selected by [T8_DTRI_TO_DTET]),
    - [t8_dprism_bits.c] (prism = triangle x line),
    - [t8_default_tri.c], [t8_default_quad.c] (the scheme wrappers),
    and the properties of the space-filling-curve index, of parent, of the
    family test, of the nearest common ancestor and of the prism successor.
    A second part has further properties of the kernels: children, siblings
    and face neighbours, the element of an index, first and last
    descendants, the order of the scheme, predecessor, ancestors and the
    tests [is_parent], [is_sibling], [is_ancestor], [is_inside_root].

    Conventions.
    - C integers are [Z].  [uint64_t] arithmetic is wrapped by [u64]; the
      signed 32-bit coordinates are used inside their range (coordinates lie
      in [0, 2^21) for simplices and [0, 2^30) for quads), where C arithmetic
      and [Z] arithmetic agree.
    - [T8_ASSERT] is modelled as in a debug build: a violated assertion aborts
      the program, which is the result [None].  A function that contains (or
      calls a function that contains) an assertion returns an [option].
    - [for] loops are structural recursions on the number of iterations. *)

From Stdlib Require Import ZArith Lia List Bool.
Import ListNotations.
Open Scope Z_scope.

(** ** Abort-on-assert: a small error monad *)

Notation "x <- m ;; k" := (match m with Some x => k | None => None end)
  (at level 61, m at next level, right associativity).

Definition T8_ASSERT {A : Type} (c : bool) (k : option A) : option A :=
  if c then k else None.

Notation "'assert!' c ;; k" := (T8_ASSERT c k)
  (at level 61, c at next level, right associativity).

(** C truth value of an integer expression. *)
Definition c_true (v : Z) : bool := negb (v =? 0).

(** [(uint64_t)] wrap-around. *)
Definition u64 (v : Z) : Z := v mod 2 ^ 64.
(** [(uint32_t)] wrap-around. *)
Definition u32 (v : Z) : Z := v mod 2 ^ 32.

(** [for (i = from; i > from - n; i--) body] *)
Fixpoint for_down {S : Type} (n : nat) (i : Z) (body : Z -> S -> option S)
  (s : S) : option S :=
  match n with
  | O => Some s
  | S n' => s' <- body i s ;; for_down n' (i - 1) body s'
  end.

(** [for (i = from; i < from + n; i++) body] *)
Fixpoint for_up {S : Type} (n : nat) (i : Z) (body : Z -> S -> option S)
  (s : S) : option S :=
  match n with
  | O => Some s
  | S n' => s' <- body i s ;; for_up n' (i + 1) body s'
  end.

(** the same loop with a body that cannot abort *)
Fixpoint loop_up {S : Type} (n : nat) (i : Z) (body : Z -> S -> S) (s : S) : S :=
  match n with
  | O => s
  | S n' => loop_up n' (i + 1) body (body i s)
  end.

(** ** Constants of [t8_dtri.h] / [t8_dtet.h] *)

(** Modelled from the spec: the macros of [t8_dtri.h] and [t8_dtet.h] are
    not among the sources.  Section 6.2 gives [MAXLEVEL = 21] for triangles,
    tetrahedra and prisms. *)
Definition T8_DTRI_MAXLEVEL : Z := 21.
(** Modelled from the spec: [ROOT_LEN = 1 << MAXLEVEL] (section 6.2). *)
Definition T8_DTRI_ROOT_LEN : Z := Z.shiftl 1 T8_DTRI_MAXLEVEL.
(** Modelled from the spec: the length of a level-[l] element is
    [1 << (MAXLEVEL - l)] (section 4.3, parent). *)
Definition T8_DTRI_LEN (l : Z) : Z := Z.shiftl 1 (T8_DTRI_MAXLEVEL - l).

(** ** The connectivity tables of [t8_dtri_connectivity.c]

    The tables are not among the sources.  The kernel is written against
    them as an interface; [T8_DTRI_TO_DTET] is the compile-time switch
    between the triangle and the tetrahedron instance of the same code. *)

Class t8_dtri_connectivity := {
  T8_DTRI_TO_DTET : bool;
  (* [cid][type] -> type of the parent *)
  t8_dtri_cid_type_to_parenttype : Z -> Z -> Z;
  (* [type][cid] -> child-local index *)
  t8_dtri_type_cid_to_Iloc : Z -> Z -> Z;
  (* [parent type][local index] -> type *)
  t8_dtri_parenttype_Iloc_to_type : Z -> Z -> Z;
  (* [parent type][local index] -> cube-id *)
  t8_dtri_parenttype_Iloc_to_cid : Z -> Z -> Z;
  (* [type][Morton child id] -> Bey number *)
  t8_dtri_index_to_bey_number : Z -> Z -> Z;
  (* [Bey number] -> vertex of the parent *)
  t8_dtri_beyid_to_vertex : Z -> Z;
  (* [type][Bey number] -> type of the child *)
  t8_dtri_type_of_child : Z -> Z -> Z
}.

(** Look-up in a constant two-dimensional array. *)
Definition tab2 (tbl : list (list Z)) (i j : Z) : Z :=
  nth (Z.to_nat j) (nth (Z.to_nat i) tbl []) 0.
Definition tab1 (tbl : list Z) (i : Z) : Z := nth (Z.to_nat i) tbl 0.

(** Modelled from the spec: the triangle tables of [t8_dtri_connectivity.c]
    (section 3.3, section 6.3), with the values of the Bey refinement of the
    reference triangle.  They agree with what the sources prescribe: the
    Morton children of a type-[b] triangle have types [(b, 0, 1, b)] and
    anchors [a, a + h e_b, a + h e_b, a + (h,h)] ([t8_dtri_is_familypv]). *)
#[export] Instance t8_dtri_connectivity_2d : t8_dtri_connectivity := {|
  T8_DTRI_TO_DTET := false;
  t8_dtri_cid_type_to_parenttype := tab2 [[0; 1]; [0; 0]; [1; 1]; [0; 1]];
  t8_dtri_type_cid_to_Iloc := tab2 [[0; 1; 1; 3]; [0; 2; 2; 3]];
  t8_dtri_parenttype_Iloc_to_type := tab2 [[0; 0; 1; 0]; [1; 0; 1; 1]];
  t8_dtri_parenttype_Iloc_to_cid := tab2 [[0; 1; 1; 3]; [0; 2; 2; 3]];
  t8_dtri_index_to_bey_number := tab2 [[0; 1; 3; 2]; [0; 3; 1; 2]];
  t8_dtri_beyid_to_vertex := tab1 [0; 1; 2; 1];
  t8_dtri_type_of_child := tab2 [[0; 0; 0; 1]; [1; 1; 1; 0]]
|}.

(** ** The element record [t8_dtri_t]

    The triangle build has the fields [level, type, x, y, n]; the
    tetrahedron build has [eclass, level, type, x, y, z].  One record carries
    all of them; each build leaves the fields of the other untouched.  An
    output parameter is modelled by passing the previous content of the cell
    and returning the new one, so that fields a function does not write keep
    their old value.  The kernels read every field of their input before
    they overwrite it, so a call with input and output aliased is the call
    with the same value passed for both. *)

Record t8_dtri_t := mk_dtri {
  t_level : Z;
  t_type : Z;
  t_x : Z;
  t_y : Z;
  t_z : Z;       (* tetrahedron build only *)
  t_n : Z;       (* triangle build only *)
  t_eclass : Z   (* tetrahedron build only *)
}.

Definition set_level (t : t8_dtri_t) (v : Z) : t8_dtri_t :=
  mk_dtri v (t_type t) (t_x t) (t_y t) (t_z t) (t_n t) (t_eclass t).
Definition set_type (t : t8_dtri_t) (v : Z) : t8_dtri_t :=
  mk_dtri (t_level t) v (t_x t) (t_y t) (t_z t) (t_n t) (t_eclass t).
Definition set_x (t : t8_dtri_t) (v : Z) : t8_dtri_t :=
  mk_dtri (t_level t) (t_type t) v (t_y t) (t_z t) (t_n t) (t_eclass t).
Definition set_y (t : t8_dtri_t) (v : Z) : t8_dtri_t :=
  mk_dtri (t_level t) (t_type t) (t_x t) v (t_z t) (t_n t) (t_eclass t).
Definition set_z (t : t8_dtri_t) (v : Z) : t8_dtri_t :=
  mk_dtri (t_level t) (t_type t) (t_x t) (t_y t) v (t_n t) (t_eclass t).
Definition set_n (t : t8_dtri_t) (v : Z) : t8_dtri_t :=
  mk_dtri (t_level t) (t_type t) (t_x t) (t_y t) (t_z t) v (t_eclass t).
Definition set_eclass (t : t8_dtri_t) (v : Z) : t8_dtri_t :=
  mk_dtri (t_level t) (t_type t) (t_x t) (t_y t) (t_z t) (t_n t) v.

(** A fixed-size C array of coordinates, and [a[i] += h]. *)
Fixpoint arr_add (a : list Z) (i : nat) (h : Z) : list Z :=
  match a, i with
  | [], _ => []
  | v :: a', O => (v + h) :: a'
  | v :: a', S i' => v :: arr_add a' i' h
  end.

Fixpoint arr_set {A : Type} (a : list A) (i : nat) (v : A) : list A :=
  match a, i with
  | [], _ => []
  | _ :: a', O => v :: a'
  | w :: a', S i' => w :: arr_set a' i' v
  end.

Section Simplex.

Context {conn : t8_dtri_connectivity}.

(** Modelled from the spec: [DIM] is 2 for triangles and 3 for
    tetrahedra (section 6.2). *)
Definition T8_DTRI_DIM : Z := if T8_DTRI_TO_DTET then 3 else 2.
(** Modelled from the spec: [CHILDREN] is 4 resp. 8 (section 6.2). *)
Definition T8_DTRI_CHILDREN : Z := if T8_DTRI_TO_DTET then 8 else 4.
(** Modelled from the spec: a triangle has the vertices 0..2, a
    tetrahedron 0..3 (section 4.3, vertex coordinates); the kernel uses
    [T8_DTRI_FACES] as their number. *)
Definition T8_DTRI_FACES : Z := if T8_DTRI_TO_DTET then 4 else 3.
(** Modelled from the spec: the type is in [{0,1}] for a triangle and in
    [{0..5}] for a tetrahedron (section 3.1). *)
Definition T8_DTRI_NUM_TYPES : Z := if T8_DTRI_TO_DTET then 6 else 2.

(** [#ifdef T8_DTRI_TO_DTET  stmt  #endif] on the element being built *)
Definition ifdef_dtet (f : t8_dtri_t -> t8_dtri_t) (t : t8_dtri_t) : t8_dtri_t :=
  if T8_DTRI_TO_DTET then f t else t.

(** *** [compute_cubeid] *)
Definition compute_cubeid (t : t8_dtri_t) (level : Z) : option Z :=
  let id := 0 in
  assert! (0 <=? level) && (level <=? T8_DTRI_MAXLEVEL) ;;
  let h := T8_DTRI_LEN level in
  if level =? 0 then Some 0
  else
    let id := Z.lor id (if c_true (Z.land (t_x t) h) then 1 else 0) in
    let id := Z.lor id (if c_true (Z.land (t_y t) h) then 2 else 0) in
    let id := if T8_DTRI_TO_DTET
              then Z.lor id (if c_true (Z.land (t_z t) h) then 4 else 0)
              else id in
    Some id.

(** *** [compute_type]

    The loop is [for (i = tlevel; i < level; i++)]: it runs
    [level - tlevel] times, that is never once the assertion
    [level <= tlevel] has passed. *)
Definition compute_type (t : t8_dtri_t) (level : Z) : option Z :=
  let type := t_type t in
  let tlevel := t_level t in
  assert! (0 <=? level) && (level <=? tlevel) ;;
  if level =? tlevel then Some (t_type t)
  else if level =? 0 then Some 0
  else
    for_up (Z.to_nat (level - tlevel)) tlevel
      (fun i type =>
         cid <- compute_cubeid t i ;;
         Some (t8_dtri_cid_type_to_parenttype cid type))
      type.

(** *** [t8_dtri_copy] *)
Definition t8_dtri_copy (t : t8_dtri_t) : t8_dtri_t := t.

(** *** [t8_dtri_parent] *)
Definition t8_dtri_parent (t : t8_dtri_t) (parent : t8_dtri_t) : option t8_dtri_t :=
  assert! (0 <? t_level t) ;;
  let parent := ifdef_dtet (fun p => set_eclass p (t_eclass t)) parent in
  let h := T8_DTRI_LEN (t_level t) in
  cid <- compute_cubeid t (t_level t) ;;
  let parent := set_type parent (t8_dtri_cid_type_to_parenttype cid (t_type t)) in
  let parent := set_x parent (Z.land (t_x t) (Z.lnot h)) in
  let parent := set_y parent (Z.land (t_y t) (Z.lnot h)) in
  let parent := ifdef_dtet (fun p => set_z p (Z.land (t_z t) (Z.lnot h))) parent in
  let parent := set_level parent (t_level t - 1) in
  Some parent.

(** *** [t8_dtri_ancestor] *)

(** [possible_types[i] = possible_types[j] = possible_types[k] = 0] *)
Definition zero3 (a : list Z) (i j k : nat) : list Z :=
  arr_set (arr_set (arr_set a k 0) j 0) i 0.

(** one of the three sign tests of the tetrahedron build; [lo] are the
    types excluded by a positive difference, [hi] by a negative one, and
    [tie] tells whether [t->type] sides with the positive case *)
Definition sign_test (diff : Z) (tie : bool) (lo hi : nat * nat * nat)
  (possible_types : list Z) : option (list Z) :=
  let z3 '(i, j, k) := zero3 possible_types i j k in
  if 0 <? diff then Some (z3 lo)
  else if diff <? 0 then Some (z3 hi)
  else assert! (diff =? 0) ;; Some (if tie then z3 lo else z3 hi).

Definition t8_dtri_ancestor (t : t8_dtri_t) (level : Z) (ancestor : t8_dtri_t)
  : option t8_dtri_t :=
  let possible_types := [1; 1; 1; 1; 1; 1] in
  let set_type_flag := 0 in
  let delta_x := Z.land (t_x t) (T8_DTRI_LEN level - 1) in
  let delta_y := Z.land (t_y t) (T8_DTRI_LEN level - 1) in
  let delta_z := Z.land (t_z t) (T8_DTRI_LEN level - 1) in
  let ancestor := set_x ancestor (Z.land (t_x t) (Z.lnot (T8_DTRI_LEN level - 1))) in
  let ancestor := set_y ancestor (Z.land (t_y t) (Z.lnot (T8_DTRI_LEN level - 1))) in
  let ancestor :=
    ifdef_dtet (fun a => set_z a (Z.land (t_z t) (Z.lnot (T8_DTRI_LEN level - 1))))
      ancestor in
  ancestor <-
    (if negb T8_DTRI_TO_DTET then
       let diff_xy := delta_x - delta_y in
       ancestor <-
         (if 0 <? diff_xy then Some (set_type ancestor 0)
          else if diff_xy <? 0 then Some (set_type ancestor 1)
          else assert! (diff_xy =? 0) ;; Some (set_type ancestor (t_type t))) ;;
       Some (set_n ancestor (t_n t))
     else
       let diff_xy := delta_x - delta_y in
       let diff_xz := delta_x - delta_z in
       let diff_yz := delta_y - delta_z in
       let ty := t_type t in
       possible_types <-
         sign_test diff_xy ((ty =? 0) || (ty =? 1) || (ty =? 5))
           (2, 3, 4)%nat (0, 1, 5)%nat possible_types ;;
       possible_types <-
         sign_test diff_xz ((ty =? 0) || (ty =? 1) || (ty =? 2))
           (3, 4, 5)%nat (0, 1, 2)%nat possible_types ;;
       possible_types <-
         sign_test diff_yz ((ty =? 1) || (ty =? 2) || (ty =? 3))
           (0, 4, 5)%nat (1, 2, 3)%nat possible_types ;;
       r <- for_up 6 0
              (fun i '(ancestor, set_type_flag) =>
                 let p := tab1 possible_types i in
                 assert! (p =? 0) || (p =? 1) ;;
                 if p =? 1 then
                   assert! negb (set_type_flag =? 1) ;;
                   Some (set_type ancestor i, 1)
                 else Some (ancestor, set_type_flag))
              (ancestor, set_type_flag) ;;
       assert! (snd r =? 1) ;;
       Some (fst r)) ;;
  Some (set_level ancestor level).

(** *** [t8_dtri_compute_coords] *)
Definition t8_dtri_compute_coords (t : t8_dtri_t) (vertex : Z) : option (list Z) :=
  assert! (0 <=? vertex) && (vertex <? T8_DTRI_FACES) ;;
  let type := t_type t in
  let h := T8_DTRI_LEN (t_level t) in
  let ei := if T8_DTRI_TO_DTET then Z.quot type 2 else type in
  let ej := Z.rem (ei + (if Z.rem type 2 =? 0 then 2 else 1)) 3 in
  let coordinates :=
    if T8_DTRI_TO_DTET then [t_x t; t_y t; t_z t] else [t_x t; t_y t] in
  if vertex =? 0 then Some coordinates
  else
    let coordinates := arr_add coordinates (Z.to_nat ei) h in
    if negb T8_DTRI_TO_DTET then
      if vertex =? 2 then Some (arr_add coordinates (Z.to_nat (1 - ei)) h)
      else Some coordinates
    else
      if vertex =? 2 then Some (arr_add coordinates (Z.to_nat ej) h)
      else if vertex =? 3 then
        let coordinates := arr_add coordinates (Z.to_nat (Z.rem (ei + 1) 3)) h in
        Some (arr_add coordinates (Z.to_nat (Z.rem (ei + 2) 3)) h)
      else Some coordinates.

(** *** [t8_dtri_compute_all_coords]: one row per vertex *)
Definition t8_dtri_compute_all_coords (t : t8_dtri_t) : list (list Z) :=
  let type := t_type t in
  let h := T8_DTRI_LEN (t_level t) in
  let ei := if T8_DTRI_TO_DTET then Z.quot type 2 else type in
  let ej := Z.rem (ei + (if Z.rem type 2 =? 0 then 2 else 1)) 3 in
  let c0 := if T8_DTRI_TO_DTET then [t_x t; t_y t; t_z t] else [t_x t; t_y t] in
  if negb T8_DTRI_TO_DTET then
    [c0; arr_add c0 (Z.to_nat ei) h; map (fun v => v + h) c0]
  else
    [c0; arr_add c0 (Z.to_nat ei) h;
     arr_add (arr_add c0 (Z.to_nat ei) h) (Z.to_nat ej) h;
     map (fun v => v + h) c0].

(** *** [t8_dtri_child] *)
Definition t8_dtri_child (elem : t8_dtri_t) (childid : Z) (child : t8_dtri_t)
  : option t8_dtri_t :=
  let t := elem in
  let c := child in
  assert! (t_level t <? T8_DTRI_MAXLEVEL) ;;
  assert! (0 <=? childid) && (childid <? T8_DTRI_CHILDREN) ;;
  let Bey_cid := t8_dtri_index_to_bey_number (t_type elem) childid in
  c <- (if Bey_cid =? 0 then
          let c := set_x c (t_x t) in
          let c := set_y c (t_y t) in
          Some (ifdef_dtet (fun c => set_z c (t_z t)) c)
        else
          let vertex := t8_dtri_beyid_to_vertex Bey_cid in
          t_coordinates <- t8_dtri_compute_coords t vertex ;;
          let c := set_x c (Z.shiftr (t_x t + tab1 t_coordinates 0) 1) in
          let c := set_y c (Z.shiftr (t_y t + tab1 t_coordinates 1) 1) in
          Some (ifdef_dtet
                  (fun c => set_z c (Z.shiftr (t_z t + tab1 t_coordinates 2) 1)) c)) ;;
  let c := set_type c (t8_dtri_type_of_child (t_type t) Bey_cid) in
  Some (set_level c (t_level t + 1)).

(** *** [t8_dtri_childrenpv]: [c] holds the cells the pointers [c[i]] point to *)
Definition t8_dtri_childrenpv (t : t8_dtri_t) (c : list t8_dtri_t)
  : option (list t8_dtri_t) :=
  let level := t_level t + 1 in
  assert! (t_level t <? T8_DTRI_MAXLEVEL) ;;
  let t_coordinates := t8_dtri_compute_all_coords t in
  let c0 := nth 0 c t in
  let c0 := set_x c0 (t_x t) in
  let c0 := set_y c0 (t_y t) in
  let c0 := ifdef_dtet (fun c0 => set_z c0 (t_z t)) c0 in
  let c0 := set_type c0 (t_type t) in
  let c0 := set_level c0 level in
  let c := arr_set c 0 c0 in
  for_up (Z.to_nat (T8_DTRI_CHILDREN - 1)) 1
    (fun i c =>
       let Bey_cid := t8_dtri_index_to_bey_number (t_type t) i in
       let vertex := t8_dtri_beyid_to_vertex Bey_cid in
       let row := nth (Z.to_nat vertex) t_coordinates [] in
       let ci := nth (Z.to_nat i) c t in
       let ci := set_x ci (Z.shiftr (t_x t + tab1 row 0) 1) in
       let ci := set_y ci (Z.shiftr (t_y t + tab1 row 1) 1) in
       let ci := ifdef_dtet (fun ci => set_z ci (Z.shiftr (t_z t + tab1 row 2) 1)) ci in
       let ci := set_type ci (t8_dtri_type_of_child (t_type t) Bey_cid) in
       let ci := set_level ci level in
       Some (arr_set c (Z.to_nat i) ci))
    c.

(** *** [t8_dtri_is_familypv] (triangle build only) *)
Definition t8_dtri_is_familypv (f : list t8_dtri_t) : bool :=
  match f with
  | f0 :: f1 :: f2 :: f3 :: _ =>
      let level := t_level f0 in
      if (level =? 0) || negb (level =? t_level f1)
         || negb (level =? t_level f2) || negb (level =? t_level f3)
      then false
      else
        let type := t_type f0 in
        if negb (t_type f1 =? 0) && negb (t_type f2 =? 1)
           && negb (t_type f3 =? type)
        then false
        else if negb (t_x f1 =? t_x f2) || negb (t_y f1 =? t_y f2)
        then false
        else
          let dir1 := type in
          let inc := T8_DTRI_LEN level in
          let coords0 := [t_x f0; t_y f0] in
          let coords1 := [t_x f1; t_y f1] in
          (tab1 coords1 dir1 =? tab1 coords0 dir1 + inc)
          && (tab1 coords1 (1 - dir1) =? tab1 coords0 (1 - dir1))
          && (t_x f3 =? t_x f0 + inc) && (t_y f3 =? t_y f0 + inc)
  | _ => false
  end.

(** *** [t8_dtri_nearest_common_ancestor] *)

(** Modelled from the spec: [SC_LOG2_32] is a macro of libsc, which is not
    among the sources.  Section 4.3 gives [m = ceil (log2 (xor_all + 1))]
    for [SC_LOG2_32 (xor_all) + 1]. *)
Definition SC_LOG2_32 (v : Z) : Z := Z.log2_up (v + 1) - 1.
(** Modelled from the spec: [SC_MIN] is the minimum macro of libsc
    (section 4.3: [l = min (MAXLEVEL - m, t1.level, t2.level)]). *)
Definition SC_MIN (a b : Z) : Z := if a <? b then a else b.

Definition t8_dtri_nearest_common_ancestor (t1 t2 : t8_dtri_t) (r : t8_dtri_t)
  : option t8_dtri_t :=
  let exclorx := u32 (Z.lxor (t_x t1) (t_x t2)) in
  let exclory := u32 (Z.lxor (t_y t1) (t_y t2)) in
  let exclorz := u32 (Z.lxor (t_z t1) (t_z t2)) in
  let maxclor :=
    if T8_DTRI_TO_DTET then Z.lor (Z.lor exclorx exclory) exclorz
    else Z.lor exclorx exclory in
  let maxlevel := SC_LOG2_32 maxclor + 1 in
  assert! (maxlevel <=? T8_DTRI_MAXLEVEL) ;;
  let r_level :=
    SC_MIN (T8_DTRI_MAXLEVEL - maxlevel) (SC_MIN (t_level t1) (t_level t2)) in
  t8_dtri_ancestor t1 r_level r.

(** *** [t8_dtri_is_inside_root] *)
Definition t8_dtri_is_inside_root (t : t8_dtri_t) : bool :=
  ((0 <=? t_x t) && (t_x t <? T8_DTRI_ROOT_LEN)) && (0 <=? t_y t)
  && (if T8_DTRI_TO_DTET then (0 <=? t_z t) else true)
  && (if negb T8_DTRI_TO_DTET then
        (t_y t - t_x t <=? 0)
        && (if t_y t =? t_x t then t_type t =? 0 else true)
      else
        (t_z t - t_x t <=? 0) && (t_y t - t_z t <=? 0)
        && (if t_y t =? t_z t then (t_type t =? 0) || (4 <=? t_type t) else true)
        && (if t_x t =? t_z t then t_type t <=? 2 else true))
  && true.

(** *** [t8_dtri_is_equal]

    As in the source, the level and the coordinates of [t1] are compared
    with those of [t1]. *)
Definition t8_dtri_is_equal (t1 t2 : t8_dtri_t) : bool :=
  (t_level t1 =? t_level t1) && (t_type t1 =? t_type t2)
  && (t_x t1 =? t_x t1) && (t_y t1 =? t_y t1)
  && (if T8_DTRI_TO_DTET then t_z t1 =? t_z t1 else true).

(** *** [t8_dtri_is_ancestor] *)
Definition t8_dtri_is_ancestor (t c : t8_dtri_t) : bool :=
  if t_level c <? t_level t then false
  else if t_level t =? t_level c then t8_dtri_is_equal t c
  else
    let sh := T8_DTRI_MAXLEVEL - t_level t in
    let exclorx := Z.shiftr (Z.lxor (t_x t) (t_x c)) sh in
    let exclory := Z.shiftr (Z.lxor (t_y t) (t_y c)) sh in
    let exclorz := Z.shiftr (Z.lxor (t_z t) (t_z c)) sh in
    if (exclorx =? 0) && (exclory =? 0)
       && (if T8_DTRI_TO_DTET then exclorz =? 0 else true)
    then
      let type_t := t_type t in
      let dx := t_x c - t_x t in
      let dy := t_y c - t_y t in
      let dz := t_z c - t_z t in
      if negb T8_DTRI_TO_DTET then
        let n1 := if type_t =? 0 then dx else dy in
        let n2 := if type_t =? 0 then dy else dx in
        negb ((T8_DTRI_LEN (t_level t) <=? n1) || (n2 <? 0) || (0 <? n2 - n1)
              || ((n2 =? n1) && (t_type c =? 1 - type_t)))
      else
        let n1 := if Z.quot type_t 2 =? 0 then dx
                  else if Z.quot type_t 2 =? 2 then dz else dy in
        let n2 := if Z.rem (type_t + 3) 6 =? 0 then dx
                  else if Z.rem (type_t + 3) 6 =? 2 then dz else dy in
        let dir3 := if Z.rem type_t 3 =? 2 then dx
                    else if Z.rem type_t 3 =? 0 then dz else dy in
        let sign := if Z.rem type_t 2 =? 0 then 1 else -1 in
        let type_t := type_t + 6 in
        negb ((T8_DTRI_LEN (t_level t) <=? n1) || (n2 <? 0) || (0 <? dir3 - n1)
              || (0 <? n2 - dir3)
              || ((dir3 =? n1)
                  && ((t_type c =? Z.rem (type_t + sign * 1) 6)
                      || (t_type t =? Z.rem (type_t + sign * 2) 6)
                      || (t_type t =? Z.rem (type_t + sign * 3) 6)))
              || ((dir3 =? n2)
                  && ((t_type c =? Z.rem (type_t - sign * 1) 6)
                      || (t_type t =? Z.rem (type_t - sign * 2) 6)
                      || (t_type t =? Z.rem (type_t - sign * 3) 6))))
    else false.

(** *** [t8_dtri_linear_id]

    The loop state is [(id, exponent, type_temp)]. *)
Definition t8_dtri_linear_id_body (t : t8_dtri_t) (i : Z) (st : Z * Z * Z)
  : option (Z * Z * Z) :=
  let '(id, exponent, type_temp) := st in
  cid <- compute_cubeid t i ;;
  let id :=
    Z.lor id (u64 (Z.shiftl (u64 (t8_dtri_type_cid_to_Iloc type_temp cid))
                            exponent)) in
  let exponent := exponent + T8_DTRI_DIM in
  let type_temp := t8_dtri_cid_type_to_parenttype cid type_temp in
  Some (id, exponent, type_temp).

Definition t8_dtri_linear_id (t : t8_dtri_t) (level : Z) : option Z :=
  let id := 0 in
  assert! (0 <=? level) && (level <=? T8_DTRI_MAXLEVEL) ;;
  let my_level := t_level t in
  let exponent := 0 in
  let exponent := if my_level <? level then (level - my_level) * T8_DTRI_DIM
                  else exponent in
  let level := my_level in
  type_temp <- compute_type t level ;;
  r <- for_down (Z.to_nat level) level (t8_dtri_linear_id_body t)
         (id, exponent, type_temp) ;;
  Some (fst (fst r)).

(** *** [t8_dtri_init_linear_id]

    The loop state is [(t, type)]; the body has no assertion. *)
Definition t8_dtri_init_linear_id_body (id level : Z) (i : Z)
  (st : t8_dtri_t * Z) : t8_dtri_t * Z :=
  let children_m1 := T8_DTRI_CHILDREN - 1 in
  let '(t, type) := st in
  let offset_coords := T8_DTRI_MAXLEVEL - i in
  let offset_index := level - i in
  let local_index :=
    Z.land (Z.shiftr id (T8_DTRI_DIM * offset_index)) children_m1 in
  let cid := t8_dtri_parenttype_Iloc_to_cid type local_index in
  let type := t8_dtri_parenttype_Iloc_to_type type local_index in
  let bit (m : Z) := if c_true (Z.land cid m) then Z.shiftl 1 offset_coords
                     else 0 in
  let t := set_x t (Z.lor (t_x t) (bit 1)) in
  let t := set_y t (Z.lor (t_y t) (bit 2)) in
  let t := ifdef_dtet (fun t => set_z t (Z.lor (t_z t) (bit 4))) t in
  (t, type).

Definition t8_dtri_init_linear_id (t : t8_dtri_t) (id : Z) (level : Z)
  : option t8_dtri_t :=
  assert! (0 <=? id) && (id <=? u64 (Z.shiftl 1 (T8_DTRI_DIM * level))) ;;
  let t := set_level t level in
  let t := set_x t 0 in
  let t := set_y t 0 in
  let t := if T8_DTRI_TO_DTET then set_z t 0 else set_n t 0 in
  let type := 0 in
  let '(t, type) :=
    loop_up (Z.to_nat level) 1 (t8_dtri_init_linear_id_body id level) (t, type) in
  Some (set_type t type).

(** *** [t8_dtri_init_root] *)
Definition t8_dtri_init_root (t : t8_dtri_t) : t8_dtri_t :=
  let t := set_level t 0 in
  let t := set_type t 0 in
  let t := set_x t 0 in
  let t := set_y t 0 in
  if T8_DTRI_TO_DTET then set_z t 0 else set_n t 0.

(** *** [t8_dtri_succ_pred_recursion]

    The recursion descends in [level]; every call asserts [1 <= level], so
    [Z.to_nat level + 1] calls are enough. *)
Fixpoint t8_dtri_succ_pred_recursion_fuel (fuel : nat) (t s : t8_dtri_t)
  (level increment : Z) : option t8_dtri_t :=
  match fuel with
  | O => None
  | S fuel' =>
      assert! (1 <=? level) && (level <=? t_level t) ;;
      assert! (- T8_DTRI_CHILDREN <? increment) && (increment <? T8_DTRI_CHILDREN) ;;
      if increment =? 0 then Some (t8_dtri_copy t)
      else
        cid <- compute_cubeid t level ;;
        type_level <- compute_type t level ;;
        let local_index := t8_dtri_type_cid_to_Iloc type_level cid in
        let local_index :=
          Z.rem (local_index + T8_DTRI_CHILDREN + increment) T8_DTRI_CHILDREN in
        st <- (if local_index =? 0 then
                 let sign := if increment <? 0 then -1
                             else if 0 <? increment then 1 else 0 in
                 s <- t8_dtri_succ_pred_recursion_fuel fuel' t s (level - 1) sign ;;
                 Some (s, t_type s)
               else
                 Some (s, t8_dtri_cid_type_to_parenttype cid type_level)) ;;
        let '(s, type_level_p1) := st in
        let type_level := t8_dtri_parenttype_Iloc_to_type type_level_p1 local_index in
        let cid := t8_dtri_parenttype_Iloc_to_cid type_level_p1 local_index in
        let s := set_type s type_level in
        let s := set_level s level in
        let h := Z.shiftl 1 (T8_DTRI_MAXLEVEL - level) in
        let setbit (m v : Z) := if c_true (Z.land cid m) then Z.lor v h
                                else Z.land v (Z.lnot h) in
        let s := set_x s (setbit 1 (t_x s)) in
        let s := set_y s (setbit 2 (t_y s)) in
        let s := ifdef_dtet (fun s => set_z s (setbit 4 (t_z s))) s in
        Some s
  end.

Definition t8_dtri_succ_pred_recursion (t s : t8_dtri_t) (level increment : Z)
  : option t8_dtri_t :=
  t8_dtri_succ_pred_recursion_fuel (Z.to_nat level + 1) t s level increment.

(** *** [t8_dtri_successor], [t8_dtri_predecessor] *)
Definition t8_dtri_successor (t : t8_dtri_t) (level : Z) : option t8_dtri_t :=
  let s := t8_dtri_copy t in
  t8_dtri_succ_pred_recursion t s level 1.

Definition t8_dtri_predecessor (t : t8_dtri_t) (level : Z) : option t8_dtri_t :=
  let s := t8_dtri_copy t in
  t8_dtri_succ_pred_recursion t s level (-1).

(** *** [t8_dtri_child_id], [t8_dtri_get_level] *)
Definition t8_dtri_child_id (t : t8_dtri_t) : option Z :=
  cid <- compute_cubeid t (t_level t) ;;
  Some (t8_dtri_type_cid_to_Iloc (t_type t) cid).

Definition t8_dtri_get_level (t : t8_dtri_t) : Z := t_level t.

End Simplex.

(** ** The triangle scheme, [t8_default_tri.c] *)

Section TriScheme.

Context {conn : t8_dtri_connectivity}.

Definition t8_default_tri_level (elem : t8_dtri_t) : Z := t8_dtri_get_level elem.

Definition t8_default_tri_parent (elem parent : t8_dtri_t) : option t8_dtri_t :=
  let t := elem in
  let p := parent in
  t8_dtri_parent t p.

Definition t8_default_tri_children (elem : t8_dtri_t) (length : Z)
  (c : list t8_dtri_t) : option (list t8_dtri_t) :=
  assert! (length =? T8_DTRI_CHILDREN) ;;
  t8_dtri_childrenpv elem c.

Definition t8_default_tri_is_family (fam : list t8_dtri_t) : bool :=
  t8_dtri_is_familypv fam.

(** [t2] is initialised from [elem1], as in the source. *)
Definition t8_default_tri_nca (elem1 elem2 nca : t8_dtri_t) : option t8_dtri_t :=
  let t1 := elem1 in
  let t2 := elem1 in
  let c := nca in
  t8_dtri_nearest_common_ancestor t1 t2 c.

Definition t8_default_tri_set_linear_id (elem : t8_dtri_t) (level id : Z)
  : option t8_dtri_t :=
  assert! (0 <=? level) && (level <=? T8_DTRI_MAXLEVEL) ;;
  assert! (0 <=? id) && (id <? u64 (Z.shiftl 1 (2 * level))) ;;
  t8_dtri_init_linear_id elem id level.

Definition t8_default_tri_get_linear_id (elem : t8_dtri_t) (level : Z) : option Z :=
  assert! (0 <=? level) && (level <=? T8_DTRI_MAXLEVEL) ;;
  t8_dtri_linear_id elem level.

Definition t8_default_tri_successor (elem1 elem2 : t8_dtri_t) (level : Z)
  : option t8_dtri_t :=
  assert! (0 <=? level) && (level <=? T8_DTRI_MAXLEVEL) ;;
  t8_dtri_successor elem1 level.

End TriScheme.

(** ** The line factor, [t8_dline_bits.c]

    The line kernel is not among the sources; the prism kernel is written
    against it.  Its record has the two fields the prism kernel and the
    spec name ([level], [x]); its operations are an interface. *)

Record t8_dline_t := mk_dline {
  l_level : Z;
  l_x : Z
}.

Definition set_l_level (l : t8_dline_t) (v : Z) : t8_dline_t := mk_dline v (l_x l).

Class t8_dline_bits := {
  (* input line -> child id *)
  t8_dline_child_id : t8_dline_t -> option Z;
  (* input line, old content of the output -> new content of the output *)
  t8_dline_parent : t8_dline_t -> t8_dline_t -> option t8_dline_t;
  t8_dline_child : t8_dline_t -> Z -> t8_dline_t -> option t8_dline_t;
  t8_dline_successor : t8_dline_t -> t8_dline_t -> Z -> option t8_dline_t;
  (* input line, vertex -> the coordinate written to [coords[0]] *)
  t8_dline_vertex_coords : t8_dline_t -> Z -> option Z
}.

(** Modelled from the spec: [t8_dline_copy] copies all values of a line
    (the prism successor "copies the line factor unchanged", section 4.4). *)
Definition t8_dline_copy (l dest : t8_dline_t) : t8_dline_t := l.

(** Modelled from the spec: a line kernel for the binary refinement of the
    interval, the one-dimensional analogue of the quad kernel of section 4.2
    with the level bound of the prism (section 6.2): parent clears the bit of
    the level, child sets it, the successor adds one interval length to the
    ancestor. *)
#[export] Instance t8_dline_bits_binary : t8_dline_bits := {|
  t8_dline_child_id l :=
    Some (if l_level l =? 0 then 0
          else if c_true (Z.land (l_x l) (T8_DTRI_LEN (l_level l))) then 1 else 0);
  t8_dline_parent l parent :=
    assert! (0 <? l_level l) ;;
    Some (mk_dline (l_level l - 1) (Z.land (l_x l) (Z.lnot (T8_DTRI_LEN (l_level l)))));
  t8_dline_child l childid child :=
    assert! (l_level l <? T8_DTRI_MAXLEVEL) ;;
    assert! (childid =? 0) || (childid =? 1) ;;
    Some (mk_dline (l_level l + 1)
            (l_x l + (if childid =? 0 then 0 else T8_DTRI_LEN (l_level l + 1))));
  t8_dline_successor l succ level :=
    assert! (1 <=? level) && (level <=? l_level l) ;;
    let h := T8_DTRI_LEN level in
    Some (mk_dline level (Z.land (l_x l) (Z.lnot (h - 1)) + h));
  t8_dline_vertex_coords l vertex :=
    assert! (vertex =? 0) || (vertex =? 1) ;;
    Some (if vertex =? 0 then l_x l else l_x l + T8_DTRI_LEN (l_level l))
|}.

(** ** The prism kernel, [t8_dprism_bits.c] *)

Record t8_dprism_t := mk_dprism {
  tri : t8_dtri_t;
  line : t8_dline_t
}.

(** The successor calls itself with [l] and [succ] pointing to the same
    prism, and it reads [succ] before it has written all of it.  So the two
    parameters are addresses into a store of prisms. *)
Definition ptr := nat.
Definition mem := ptr -> t8_dprism_t.

Definition store (m : mem) (p : ptr) (v : t8_dprism_t) : mem :=
  fun q => if Nat.eqb q p then v else m q.
(** [p->tri = v] and [p->line = v] *)
Definition store_tri (m : mem) (p : ptr) (v : t8_dtri_t) : mem :=
  store m p (mk_dprism v (line (m p))).
Definition store_line (m : mem) (p : ptr) (v : t8_dline_t) : mem :=
  store m p (mk_dprism (tri (m p)) v).

Section Prism.

Context {conn : t8_dtri_connectivity} {lineops : t8_dline_bits}.

(** Modelled from the spec: [MAXLEVEL = 21] for prisms (section 6.2). *)
Definition T8_DPRISM_MAXLEVEL : Z := 21.

Definition t8_dprism_get_level (p : t8_dprism_t) : Z := l_level (line p).

Definition t8_dprism_copy (l dest : t8_dprism_t) : t8_dprism_t := l.

Definition t8_dprism_parent (l parent : t8_dprism_t) : option t8_dprism_t :=
  ptri <- t8_dtri_parent (tri l) (tri parent) ;;
  pline <- t8_dline_parent (line l) (line parent) ;;
  Some (mk_dprism ptri pline).

(** [t8_dprism_successor]: every call asserts [1 <= level] and recurses with
    [level - 1], so [Z.to_nat level + 1] calls are enough. *)
Fixpoint t8_dprism_successor_fuel (fuel : nat) (m : mem) (l succ : ptr)
  (level : Z) : option mem :=
  match fuel with
  | O => None
  | S fuel' =>
      tri_child_id <- t8_dtri_child_id (tri (m l)) ;;
      line_child_id <- t8_dline_child_id (line (m l)) ;;
      assert! (1 <=? level) && (level <=? t_level (tri (m l))) ;;
      if (tri_child_id =? 3) && (line_child_id =? 1) then
        p <- t8_dtri_parent (tri (m l)) (tri (m succ)) ;;
        let m := store_tri m succ p in
        id <- t8_dtri_child_id (tri (m succ)) ;;
        if id =? 3 then
          let m := store_tri m succ (set_level (tri (m succ)) (level - 1)) in
          let m := store_line m succ (set_l_level (line (m succ)) (level - 1)) in
          m <- t8_dprism_successor_fuel fuel' m succ succ (level - 1) ;;
          let m := store_tri m succ (set_level (tri (m succ)) level) in
          let m := store_line m succ (set_l_level (line (m succ)) level) in
          Some m
        else
          c <- t8_dtri_child (tri (m succ)) 3 (tri (m succ)) ;;
          let m := store_tri m succ c in
          s <- t8_dtri_successor (tri (m l)) level ;;
          let m := store_tri m succ s in
          lp <- t8_dline_parent (line (m l)) (line (m succ)) ;;
          let m := store_line m succ lp in
          lc <- t8_dline_child (line (m succ)) 0 (line (m succ)) ;;
          Some (store_line m succ lc)
      else if (tri_child_id =? 3) && (line_child_id =? 0) then
        ls <- t8_dline_successor (line (m l)) (line (m succ)) level ;;
        let m := store_line m succ ls in
        p <- t8_dtri_parent (tri (m l)) (tri (m succ)) ;;
        let m := store_tri m succ p in
        c <- t8_dtri_child (tri (m succ)) 0 (tri (m succ)) ;;
        Some (store_tri m succ c)
      else
        s <- t8_dtri_successor (tri (m l)) level ;;
        let m := store_tri m succ s in
        Some (store_line m succ (t8_dline_copy (line (m l)) (line (m succ))))
  end.

Definition t8_dprism_successor (m : mem) (l succ : ptr) (level : Z) : option mem :=
  t8_dprism_successor_fuel (Z.to_nat level + 1) m l succ level.

(** [t8_dprism_vertex_coords]: the triangle writes [coords[0]] and
    [coords[1]], the line writes [coords[2]]. *)
Definition t8_dprism_vertex_coords (t : t8_dprism_t) (vertex : Z)
  (coords : list Z) : option (list Z) :=
  assert! (0 <=? vertex) || (vertex <=? 8) ;;
  if (0 <=? vertex) && (vertex <? 6) then
    c <- t8_dtri_compute_coords (tri t) (Z.rem vertex 3) ;;
    let coords := arr_set (arr_set coords 0 (tab1 c 0)) 1 (tab1 c 1) in
    z <- t8_dline_vertex_coords (line t) 0 ;;
    Some (arr_set coords 2 z)
  else if (6 <=? vertex) && (vertex <? 9) then
    c <- t8_dtri_compute_coords (tri t) vertex ;;
    let coords := arr_set (arr_set coords 0 (tab1 c 0)) 1 (tab1 c 1) in
    z <- t8_dline_vertex_coords (line t) 1 ;;
    Some (arr_set coords 2 z)
  else Some coords.

(** Modelled from the spec: [t8_dprism_child] is declared in
    [t8_dprism_bits.h] but its body is not among the sources.  Section 4.4:
    child [k] of a prism has the triangle child [k mod 4] and the line child
    [k / 4]. *)
Definition t8_dprism_child (p : t8_dprism_t) (childid : Z) (child : t8_dprism_t)
  : option t8_dprism_t :=
  assert! (0 <=? childid) && (childid <? 8) ;;
  ctri <- t8_dtri_child (tri p) (Z.rem childid 4) (tri child) ;;
  cline <- t8_dline_child (line p) (Z.quot childid 4) (line child) ;;
  Some (mk_dprism ctri cline).

(** [t8_dprism_linear_id]: the body is the assertion alone.  Control
    reaches the closing brace of a function returning [uint64_t] without a
    [return]: the call has no value. *)
Definition t8_dprism_linear_id (elem : t8_dprism_t) (level : Z) : option Z :=
  assert! (0 <=? level) && (level <=? T8_DPRISM_MAXLEVEL) ;;
  None.

End Prism.

(** ** The quad scheme, [t8_default_quad.c], over p4est *)

(** Modelled from the spec: p4est and the [T8_QUAD_*] macros of
    [t8_default_quad.h] are not among the sources.  A quadrant has anchor
    coordinates, a level (section 3.1, [MAXLEVEL = 30] in section 6.2) and
    the surround metadata [tdim, tnormal, tcoord] that is "simply copied on
    every assignment" (section 4.2). *)
Record p4est_quadrant_t := mk_quad {
  q_x : Z;
  q_y : Z;
  q_level : Z;
  q_tdim : Z;
  q_tnormal : Z;
  q_tcoord : Z
}.

(** Modelled from the spec: the constants of p4est for quads, section 6.2:
    [MAXLEVEL = 30], [DIM = 2], [CHILDREN = 4], and the length
    [1 << (MAXLEVEL - l)] of a level-[l] quadrant. *)
Definition P4EST_MAXLEVEL : Z := 30.
(** Modelled from the spec: the greatest level of a quadrant (section 3.1:
    the level is at most 30 for quads). *)
Definition P4EST_QMAXLEVEL : Z := 30.
(** Modelled from the spec: [DIM = 2] (section 6.2). *)
Definition P4EST_DIM : Z := 2.
(** Modelled from the spec: [CHILDREN = 4] (section 6.2). *)
Definition P4EST_CHILDREN : Z := 4.
(** Modelled from the spec: the length of a level-[l] quadrant. *)
Definition P4EST_QUADRANT_LEN (l : Z) : Z := Z.shiftl 1 (P4EST_MAXLEVEL - l).

(** Modelled from the spec: the accessors of the surround metadata. *)
Definition T8_QUAD_GET_TDIM (q : p4est_quadrant_t) : Z := q_tdim q.
Definition T8_QUAD_GET_TNORMAL (q : p4est_quadrant_t) : Z := q_tnormal q.
Definition T8_QUAD_GET_TCOORD (q : p4est_quadrant_t) : Z := q_tcoord q.
Definition T8_QUAD_SET_TDIM (q : p4est_quadrant_t) (d : Z) : p4est_quadrant_t :=
  mk_quad (q_x q) (q_y q) (q_level q) d (q_tnormal q) (q_tcoord q).
Definition T8_QUAD_SET_TNORMAL (q : p4est_quadrant_t) (v : Z) : p4est_quadrant_t :=
  mk_quad (q_x q) (q_y q) (q_level q) (q_tdim q) v (q_tcoord q).
Definition T8_QUAD_SET_TCOORD (q : p4est_quadrant_t) (v : Z) : p4est_quadrant_t :=
  mk_quad (q_x q) (q_y q) (q_level q) (q_tdim q) (q_tnormal q) v.

(** The child index of the level-[i] ancestor: bit 0 is the x direction,
    bit 1 the y direction, as in [t8_default_quad_child]. *)
Definition quad_child_index (q : p4est_quadrant_t) (i : Z) : Z :=
  Z.lor (if c_true (Z.land (q_x q) (P4EST_QUADRANT_LEN i)) then 1 else 0)
        (if c_true (Z.land (q_y q) (P4EST_QUADRANT_LEN i)) then 2 else 0).

(** Modelled from the spec: [p4est_quadrant_linear_id] "concatenates child
    indices" (section 4.2), from the root down to [level]. *)
Definition p4est_quadrant_linear_id (quadrant : p4est_quadrant_t) (level : Z) : Z :=
  loop_up (Z.to_nat level) 1
    (fun i id => Z.lor (Z.shiftl id P4EST_DIM) (quad_child_index quadrant i))
    0.

(** Modelled from the spec: [p4est_quadrant_set_morton] is the inverse walk
    of the "standard Morton" kernel: it consumes [P4EST_DIM] bits of [id] per
    level and sets the bit of that level in each coordinate. *)
Definition p4est_quadrant_set_morton (quadrant : p4est_quadrant_t) (level id : Z)
  : p4est_quadrant_t :=
  let q := mk_quad 0 0 level (q_tdim quadrant) (q_tnormal quadrant)
             (q_tcoord quadrant) in
  loop_up (Z.to_nat level) 1
    (fun i q =>
       let digit := Z.land (Z.shiftr id (P4EST_DIM * (level - i)))
                      (P4EST_CHILDREN - 1) in
       let shift := P4EST_QUADRANT_LEN i in
       mk_quad
         (if c_true (Z.land digit 1) then Z.lor (q_x q) shift else q_x q)
         (if c_true (Z.land digit 2) then Z.lor (q_y q) shift else q_y q)
         (q_level q) (q_tdim q) (q_tnormal q) (q_tcoord q))
    q.

Definition t8_default_quad_level (elem : p4est_quadrant_t) : Z := q_level elem.

Definition t8_default_quad_copy_surround (q r : p4est_quadrant_t) : p4est_quadrant_t :=
  let r := T8_QUAD_SET_TDIM r (T8_QUAD_GET_TDIM q) in
  if T8_QUAD_GET_TDIM q =? 3 then
    let r := T8_QUAD_SET_TNORMAL r (T8_QUAD_GET_TNORMAL q) in
    T8_QUAD_SET_TCOORD r (T8_QUAD_GET_TCOORD q)
  else r.

Definition t8_default_quad_set_linear_id (elem : p4est_quadrant_t) (level id : Z)
  : option p4est_quadrant_t :=
  assert! (0 <=? level) && (level <=? P4EST_QMAXLEVEL) ;;
  assert! (0 <=? id) && (id <? u64 (Z.shiftl 1 (P4EST_DIM * level))) ;;
  Some (T8_QUAD_SET_TDIM (p4est_quadrant_set_morton elem level id) 2).

Definition t8_default_quad_get_linear_id (elem : p4est_quadrant_t) (level : Z)
  : option Z :=
  assert! (0 <=? level) && (level <=? P4EST_QMAXLEVEL) ;;
  Some (p4est_quadrant_linear_id elem level).

Definition t8_default_quad_successor (elem1 elem2 : p4est_quadrant_t) (level : Z)
  : option p4est_quadrant_t :=
  assert! (0 <=? level) && (level <=? P4EST_QMAXLEVEL) ;;
  let id := p4est_quadrant_linear_id elem1 level in
  assert! (u64 (id + 1) <? u64 (Z.shiftl 1 (P4EST_DIM * level))) ;;
  let elem2 := p4est_quadrant_set_morton elem2 level (u64 (id + 1)) in
  Some (t8_default_quad_copy_surround elem1 elem2).

(** ** Further functions of [t8_dtri_bits.c] *)

Section SimplexMore.

Context {conn : t8_dtri_connectivity}.

(** *** [t8_dtri_sibling] *)
Definition t8_dtri_sibling (elem : t8_dtri_t) (sibid : Z) (sibling : t8_dtri_t)
  : option t8_dtri_t :=
  assert! (0 <=? sibid) && (sibid <? T8_DTRI_CHILDREN) ;;
  assert! (0 <? t_level elem) ;;
  sibling <- t8_dtri_parent elem sibling ;;
  t8_dtri_child sibling sibid sibling.

(** *** [t8_dtri_face_neighbour]

    The result is the content of [n] and the returned face number.  The
    array [coords] has the entries the build initialises: [coords[2]] is
    written and read in the tetrahedron build only. *)
Definition t8_dtri_face_neighbour (t : t8_dtri_t) (face : Z) (n : t8_dtri_t)
  : option (t8_dtri_t * Z) :=
  let ret := -1 in
  assert! (0 <=? face) && (face <? T8_DTRI_FACES) ;;
  let level := t_level t in
  let type_old := t_type t in
  let type_new := type_old in
  let coords :=
    if T8_DTRI_TO_DTET then [t_x t; t_y t; t_z t] else [t_x t; t_y t] in
  let '(coords, type_new, ret) :=
    if negb T8_DTRI_TO_DTET then
      let ret := 2 - face in
      let type_new := 1 - type_old in
      let coords :=
        if face =? 0 then arr_add coords (Z.to_nat type_old) (T8_DTRI_LEN level)
        else if face =? 2
             then arr_add coords (Z.to_nat (1 - type_old)) (- T8_DTRI_LEN level)
             else coords in
      (coords, type_new, ret)
    else
      let type_new := type_new + 6 in
      if (face =? 1) || (face =? 2) then
        let sign := if Z.rem type_new 2 =? 0 then 1 else -1 in
        let sign := sign * (if Z.rem face 2 =? 0 then 1 else -1) in
        let type_new := type_new + sign in
        let type_new := Z.rem type_new 6 in
        (coords, type_new, face)
      else
        let '(coords, type_new) :=
          if face =? 0 then
            (arr_add coords (Z.to_nat (Z.quot type_old 2)) (T8_DTRI_LEN level),
             type_new + (if Z.rem type_new 2 =? 0 then 4 else 2))
          else
            (arr_add coords (Z.to_nat (Z.quot (Z.rem (type_new + 3) 6) 2))
               (- T8_DTRI_LEN level),
             type_new + (if Z.rem type_new 2 =? 0 then 2 else 4)) in
        let type_new := Z.rem type_new 6 in
        (coords, type_new, 3 - face) in
  let n := set_x n (tab1 coords 0) in
  let n := set_y n (tab1 coords 1) in
  let n := ifdef_dtet (fun n => set_z n (tab1 coords 2)) n in
  let n := set_level n level in
  let n := set_type n type_new in
  Some (n, ret).

(** *** [t8_dtri_is_sibling]

    The two cube-ids are computed before the conjunction, so both
    assertions of [compute_cubeid] are evaluated. *)
Definition t8_dtri_is_sibling (t1 t2 : t8_dtri_t) : option bool :=
  if t_level t1 =? 0 then
    Some ((t_level t2 =? 0) && (t_x t1 =? t_x t2) && (t_y t1 =? t_y t2)
          && (if T8_DTRI_TO_DTET then t_z t1 =? t_z t2 else true) && true)
  else
    let exclorx := Z.lxor (t_x t1) (t_x t2) in
    let exclory := Z.lxor (t_y t1) (t_y t2) in
    let exclorz := Z.lxor (t_z t1) (t_z t2) in
    cid1 <- compute_cubeid t1 (t_level t1) ;;
    cid2 <- compute_cubeid t2 (t_level t2) ;;
    Some ((t_level t1 =? t_level t2)
          && (Z.land exclorx (Z.lnot (T8_DTRI_LEN (t_level t1))) =? 0)
          && (Z.land exclory (Z.lnot (T8_DTRI_LEN (t_level t1))) =? 0)
          && (if T8_DTRI_TO_DTET
              then Z.land exclorz (Z.lnot (T8_DTRI_LEN (t_level t1))) =? 0
              else true)
          && (t8_dtri_cid_type_to_parenttype cid1 (t_type t1)
              =? t8_dtri_cid_type_to_parenttype cid2 (t_type t2))).

(** *** [t8_dtri_is_parent] *)
Definition t8_dtri_is_parent (t c : t8_dtri_t) : option bool :=
  cid <- compute_cubeid c (t_level c) ;;
  Some ((t_level t + 1 =? t_level c)
        && (t_x t =? Z.land (t_x c) (Z.lnot (T8_DTRI_LEN (t_level c))))
        && (t_y t =? Z.land (t_y c) (Z.lnot (T8_DTRI_LEN (t_level c))))
        && (if T8_DTRI_TO_DTET
            then t_z t =? Z.land (t_z c) (Z.lnot (T8_DTRI_LEN (t_level c)))
            else true)
        && (t_type t =? t8_dtri_cid_type_to_parenttype cid (t_type c)) && true).

(** *** [t8_dtri_linear_id_first_desc], [t8_dtri_linear_id_last_desc] *)
Definition t8_dtri_linear_id_first_desc (t : t8_dtri_t) : option Z :=
  t8_dtri_linear_id t T8_DTRI_MAXLEVEL.

(** As in the source, the index of [t] is shifted by [exponent] bits, and
    the mask of the last children has [T8_DTRI_DIM * exponent] bits. *)
Definition t8_dtri_linear_id_last_desc (t : t8_dtri_t) : option Z :=
  let id := 0 in
  t_id <- t8_dtri_linear_id t (t_level t) ;;
  let exponent := T8_DTRI_MAXLEVEL - t_level t in
  let id := u64 (u64 (Z.shiftl 1 (T8_DTRI_DIM * exponent)) - 1) in
  let id := Z.lor id (u64 (Z.shiftl t_id exponent)) in
  Some id.

(** *** [t8_dtri_first_descendant], [t8_dtri_last_descendant] *)
Definition t8_dtri_first_descendant (t s : t8_dtri_t) : option t8_dtri_t :=
  id <- t8_dtri_linear_id_first_desc t ;;
  t8_dtri_init_linear_id s id T8_DTRI_MAXLEVEL.

Definition t8_dtri_last_descendant (t s : t8_dtri_t) : option t8_dtri_t :=
  id <- t8_dtri_linear_id_last_desc t ;;
  t8_dtri_init_linear_id s id T8_DTRI_MAXLEVEL.

(** *** [t8_dtri_ancestor_id] *)
Definition t8_dtri_ancestor_id (t : t8_dtri_t) (level : Z) : option Z :=
  assert! (0 <=? level) && (level <=? T8_DTRI_MAXLEVEL) ;;
  assert! (level <=? t_level t) ;;
  cid <- compute_cubeid t level ;;
  type <- compute_type t level ;;
  Some (t8_dtri_type_cid_to_Iloc type cid).

End SimplexMore.

(** ** Further functions of the triangle scheme, [t8_default_tri.c] *)

(** Modelled from the spec: [SC_MAX] is the maximum macro of libsc, which is
    not among the sources ("compare lifts both to the greater level",
    section 5). *)
Definition SC_MAX (a b : Z) : Z := if a <? b then b else a.

Section TriSchemeMore.

Context {conn : t8_dtri_connectivity}.

Definition t8_default_tri_maxlevel : Z := T8_DTRI_MAXLEVEL.

Definition t8_default_tri_compare (elem1 elem2 : t8_dtri_t) : option Z :=
  let maxlvl := SC_MAX (t8_default_tri_level elem1) (t8_default_tri_level elem2) in
  id1 <- t8_default_tri_get_linear_id elem1 maxlvl ;;
  id2 <- t8_default_tri_get_linear_id elem2 maxlvl ;;
  Some (if id1 <? id2 then -1 else if negb (id1 =? id2) then 1 else 0).

Definition t8_default_tri_sibling (elem : t8_dtri_t) (sibid : Z) (sibling : t8_dtri_t)
  : option t8_dtri_t :=
  let t := elem in
  let s := sibling in
  t8_dtri_sibling t sibid s.

Definition t8_default_tri_child (elem : t8_dtri_t) (childid : Z) (child : t8_dtri_t)
  : option t8_dtri_t :=
  let t := elem in
  let c := child in
  t8_dtri_child t childid c.

Definition t8_default_tri_child_id (elem : t8_dtri_t) : option Z :=
  t8_dtri_child_id elem.

Definition t8_default_tri_face_neighbor (elem neighbor : t8_dtri_t) (face : Z)
  : option (t8_dtri_t * Z) :=
  t8_dtri_face_neighbour elem face neighbor.

Definition t8_default_tri_first_descendant (elem desc : t8_dtri_t)
  : option t8_dtri_t :=
  t8_dtri_first_descendant elem desc.

Definition t8_default_tri_last_descendant (elem desc : t8_dtri_t)
  : option t8_dtri_t :=
  t8_dtri_last_descendant elem desc.

Definition t8_default_tri_anchor (elem : t8_dtri_t) : list Z :=
  let tri := elem in
  [t_x tri; t_y tri; 0].

Definition t8_default_tri_root_len (elem : t8_dtri_t) : Z := T8_DTRI_ROOT_LEN.

End TriSchemeMore.

(** ** [t8_dprism_init_linear_id]

    [t8_dline_init_linear_id] belongs to the line kernel, which is not among
    the sources: the function is written against it.  Its arguments are the
    old content of the line, the level and the index. *)

Section PrismMore.

Context {conn : t8_dtri_connectivity}.
Variable t8_dline_init_linear_id : t8_dline_t -> Z -> Z -> option t8_dline_t.

Definition t8_dprism_init_linear_id (l : t8_dprism_t) (level id : Z)
  : option t8_dprism_t :=
  lline <- t8_dline_init_linear_id (line l) level id ;;
  ltri <- t8_dtri_init_linear_id (tri l) id level ;;
  Some (mk_dprism ltri lline).

End PrismMore.


(** ** Specification-level notions *)

Definition b2z (b : bool) : Z := if b then 1 else 0.

(** all [i] in [0, n) satisfy [P] *)
Definition forall_range (n : Z) (P : Z -> bool) : bool :=
  forallb P (map Z.of_nat (seq 0 (Z.to_nat n))).

Section SimplexSpec.

Context {conn : t8_dtri_connectivity}.

(** The cube-id of the level-[i] ancestor as a number: the bits
    [MAXLEVEL - i] of the coordinates. *)
Definition cubeid (t : t8_dtri_t) (i : Z) : Z :=
  b2z (Z.testbit (t_x t) (T8_DTRI_MAXLEVEL - i))
  + 2 * b2z (Z.testbit (t_y t) (T8_DTRI_MAXLEVEL - i))
  + 4 * b2z (T8_DTRI_TO_DTET && Z.testbit (t_z t) (T8_DTRI_MAXLEVEL - i)).

(** [n] steps of the upward type walk with [t8_dtri_cid_type_to_parenttype],
    starting at level [i] with type [ty]. *)
Fixpoint type_up (t : t8_dtri_t) (ty : Z) (i : Z) (n : nat) : Z :=
  match n with
  | O => ty
  | S n' => type_up t (t8_dtri_cid_type_to_parenttype (cubeid t i) ty) (i - 1) n'
  end.

(** The type of the level-[l] ancestor of [t]: the value obtained by
    iterating [t8_dtri_cid_type_to_parenttype] upward from [t]'s level
    down to [l]. *)
Definition ancestor_type (t : t8_dtri_t) (l : Z) : Z :=
  type_up t (t_type t) (t_level t) (Z.to_nat (t_level t - l)).

(** The child-local indices of the levels [i, i-1, ..., i-n+1], level [i]
    in the lowest [DIM] bits. *)
Fixpoint sfc_index (t : t8_dtri_t) (ty : Z) (i : Z) (n : nat) : Z :=
  match n with
  | O => 0
  | S n' =>
      let cid := cubeid t i in
      t8_dtri_type_cid_to_Iloc ty cid
      + 2 ^ T8_DTRI_DIM
        * sfc_index t (t8_dtri_cid_type_to_parenttype cid ty) (i - 1) n'
  end.

(** The coordinates are in the root cube and aligned to the level. *)
Definition coord_ok (level v : Z) : Prop :=
  0 <= v < T8_DTRI_ROOT_LEN /\ v mod T8_DTRI_LEN level = 0.

(** A valid element (section 3.1): level and type in range, anchor
    coordinates in the root cube and aligned to the level, and the element
    descends from the root simplex, whose type is 0. *)
Record t8_dtri_valid (t : t8_dtri_t) : Prop := {
  valid_level : 0 <= t_level t <= T8_DTRI_MAXLEVEL;
  valid_type : 0 <= t_type t < T8_DTRI_NUM_TYPES;
  valid_x : coord_ok (t_level t) (t_x t);
  valid_y : coord_ok (t_level t) (t_y t);
  valid_z : T8_DTRI_TO_DTET = true -> coord_ok (t_level t) (t_z t);
  valid_root : ancestor_type t 0 = 0
}.

(** Two records describe the same element: same level, type and anchor
    coordinates. *)
Definition same_element (a b : t8_dtri_t) : Prop :=
  t_level a = t_level b /\ t_type a = t_type b /\ t_x a = t_x b
  /\ t_y a = t_y b /\ (T8_DTRI_TO_DTET = true -> t_z a = t_z b).

(** What the kernel needs of the connectivity tables: values in range,
    [parenttype_Iloc_to_type] and [parenttype_Iloc_to_cid] invert
    [(cid, type) |-> (parent type, Iloc)] (section 6.3), and the last child
    of a simplex has the type of its parent. *)
Definition conn_ok : bool :=
  forall_range T8_DTRI_CHILDREN (fun c =>
    forall_range T8_DTRI_NUM_TYPES (fun ty =>
      let p := t8_dtri_cid_type_to_parenttype c ty in
      let i := t8_dtri_type_cid_to_Iloc ty c in
      (0 <=? p) && (p <? T8_DTRI_NUM_TYPES)
      && (0 <=? i) && (i <? T8_DTRI_CHILDREN)
      && (t8_dtri_parenttype_Iloc_to_cid p i =? c)
      && (t8_dtri_parenttype_Iloc_to_type p i =? ty)
      && (if i =? T8_DTRI_CHILDREN - 1 then p =? ty else true)))
  && forall_range T8_DTRI_NUM_TYPES (fun p =>
       forall_range T8_DTRI_CHILDREN (fun i =>
         let c := t8_dtri_parenttype_Iloc_to_cid p i in
         let ty := t8_dtri_parenttype_Iloc_to_type p i in
         (0 <=? c) && (c <? T8_DTRI_CHILDREN)
         && (0 <=? ty) && (ty <? T8_DTRI_NUM_TYPES)
         && (t8_dtri_type_cid_to_Iloc ty c =? i)
         && (t8_dtri_cid_type_to_parenttype c ty =? p))).

(** [n] applications of [t8_dtri_parent] *)
Fixpoint iter_parent (n : nat) (t : t8_dtri_t) : option t8_dtri_t :=
  match n with
  | O => Some t
  | S n' => p <- t8_dtri_parent t t ;; iter_parent n' p
  end.

(** [a] is an ancestor of [t] (or [t] itself): [t8_dtri_parent] leads from
    [t] to [a]. *)
Definition ancestor_of (a t : t8_dtri_t) : Prop :=
  exists n p, iter_parent n t = Some p /\ same_element p a.

End SimplexSpec.

(** [v'] consists of the bits of [v] that belong to the levels [1 .. k]. *)
Definition level_bits (v' v k : Z) : Prop :=
  forall j, 0 <= j ->
    Z.testbit v' j
    = Z.testbit v j && (T8_DTRI_MAXLEVEL - k <=? j) && (j <? T8_DTRI_MAXLEVEL).

(** The digit of [id] for level [i] of a level-[level] Morton index. *)
Definition quad_digit (id level i : Z) : Z :=
  Z.land (Z.shiftr id (P4EST_DIM * (level - i))) (P4EST_CHILDREN - 1).

(** ** What the kernel takes for granted of the Bey tables *)

Section SimplexTables.

Context {conn : t8_dtri_connectivity}.

(** What [t8_dtri_childrenpv] takes for granted: the Morton child 0 is the
    Bey child 0 and keeps the type of the parent, every Bey number is mapped
    to a vertex of the simplex, and Bey number 0 to vertex 0. *)
Definition bey_ok : bool :=
  forall_range T8_DTRI_NUM_TYPES (fun ty =>
    (t8_dtri_index_to_bey_number ty 0 =? 0)
    && (t8_dtri_type_of_child ty 0 =? ty)
    && forall_range T8_DTRI_CHILDREN (fun i =>
         let v := t8_dtri_beyid_to_vertex (t8_dtri_index_to_bey_number ty i) in
         (0 <=? v) && (v <? T8_DTRI_FACES)
         && (if t8_dtri_index_to_bey_number ty i =? 0 then v =? 0 else true))).

(** The cube-id of the Morton child [k] of a simplex of type [ty], read off
    [t8_dtri_child] and [t8_dtri_compute_coords]: the anchor of the child is
    the midpoint of the anchor and a vertex of the parent, and the vertices
    of the simplex of edge length 1 at the origin have the coordinates 0 or
    1. *)
Definition child_cubeid (ty k : Z) : option Z :=
  let Bey_cid := t8_dtri_index_to_bey_number ty k in
  if Bey_cid =? 0 then Some 0
  else
    c <- t8_dtri_compute_coords (mk_dtri T8_DTRI_MAXLEVEL ty 0 0 0 0 0)
           (t8_dtri_beyid_to_vertex Bey_cid) ;;
    Some (tab1 c 0 + 2 * tab1 c 1 + 4 * tab1 c 2).

(** The Bey tables fit the tables of the space-filling curve: the child [k]
    of a simplex of type [ty] has [ty] as the type of its parent and [k] as
    its child-local index. *)
Definition child_ok : bool :=
  forall_range T8_DTRI_NUM_TYPES (fun ty =>
    forall_range T8_DTRI_CHILDREN (fun k =>
      match child_cubeid ty k with
      | Some cid =>
          let cty := t8_dtri_type_of_child ty (t8_dtri_index_to_bey_number ty k) in
          (0 <=? cty) && (cty <? T8_DTRI_NUM_TYPES)
          && (t8_dtri_cid_type_to_parenttype cid cty =? ty)
          && (t8_dtri_type_cid_to_Iloc cty cid =? k)
      | None => false
      end)).

(** The first child in the order of the curve lies at the anchor of its
    parent (cube-id 0) and has the type of its parent. *)
Definition first_child_ok : bool :=
  forall_range T8_DTRI_NUM_TYPES (fun p =>
    (t8_dtri_parenttype_Iloc_to_cid p 0 =? 0)
    && (t8_dtri_parenttype_Iloc_to_type p 0 =? p)).

(** The level is one of the kernel and the anchor lies in the root cube:
    the sums and differences of coordinates and edge lengths the kernel
    forms then stay within the range of [t8_dtri_coord_t]. *)
Definition in_root_cube (t : t8_dtri_t) : Prop :=
  0 <= t_level t <= T8_DTRI_MAXLEVEL
  /\ 0 <= t_x t < T8_DTRI_ROOT_LEN /\ 0 <= t_y t < T8_DTRI_ROOT_LEN
  /\ (T8_DTRI_TO_DTET = true -> 0 <= t_z t < T8_DTRI_ROOT_LEN).

End SimplexTables.

(** the coordinate has bits of the levels [1 .. k] only *)
Definition bits_of_levels (v k : Z) : Prop :=
  forall j, 0 <= j -> Z.testbit v j = true ->
            T8_DTRI_MAXLEVEL - k <= j < T8_DTRI_MAXLEVEL.

(** The type of a triangle in a square, from the offsets [dx], [dy] of a
    point of it from the corner of the square: below the diagonal it is 0,
    above the diagonal 1, on the diagonal the type [ty] of the triangle the
    point is the anchor of.  This is the test of [t8_dtri_ancestor]. *)
Definition diag_type (dx dy ty : Z) : Z :=
  if dy <? dx then 0 else if dx <? dy then 1 else ty.

(** the bits of the levels [i - n + 1 .. i] of a coordinate, level [i] last *)
Definition level_digits (v i : Z) (n : nat) : Z :=
  Z.shiftr v (T8_DTRI_MAXLEVEL - i) mod 2 ^ Z.of_nat n.

(** The triangle table [t8_dtri_cid_type_to_parenttype] says what
    [t8_dtri_ancestor] computes: a child in the lower right corner of the
    square of its parent (cube-id 1) has a parent of type 0, a child in the
    upper left corner (cube-id 2) a parent of type 1, and a child on the
    diagonal has the type of its parent. *)
Definition parenttype_2d_ok {conn : t8_dtri_connectivity} : bool :=
  negb T8_DTRI_TO_DTET
  && forall_range 4 (fun cid =>
       forall_range 2 (fun ty =>
         t8_dtri_cid_type_to_parenttype cid ty
         =? diag_type (Z.land cid 1) (Z.shiftr cid 1) ty)).


(** ** Concrete elements used below *)

Definition triangle (level type x y : Z) : t8_dtri_t :=
  mk_dtri level type x y 0 0 0.

Definition prism (level type x y z : Z) : t8_dprism_t :=
  mk_dprism (triangle level type x y) (mk_dline level z).

(** A cross-check of the triangle tables against the kernel: for the
    element with index [id] at level [lv] and its child [k], the parent of
    the child is the element, the child has child id [k] and index
    [4 id + k], lies inside the root and is recognised as a descendant. *)
Definition same_elementb (a b : t8_dtri_t) : bool :=
  (t_level a =? t_level b) && (t_type a =? t_type b)
  && (t_x a =? t_x b) && (t_y a =? t_y b).

Definition child_round_trip (lv id k : Z) : bool :=
  match t8_dtri_init_linear_id (triangle 0 0 0 0) id lv with
  | Some t =>
      match t8_dtri_child t k t with
      | Some c =>
          match t8_dtri_parent c c, t8_dtri_child_id c, t8_dtri_linear_id c (lv + 1) with
          | Some p, Some ci, Some li =>
              same_elementb p t && (ci =? k) && (li =? 4 * id + k)
              && t8_dtri_is_inside_root c && t8_dtri_is_ancestor t c
          | _, _, _ => false
          end
      | None => false
      end
  | None => false
  end.

(** two runs end alike, and with the same prism at address [p] *)
Definition agree_at (p : ptr) (r r' : option mem) : Prop :=
  match r, r' with
  | Some a, Some b => a p = b p
  | None, None => True
  | _, _ => False
  end.

(** a store with the prism [a] at address 0 and [b] at every other address *)
Definition two_cells (a b : t8_dprism_t) : mem :=
  fun p => match p with O => a | _ => b end.

(** * Properties *)

(** ** Loops, assertions, bits *)

Lemma T8_ASSERT_true {A : Type} (c : bool) (k : option A) :
  c = true -> T8_ASSERT c k = k.
Proof. intros ->. reflexivity. Qed.

Lemma range_true (a v b : Z) : a <= v <= b -> (a <=? v) && (v <=? b) = true.
Proof. intros H. apply andb_true_intro. split; apply Z.leb_le; lia. Qed.

Lemma loop_up_snoc {S : Type} (body : Z -> S -> S) (n : nat) :
  forall (i : Z) (s : S),
    loop_up (Datatypes.S n) i body s = body (i + Z.of_nat n) (loop_up n i body s).
Proof.
  induction n as [|n IH]; intros i s.
  - simpl. rewrite Z.add_0_r. reflexivity.
  - change (loop_up (Datatypes.S (Datatypes.S n)) i body s)
      with (loop_up (Datatypes.S n) (i + 1) body (body i s)).
    rewrite IH. simpl loop_up.
    replace (i + 1 + Z.of_nat n) with (i + Z.of_nat (Datatypes.S n)) by lia.
    reflexivity.
Qed.

Lemma forall_range_spec (n : Z) (P : Z -> bool) :
  forall_range n P = true -> forall i, 0 <= i < n -> P i = true.
Proof.
  unfold forall_range. intros H i Hi.
  rewrite forallb_forall in H. apply H.
  apply in_map_iff. exists (Z.to_nat i). split; [lia|].
  apply in_seq. lia.
Qed.

Lemma T8_DTRI_LEN_pow2 (l : Z) :
  l <= T8_DTRI_MAXLEVEL -> T8_DTRI_LEN l = 2 ^ (T8_DTRI_MAXLEVEL - l).
Proof. intros H. unfold T8_DTRI_LEN. apply Z.shiftl_1_l. Qed.

(** testing a coordinate against the single bit [1 << k] reads bit [k] *)
Lemma c_true_land_bit (v k : Z) :
  0 <= k -> c_true (Z.land v (Z.shiftl 1 k)) = Z.testbit v k.
Proof.
  intros Hk. unfold c_true. rewrite Z.shiftl_1_l.
  destruct (Z.testbit v k) eqn:E.
  - apply negb_true_iff, Z.eqb_neq. intros H0.
    assert (Z.testbit (Z.land v (2 ^ k)) k = true) as B.
    { rewrite Z.land_spec, E, Z.pow2_bits_true by lia. reflexivity. }
    rewrite H0, Z.bits_0 in B. discriminate.
  - apply negb_false_iff, Z.eqb_eq. apply Z.bits_inj'. intros j Hj.
    rewrite Z.land_spec, Z.bits_0, Z.pow2_bits_eqb by lia.
    destruct (Z.eqb_spec k j) as [->|]; [rewrite E|]; auto using andb_false_r.
Qed.

Section SimplexFacts.

Context {conn : t8_dtri_connectivity}.

Lemma T8_DTRI_DIM_cases :
  (T8_DTRI_DIM = 2 /\ T8_DTRI_CHILDREN = 4 /\ T8_DTRI_NUM_TYPES = 2)
  \/ (T8_DTRI_DIM = 3 /\ T8_DTRI_CHILDREN = 8 /\ T8_DTRI_NUM_TYPES = 6).
Proof.
  unfold T8_DTRI_DIM, T8_DTRI_CHILDREN, T8_DTRI_NUM_TYPES.
  destruct T8_DTRI_TO_DTET; auto.
Qed.

Lemma T8_DTRI_CHILDREN_pow : T8_DTRI_CHILDREN = 2 ^ T8_DTRI_DIM.
Proof. destruct T8_DTRI_DIM_cases as [(-> & -> & _)|(-> & -> & _)]; reflexivity. Qed.

Lemma cubeid_range (t : t8_dtri_t) (i : Z) : 0 <= cubeid t i < T8_DTRI_CHILDREN.
Proof.
  unfold cubeid, T8_DTRI_CHILDREN.
  destruct T8_DTRI_TO_DTET; cbn [andb];
    repeat match goal with |- context [Z.testbit ?a ?b] => destruct (Z.testbit a b) end;
    cbn [b2z]; lia.
Qed.

(** [compute_cubeid] passes its assertion for the levels of the tree and
    returns the cube-id. *)
Lemma compute_cubeid_eq (t : t8_dtri_t) (i : Z) :
  1 <= i <= T8_DTRI_MAXLEVEL -> compute_cubeid t i = Some (cubeid t i).
Proof.
  intros Hi. unfold compute_cubeid.
  rewrite T8_ASSERT_true by (apply range_true; lia).
  destruct (Z.eqb_spec i 0) as [|_]; [lia|].
  unfold T8_DTRI_LEN. rewrite !c_true_land_bit by lia.
  unfold cubeid. f_equal.
  destruct T8_DTRI_TO_DTET; cbn [andb];
    repeat match goal with |- context [Z.testbit ?a ?b] => destruct (Z.testbit a b) end;
    reflexivity.
Qed.

(** Below its own level [compute_type] returns the element's own type: the
    loop [for (i = tlevel; i < level; i++)] does not run. *)
Lemma compute_type_own_type (t : t8_dtri_t) (level : Z) :
  0 < level <= t_level t -> compute_type t level = Some (t_type t).
Proof.
  intros H. unfold compute_type.
  rewrite T8_ASSERT_true by (apply range_true; lia).
  destruct (Z.eqb_spec level (t_level t)); [reflexivity|].
  destruct (Z.eqb_spec level 0); [lia|].
  replace (Z.to_nat (level - t_level t)) with O by lia. reflexivity.
Qed.

Lemma iter_parent_level (n : nat) :
  forall t p, iter_parent n t = Some p -> t_level p = t_level t - Z.of_nat n.
Proof.
  induction n as [|n IH]; intros t p H.
  - simpl in H. injection H as <-. lia.
  - simpl in H. destruct (t8_dtri_parent t t) as [q|] eqn:E; [|discriminate].
    apply IH in H. rewrite H.
    unfold t8_dtri_parent in E.
    destruct (0 <? t_level t); [|discriminate]. simpl in E.
    destruct (compute_cubeid t (t_level t)); [|discriminate].
    injection E as <-. simpl. lia.
Qed.

End SimplexFacts.

(** ** Validity of concrete triangles *)

Ltac valid_by_computation :=
  constructor; vm_compute; intuition congruence.

(** ** [t8_dtri_is_equal] *)

(** C10. [t8_dtri_is_equal] compares the level and the anchor coordinates of
    [t1] with those of [t1] itself: its result is the comparison of the two
    types alone, whatever the levels and the coordinates are.  So it does
    not decide equality of all fields: the root triangle and its child 1
    (type 0 both, different level and anchor) are reported equal. *)
Theorem t8_dtri_is_equal_compares_types_only :
  (forall (conn : t8_dtri_connectivity) (t1 t2 : t8_dtri_t),
      t8_dtri_is_equal t1 t2 = (t_type t1 =? t_type t2))
  /\ t8_dtri_is_equal (triangle 0 0 0 0) (triangle 1 0 (2 ^ 20) 0) = true.
Proof.
  split; [|reflexivity].
  intros conn t1 t2. unfold t8_dtri_is_equal.
  rewrite !Z.eqb_refl. destruct T8_DTRI_TO_DTET; cbn [andb];
    destruct (t_type t1 =? t_type t2); reflexivity.
Qed.

(** ** [compute_type] *)

(** C2. At the valid level-2 triangle of type 1 with anchor [(2^19, 0)] the
    level-1 ancestor has type 0 (one step of the upward walk with
    [t8_dtri_cid_type_to_parenttype]), but [compute_type (t, 1)] returns 1,
    the type of the triangle itself. *)
Theorem compute_type_returns_own_type_below_level :
  let t := triangle 2 1 (2 ^ 19) 0 in
  t8_dtri_valid t
  /\ 0 < 1 < t_level t
  /\ ancestor_type t 1 = 0
  /\ compute_type t 1 = Some 1.
Proof.
  cbv zeta. split; [valid_by_computation|].
  split; [vm_compute; intuition congruence|].
  split; reflexivity.
Qed.

(** ** The scheme's [nca] returns its first argument *)

Lemma aligned_masks (level v : Z) :
  0 <= level <= T8_DTRI_MAXLEVEL -> v mod T8_DTRI_LEN level = 0 ->
  Z.land v (T8_DTRI_LEN level - 1) = 0
  /\ Z.land v (Z.lnot (T8_DTRI_LEN level - 1)) = v.
Proof.
  intros Hl Ha. rewrite T8_DTRI_LEN_pow2 in * by lia.
  set (p := T8_DTRI_MAXLEVEL - level) in *.
  assert (0 <= p) as Hp by (subst p; lia).
  replace (2 ^ p - 1) with (Z.ones p) by (rewrite Z.ones_equiv; lia).
  assert (Z.land v (Z.ones p) = 0) as E by (rewrite Z.land_ones by lia; exact Ha).
  split; [exact E|].
  rewrite <- Z.ldiff_land, Z.ldiff_ones_r by lia.
  rewrite Z.shiftr_div_pow2, Z.shiftl_mul_pow2 by lia.
  pose proof (Z.div_mod v (2 ^ p) ltac:(apply Z.pow_nonzero; lia)). lia.
Qed.

Section TriNca.

Context {conn : t8_dtri_connectivity}.

(** For every first argument with level and type in range and an aligned
    anchor, and for every second argument, [t8_default_tri_nca] writes (a
    copy of) the first argument. *)
Lemma t8_default_tri_nca_returns_elem1 (t1 t2 buf : t8_dtri_t) :
  0 <= t_level t1 <= T8_DTRI_MAXLEVEL ->
  0 <= t_type t1 < T8_DTRI_NUM_TYPES ->
  t_x t1 mod T8_DTRI_LEN (t_level t1) = 0 ->
  t_y t1 mod T8_DTRI_LEN (t_level t1) = 0 ->
  (T8_DTRI_TO_DTET = true -> t_z t1 mod T8_DTRI_LEN (t_level t1) = 0) ->
  exists r, t8_default_tri_nca t1 t2 buf = Some r /\ same_element r t1.
Proof.
  intros Hl Hty Ax Ay Az.
  unfold t8_default_tri_nca, t8_dtri_nearest_common_ancestor. cbv zeta.
  rewrite !Z.lxor_nilpotent.
  change (u32 0) with 0. rewrite !Z.lor_0_r.
  replace (if T8_DTRI_TO_DTET then 0 else 0) with 0 by (destruct T8_DTRI_TO_DTET; reflexivity).
  change (SC_LOG2_32 0 + 1) with 0.
  rewrite T8_ASSERT_true by reflexivity.
  assert (SC_MIN (T8_DTRI_MAXLEVEL - 0) (SC_MIN (t_level t1) (t_level t1)) = t_level t1) as ->.
  { unfold SC_MIN. rewrite Z.ltb_irrefl.
    destruct (Z.ltb_spec (T8_DTRI_MAXLEVEL - 0) (t_level t1)); lia. }
  destruct (aligned_masks _ _ Hl Ax) as [Dx Mx].
  destruct (aligned_masks _ _ Hl Ay) as [Dy My].
  unfold t8_dtri_ancestor, ifdef_dtet, same_element, T8_DTRI_NUM_TYPES in *.
  rewrite Dx, Dy, Mx, My.
  destruct T8_DTRI_TO_DTET eqn:ED.
  - destruct (aligned_masks _ _ Hl (Az eq_refl)) as [Dz Mz].
    rewrite Dz, Mz. cbn [negb].
    assert (t_type t1 = 0 \/ t_type t1 = 1 \/ t_type t1 = 2 \/ t_type t1 = 3
            \/ t_type t1 = 4 \/ t_type t1 = 5) as Hc by lia.
    decompose [or] Hc; clear Hc;
      match goal with E : t_type t1 = _ |- _ => rewrite E end;
      eexists; (split; [reflexivity|]); cbn; auto.
  - cbn [negb]. change (0 - 0) with 0. cbn [Z.ltb Z.compare Z.eqb T8_ASSERT].
    eexists. split; [reflexivity|]. cbn. repeat split. discriminate.
Qed.

End TriNca.

(** ** [t8_default_tri_nca] *)

(** C1. The scheme's [nca] hands [elem1] to the kernel twice.  For the valid
    triangles [t1] (level 2, anchor (0,0)) and [t2] (level 1, anchor
    (2^20,0)) it writes [t1], which is no ancestor of [t2]; the kernel's
    [t8_dtri_nearest_common_ancestor (t1, t2)] is the root. *)
Theorem t8_default_tri_nca_ignores_elem2 :
  let t1 := triangle 2 0 0 0 in
  let t2 := triangle 1 0 (2 ^ 20) 0 in
  let root := triangle 0 0 0 0 in
  t8_dtri_valid t1 /\ t8_dtri_valid t2
  /\ t8_default_tri_nca t1 t2 root = Some t1
  /\ t8_dtri_is_ancestor t1 t2 = false
  /\ ~ ancestor_of t1 t2
  /\ t8_dtri_nearest_common_ancestor t1 t2 root = Some root.
Proof.
  cbv zeta.
  split; [valid_by_computation|]. split; [valid_by_computation|].
  split; [reflexivity|]. split; [reflexivity|]. split; [|reflexivity].
  intros (n & p & Hp & Hs).
  apply iter_parent_level in Hp. destruct Hs as [Hl _].
  rewrite Hp in Hl. unfold triangle in Hl. cbn [t_level] in Hl. lia.
Qed.

(** ** The children of a triangle are a family *)

Lemma shiftr_midpoint (a h : Z) :
  0 <= h -> Z.shiftr (a + (a + Z.shiftl 1 (h + 1))) 1 = a + Z.shiftl 1 h.
Proof.
  intros Hh. rewrite Z.shiftr_div_pow2, !Z.shiftl_1_l by lia.
  rewrite Z.pow_add_r by lia. change (2 ^ 1) with 2.
  replace (a + (a + 2 ^ h * 2)) with ((a + 2 ^ h) * 2) by lia.
  apply Z.div_mul. lia.
Qed.

Lemma shiftr_double (a : Z) : Z.shiftr (a + a) 1 = a.
Proof.
  rewrite Z.shiftr_div_pow2 by lia. change (2 ^ 1) with 2.
  replace (a + a) with (a * 2) by lia. apply Z.div_mul. lia.
Qed.

(** The first half of C5: for every triangle [t] below the maximum level,
    with any four distinct output cells, [t8_dtri_childrenpv] returns and
    [t8_dtri_is_familypv] accepts the four children. *)
Lemma t8_dtri_children_are_family (t b0 b1 b2 b3 : t8_dtri_t) :
  0 <= t_level t < T8_DTRI_MAXLEVEL -> 0 <= t_type t < 2 ->
  exists c,
    t8_dtri_childrenpv t [b0; b1; b2; b3] = Some c
    /\ t8_dtri_is_familypv c = true.
Proof.
  destruct t as [lv ty x y z nn ec]. cbn [t_level t_type]. intros Hl Hty.
  set (h := T8_DTRI_MAXLEVEL - (lv + 1)).
  assert (0 <= h) as Hh by (subst h; lia).
  assert (T8_DTRI_LEN lv = Z.shiftl 1 (h + 1)) as E1
      by (unfold T8_DTRI_LEN; f_equal; subst h; lia).
  assert (T8_DTRI_LEN (lv + 1) = Z.shiftl 1 h) as E2 by reflexivity.
  clearbody h.
  assert ((lv + 1 =? 0) = false) as E3 by (apply Z.eqb_neq; lia).
  assert ((lv <? T8_DTRI_MAXLEVEL) = true) as E4 by (apply Z.ltb_lt; lia).
  unfold t8_dtri_childrenpv. cbn [t_level]. rewrite E4.
  change (Z.to_nat (T8_DTRI_CHILDREN - 1)) with 3%nat.
  cbn [for_up T8_ASSERT]. change (1 + 1) with 2. change (2 + 1) with 3.
  eexists. split; [reflexivity|].
  assert (ty = 0 \/ ty = 1) as [E|E] by lia; subst ty;
    cbv - [Z.add Z.sub Z.shiftl Z.shiftr Z.eqb T8_DTRI_MAXLEVEL T8_DTRI_LEN];
    rewrite ?E1, ?E2, ?shiftr_midpoint, ?shiftr_double by lia;
    rewrite ?E3, ?Z.eqb_refl;
    change (1 - 0) with 1; change (1 - 1) with 0;
    cbv - [Z.add Z.sub Z.shiftl Z.shiftr Z.eqb T8_DTRI_MAXLEVEL T8_DTRI_LEN];
    rewrite ?Z.eqb_refl;
    reflexivity.
Qed.

(** ** [t8_dtri_is_familypv] *)

(** C5. The type test of [t8_dtri_is_familypv] rejects only when all three
    of [f[1]], [f[2]], [f[3]] have a wrong type.  The four children of the
    root triangle are accepted, and they are still accepted after the type
    of the second one is changed from the prescribed 0 to 1. *)
Theorem t8_dtri_is_familypv_accepts_one_wrong_type :
  let root := triangle 0 0 0 0 in
  exists c0 c1 c2 c3,
    t8_dtri_childrenpv root [root; root; root; root] = Some [c0; c1; c2; c3]
    /\ t8_dtri_is_familypv [c0; c1; c2; c3] = true
    /\ t_type c1 = 0 /\ t_type c2 = 1 /\ t_type c3 = t_type c0
    /\ t8_dtri_is_familypv [c0; set_type c1 1; c2; c3] = true.
Proof.
  cbv zeta. do 4 eexists. split; [vm_compute; reflexivity|].
  repeat split; reflexivity.
Qed.

(** ** The prism kernel *)

(** C6. [t8_dprism_linear_id] computes nothing: for every prism and every
    level the call ends without a value (an abort on the assertion, or the
    end of the body without [return]).  The root prism at level 0, whose
    position in the curve is 0, is such an input. *)
Theorem t8_dprism_linear_id_returns_no_value :
  forall (p : t8_dprism_t) (level : Z), t8_dprism_linear_id p level = None.
Proof.
  intros p level. unfold t8_dprism_linear_id, T8_ASSERT.
  destruct ((0 <=? level) && (level <=? T8_DPRISM_MAXLEVEL)); reflexivity.
Qed.

(** C9. For the vertices 6, 7, 8 [t8_dprism_vertex_coords] calls
    [t8_dtri_compute_coords] with the vertex number itself, which violates
    the assertion [0 <= vertex < T8_DTRI_FACES] of that function: the call
    aborts, for every prism, whatever the line kernel is. *)
Theorem t8_dprism_vertex_coords_violates_assertion :
  forall (conn : t8_dtri_connectivity) (lineops : t8_dline_bits)
         (p : t8_dprism_t) (coords : list Z),
    t8_dprism_vertex_coords p 6 coords = None
    /\ t8_dprism_vertex_coords p 7 coords = None
    /\ t8_dprism_vertex_coords p 8 coords = None.
Proof.
  intros conn lineops p coords.
  unfold t8_dprism_vertex_coords, t8_dtri_compute_coords, T8_DTRI_FACES.
  destruct T8_DTRI_TO_DTET; repeat split; reflexivity.
Qed.

(** ** Arithmetic of digits *)

(** a digit below [2^n] and a multiple of [2^n] have no bit in common *)
Lemma lor_digit_shiftl (d r n : Z) :
  0 <= n -> 0 <= d < 2 ^ n -> Z.lor d (Z.shiftl r n) = d + 2 ^ n * r.
Proof.
  intros Hn Hd.
  pose proof (Z.add_lor_land d (Z.shiftl r n)) as H.
  replace (Z.land d (Z.shiftl r n)) with 0 in H.
  - rewrite Z.shiftl_mul_pow2 in * by lia. lia.
  - symmetry. apply Z.bits_inj'. intros j Hj.
    rewrite Z.land_spec, Z.bits_0.
    destruct (Z.ltb_spec j n).
    + rewrite Z.shiftl_spec_low by lia. apply andb_false_r.
    + destruct (Z.eq_dec d 0) as [->|]; [rewrite Z.bits_0; reflexivity|].
      rewrite (Z.bits_above_log2 d j); [reflexivity|lia|].
      apply Z.log2_lt_pow2; [lia|].
      apply Z.lt_le_trans with (2 ^ n); [lia|].
      apply Z.pow_le_mono_r; lia.
Qed.

Lemma u64_small (v : Z) : 0 <= v < 2 ^ 64 -> u64 v = v.
Proof. intros H. unfold u64. apply Z.mod_small. exact H. Qed.

Section SfcIndex.

Context {conn : t8_dtri_connectivity}.
Hypothesis Hconn : conn_ok = true.

Lemma T8_DTRI_DIM_pos : 2 <= T8_DTRI_DIM <= 3.
Proof. destruct T8_DTRI_DIM_cases as [(-> & _)|(-> & _)]; lia. Qed.

(** the upward tables *)
Lemma conn_up (cid ty : Z) :
  0 <= cid < T8_DTRI_CHILDREN -> 0 <= ty < T8_DTRI_NUM_TYPES ->
  let p := t8_dtri_cid_type_to_parenttype cid ty in
  let i := t8_dtri_type_cid_to_Iloc ty cid in
  0 <= p < T8_DTRI_NUM_TYPES /\ 0 <= i < T8_DTRI_CHILDREN
  /\ t8_dtri_parenttype_Iloc_to_cid p i = cid
  /\ t8_dtri_parenttype_Iloc_to_type p i = ty
  /\ (i = T8_DTRI_CHILDREN - 1 -> p = ty).
Proof.
  intros Hc Ht p i. subst p i.
  pose proof Hconn as H. unfold conn_ok in H.
  apply andb_true_iff in H. destruct H as [H _].
  apply forall_range_spec with (i := cid) in H; [|exact Hc].
  apply forall_range_spec with (i := ty) in H; [|exact Ht].
  cbv zeta in H.
  repeat (apply andb_true_iff in H; destruct H as [H ?]).
  repeat match goal with
         | H : (_ <=? _) = true |- _ => apply Z.leb_le in H
         | H : (_ <? _) = true |- _ => apply Z.ltb_lt in H
         | H : (_ =? _) = true |- _ => apply Z.eqb_eq in H
         end.
  repeat split; try assumption.
  intros E. rewrite E, Z.eqb_refl in *.
  match goal with H : (_ =? _) = true |- _ => apply Z.eqb_eq in H; exact H end.
Qed.

(** the downward tables *)
Lemma conn_down (p i : Z) :
  0 <= p < T8_DTRI_NUM_TYPES -> 0 <= i < T8_DTRI_CHILDREN ->
  let c := t8_dtri_parenttype_Iloc_to_cid p i in
  let ty := t8_dtri_parenttype_Iloc_to_type p i in
  0 <= c < T8_DTRI_CHILDREN /\ 0 <= ty < T8_DTRI_NUM_TYPES
  /\ t8_dtri_type_cid_to_Iloc ty c = i
  /\ t8_dtri_cid_type_to_parenttype c ty = p.
Proof.
  intros Hp Hi c ty. subst c ty.
  pose proof Hconn as H. unfold conn_ok in H.
  apply andb_true_iff in H. destruct H as [_ H].
  apply forall_range_spec with (i := p) in H; [|exact Hp].
  apply forall_range_spec with (i := i) in H; [|exact Hi].
  cbv zeta in H.
  repeat (apply andb_true_iff in H; destruct H as [H ?]).
  repeat match goal with
         | H : (_ <=? _) = true |- _ => apply Z.leb_le in H
         | H : (_ <? _) = true |- _ => apply Z.ltb_lt in H
         | H : (_ =? _) = true |- _ => apply Z.eqb_eq in H
         end.
  repeat split; assumption.
Qed.

Lemma sfc_index_range (t : t8_dtri_t) (n : nat) :
  forall ty i, 0 <= ty < T8_DTRI_NUM_TYPES ->
               0 <= sfc_index t ty i n < 2 ^ (T8_DTRI_DIM * Z.of_nat n).
Proof.
  pose proof T8_DTRI_DIM_pos as HD.
  induction n as [|n IH]; intros ty i Hty.
  - cbn [sfc_index]. rewrite Z.mul_0_r. simpl. lia.
  - cbn [sfc_index]. cbv zeta.
    destruct (conn_up (cubeid t i) ty (cubeid_range t i) Hty) as (Hp & Hi & _).
    specialize (IH _ (i - 1) Hp).
    rewrite T8_DTRI_CHILDREN_pow in Hi.
    replace (T8_DTRI_DIM * Z.of_nat (S n)) with (T8_DTRI_DIM + T8_DTRI_DIM * Z.of_nat n) by lia.
    rewrite Z.pow_add_r by lia.
    nia.
Qed.

(** The loop of [t8_dtri_linear_id]: [n] iterations from level [i] add the
    child-local indices of the levels [i .. i-n+1] at bit [exponent]. *)
Lemma t8_dtri_linear_id_loop (t : t8_dtri_t) (n : nat) :
  forall i ty e id0,
    Z.of_nat n <= i <= T8_DTRI_MAXLEVEL ->
    0 <= ty < T8_DTRI_NUM_TYPES ->
    0 <= e -> e + T8_DTRI_DIM * Z.of_nat n <= 64 ->
    for_down n i (t8_dtri_linear_id_body t) (id0, e, ty)
    = Some (Z.lor id0 (Z.shiftl (sfc_index t ty i n) e),
            e + T8_DTRI_DIM * Z.of_nat n,
            type_up t ty i n).
Proof.
  pose proof T8_DTRI_DIM_pos as HD.
  induction n as [|n IH]; intros i ty e id0 Hi Hty He Hb.
  - cbn [for_down sfc_index type_up].
    rewrite Z.shiftl_0_l, Z.lor_0_r, Z.mul_0_r, Z.add_0_r. reflexivity.
  - cbn [for_down sfc_index type_up]. unfold t8_dtri_linear_id_body at 1.
    rewrite compute_cubeid_eq by lia.
    destruct (conn_up (cubeid t i) ty (cubeid_range t i) Hty) as (Hp & Hd & _).
    set (cid := cubeid t i) in *.
    set (d := t8_dtri_type_cid_to_Iloc ty cid) in *.
    set (p := t8_dtri_cid_type_to_parenttype cid ty) in *.
    rewrite T8_DTRI_CHILDREN_pow in Hd.
    assert (2 ^ T8_DTRI_DIM <= 8) as H8.
    { destruct T8_DTRI_DIM_cases as [(-> & _)|(-> & _)]; simpl; lia. }
    assert (0 <= Z.shiftl d e < 2 ^ 64) as Hs.
    { rewrite Z.shiftl_mul_pow2 by lia.
      assert (2 ^ T8_DTRI_DIM * 2 ^ e <= 2 ^ 64) as HH.
      { rewrite <- Z.pow_add_r by lia. apply Z.pow_le_mono_r; lia. }
      assert (0 < 2 ^ e) by (apply Z.pow_pos_nonneg; lia).
      nia. }
    rewrite (u64_small d) by lia. rewrite (u64_small _ Hs).
    rewrite IH by lia.
    replace (e + T8_DTRI_DIM + T8_DTRI_DIM * Z.of_nat n)
      with (e + T8_DTRI_DIM * Z.of_nat (S n)) by lia.
    rewrite <- (lor_digit_shiftl d _ T8_DTRI_DIM) by lia.
    rewrite Z.shiftl_lor, Z.shiftl_shiftl by lia.
    rewrite Z.lor_assoc, (Z.add_comm T8_DTRI_DIM e). reflexivity.
Qed.

Lemma compute_type_self (t : t8_dtri_t) :
  0 <= t_level t -> compute_type t (t_level t) = Some (t_type t).
Proof.
  intros H. unfold compute_type.
  rewrite T8_ASSERT_true by (apply range_true; lia).
  rewrite Z.eqb_refl. reflexivity.
Qed.

(** [t8_dtri_linear_id (t, level)] for [level <= t->level] is the index of
    [t] at its own level. *)
Lemma t8_dtri_linear_id_eq (t : t8_dtri_t) (level : Z) :
  0 <= level <= t_level t -> t_level t <= T8_DTRI_MAXLEVEL ->
  0 <= t_type t < T8_DTRI_NUM_TYPES ->
  t8_dtri_linear_id t level
  = Some (sfc_index t (t_type t) (t_level t) (Z.to_nat (t_level t))).
Proof.
  intros Hl HL Hty. unfold t8_dtri_linear_id.
  pose proof T8_DTRI_DIM_pos as HD.
  rewrite T8_ASSERT_true by (apply range_true; lia).
  cbv zeta.
  destruct (Z.ltb_spec (t_level t) level) as [|_]; [lia|].
  rewrite compute_type_self by lia.
  rewrite t8_dtri_linear_id_loop; try lia.
  - cbn [fst]. rewrite Z.shiftl_0_r, Z.lor_0_l. reflexivity.
  - unfold T8_DTRI_MAXLEVEL in *. nia.
Qed.

End SfcIndex.

(** ** The walk of [t8_dtri_init_linear_id] *)

Lemma loop_up_ext {S : Type} (f g : Z -> S -> S) (n : nat) :
  forall i s,
    (forall j s', i <= j < i + Z.of_nat n -> f j s' = g j s') ->
    loop_up n i f s = loop_up n i g s.
Proof.
  induction n as [|n IH]; intros i s H; [reflexivity|].
  cbn [loop_up]. rewrite (H i s) by lia. apply IH.
  intros j s' Hj. apply H. lia.
Qed.

Lemma land_children_m1 (v n : Z) : 0 <= n -> Z.land v (2 ^ n - 1) = v mod 2 ^ n.
Proof.
  intros Hn. rewrite <- Z.land_ones by exact Hn.
  rewrite Z.ones_equiv. reflexivity.
Qed.

Lemma level_bits_coord_ok (level v : Z) :
  0 <= level <= T8_DTRI_MAXLEVEL -> coord_ok level v ->
  forall v', level_bits v' v level -> v' = v.
Proof.
  intros Hl [Hr Ha] v' Hb. apply Z.bits_inj'. intros j Hj.
  rewrite (Hb j Hj).
  rewrite T8_DTRI_LEN_pow2 in Ha by lia.
  unfold T8_DTRI_ROOT_LEN in Hr. rewrite Z.shiftl_1_l in Hr.
  destruct (Z.leb_spec (T8_DTRI_MAXLEVEL - level) j).
  - destruct (Z.ltb_spec j T8_DTRI_MAXLEVEL).
    + rewrite !andb_true_r. reflexivity.
    + rewrite andb_false_r. symmetry.
      rewrite <- (Z.mod_small v (2 ^ T8_DTRI_MAXLEVEL)) by lia.
      apply Z.mod_pow2_bits_high. unfold T8_DTRI_MAXLEVEL in *. lia.
  - rewrite andb_false_r. cbn [andb]. symmetry.
    rewrite <- (Z.mod_pow2_bits_low v (T8_DTRI_MAXLEVEL - level) j) by lia.
    rewrite Ha. apply Z.bits_0.
Qed.

Section InitLinearId.

Context {conn : t8_dtri_connectivity}.
Hypothesis Hconn : conn_ok = true.

(** the bits of the cube-id are the bits of the coordinates *)
Lemma cubeid_bits (t : t8_dtri_t) (i : Z) :
  c_true (Z.land (cubeid t i) 1) = Z.testbit (t_x t) (T8_DTRI_MAXLEVEL - i)
  /\ c_true (Z.land (cubeid t i) 2) = Z.testbit (t_y t) (T8_DTRI_MAXLEVEL - i)
  /\ c_true (Z.land (cubeid t i) 4)
     = T8_DTRI_TO_DTET && Z.testbit (t_z t) (T8_DTRI_MAXLEVEL - i).
Proof.
  unfold cubeid.
  destruct T8_DTRI_TO_DTET; cbn [andb];
    repeat match goal with |- context [Z.testbit ?a ?b] => destruct (Z.testbit a b) end;
    repeat split; reflexivity.
Qed.

(** the body reads the digit of its level only *)
Lemma t8_dtri_init_linear_id_body_shift (id level n i : Z) (st : t8_dtri_t * Z) :
  1 <= i <= n -> n <= level ->
  t8_dtri_init_linear_id_body id level i st
  = t8_dtri_init_linear_id_body (Z.shiftr id (T8_DTRI_DIM * (level - n))) n i st.
Proof.
  intros Hi Hn. pose proof T8_DTRI_DIM_pos as HD.
  unfold t8_dtri_init_linear_id_body. destruct st as [t ty].
  rewrite Z.shiftr_shiftr by nia.
  replace (T8_DTRI_DIM * (level - n) + T8_DTRI_DIM * (n - i))
    with (T8_DTRI_DIM * (level - i)) by lia.
  reflexivity.
Qed.

Lemma t8_dtri_init_linear_id_loop_snoc (id : Z) (k : nat) (st : t8_dtri_t * Z) :
  loop_up (S k) 1 (t8_dtri_init_linear_id_body id (Z.of_nat (S k))) st
  = t8_dtri_init_linear_id_body id (Z.of_nat (S k)) (Z.of_nat (S k))
      (loop_up k 1 (t8_dtri_init_linear_id_body (Z.shiftr id T8_DTRI_DIM) (Z.of_nat k)) st).
Proof.
  rewrite loop_up_snoc. replace (1 + Z.of_nat k) with (Z.of_nat (S k)) by lia.
  f_equal. apply loop_up_ext. intros j s' Hj.
  rewrite (t8_dtri_init_linear_id_body_shift id (Z.of_nat (S k)) (Z.of_nat k)) by lia.
  replace (Z.of_nat (S k) - Z.of_nat k) with 1 by lia.
  rewrite Z.mul_1_r. reflexivity.
Qed.

(** Walking down along the index of [t] rebuilds the coordinates of [t]
    level by level, and arrives at the type the upward walk started from,
    provided the upward walk ends at the root type 0. *)
Lemma t8_dtri_init_linear_id_loop (t s0 : t8_dtri_t) (k : nat) :
  forall ty,
    Z.of_nat k <= T8_DTRI_MAXLEVEL ->
    0 <= ty < T8_DTRI_NUM_TYPES ->
    type_up t ty (Z.of_nat k) k = 0 ->
    t_x s0 = 0 -> t_y s0 = 0 -> (T8_DTRI_TO_DTET = true -> t_z s0 = 0) ->
    let r := loop_up k 1
               (t8_dtri_init_linear_id_body (sfc_index t ty (Z.of_nat k) k) (Z.of_nat k))
               (s0, 0) in
    snd r = ty
    /\ t_level (fst r) = t_level s0
    /\ level_bits (t_x (fst r)) (t_x t) (Z.of_nat k)
    /\ level_bits (t_y (fst r)) (t_y t) (Z.of_nat k)
    /\ (T8_DTRI_TO_DTET = true -> level_bits (t_z (fst r)) (t_z t) (Z.of_nat k)).
Proof.
  pose proof T8_DTRI_DIM_pos as HD.
  induction k as [|k IH]; intros ty Hk Hty Hup Hx Hy Hz r.
  - subst r. cbn [loop_up fst snd]. cbn [type_up] in Hup.
    assert (forall v, v = 0 -> level_bits v (t_x t) 0 /\ level_bits v (t_y t) 0
                               /\ level_bits v (t_z t) 0) as H0.
    { intros v ->. repeat split; intros j Hj; rewrite Z.bits_0;
        destruct (Z.leb_spec (T8_DTRI_MAXLEVEL - 0) j);
        destruct (Z.ltb_spec j T8_DTRI_MAXLEVEL); try lia;
        rewrite ?andb_false_r; reflexivity. }
    change (Z.of_nat 0) with 0.
    repeat split; try (symmetry; assumption);
      try apply (H0 _ Hx); try apply (H0 _ Hy).
    intros Hd. apply (H0 _ (Hz Hd)).
  - subst r. rewrite t8_dtri_init_linear_id_loop_snoc.
    cbn [sfc_index type_up] in *. cbv zeta.
    set (i := Z.of_nat (S k)) in *.
    destruct (conn_up Hconn (cubeid t i) ty (cubeid_range t i) Hty)
      as (Hp & Hd & Hcid & Htype & _).
    set (cid := cubeid t i) in *.
    set (d := t8_dtri_type_cid_to_Iloc ty cid) in *.
    set (p := t8_dtri_cid_type_to_parenttype cid ty) in *.
    replace (i - 1) with (Z.of_nat k) in * by lia.
    set (q := sfc_index t p (Z.of_nat k) k) in *.
    rewrite T8_DTRI_CHILDREN_pow in Hd.
    assert (Z.shiftr (d + 2 ^ T8_DTRI_DIM * q) T8_DTRI_DIM = q) as Hq.
    { rewrite Z.shiftr_div_pow2 by lia.
      symmetry. apply (Z.div_unique _ _ q d); lia. }
    rewrite Hq.
    destruct (IH p ltac:(lia) Hp Hup Hx Hy Hz) as (Hs & Hlv & Bx & By & Bz).
    fold q in Hs, Hlv, Bx, By, Bz.
    destruct (loop_up k 1 (t8_dtri_init_linear_id_body q (Z.of_nat k)) (s0, 0))
      as [t1 ty1].
    cbn [fst snd] in *. subst ty1.
    unfold t8_dtri_init_linear_id_body.
    rewrite Z.sub_diag, Z.mul_0_r, Z.shiftr_0_r.
    rewrite T8_DTRI_CHILDREN_pow, land_children_m1 by lia.
    assert ((d + 2 ^ T8_DTRI_DIM * q) mod 2 ^ T8_DTRI_DIM = d) as Hm.
    { symmetry. apply (Z.mod_unique _ _ q d); lia. }
    rewrite Hm, Hcid, Htype.
    destruct (cubeid_bits t i) as (Cx & Cy & Cz). fold cid in Cx, Cy, Cz.
    rewrite Cx, Cy, Cz.
    assert (forall (b : bool) v1 v,
               level_bits v1 v (Z.of_nat k) ->
               b = Z.testbit v (T8_DTRI_MAXLEVEL - i) ->
               level_bits (Z.lor v1 (if b then Z.shiftl 1 (T8_DTRI_MAXLEVEL - i) else 0))
                 v i) as Hstep.
    { intros b v1 v B -> j Hj. rewrite Z.lor_spec, (B j Hj).
      assert (Z.testbit (if Z.testbit v (T8_DTRI_MAXLEVEL - i)
                         then Z.shiftl 1 (T8_DTRI_MAXLEVEL - i) else 0) j
              = Z.testbit v (T8_DTRI_MAXLEVEL - i) && (T8_DTRI_MAXLEVEL - i =? j)) as ->.
      { destruct (Z.testbit v (T8_DTRI_MAXLEVEL - i)).
        - rewrite Z.shiftl_1_l, Z.pow2_bits_eqb by lia. reflexivity.
        - apply Z.bits_0. }
      destruct (Z.eqb_spec (T8_DTRI_MAXLEVEL - i) j) as [E|E].
      - subst j.
        destruct (Z.leb_spec (T8_DTRI_MAXLEVEL - Z.of_nat k) (T8_DTRI_MAXLEVEL - i));
          [lia|].
        destruct (Z.leb_spec (T8_DTRI_MAXLEVEL - i) (T8_DTRI_MAXLEVEL - i)); [|lia].
        destruct (Z.ltb_spec (T8_DTRI_MAXLEVEL - i) T8_DTRI_MAXLEVEL); [|lia].
        destruct (Z.testbit v (T8_DTRI_MAXLEVEL - i)); reflexivity.
      - rewrite andb_false_r, orb_false_r.
        destruct (Z.leb_spec (T8_DTRI_MAXLEVEL - Z.of_nat k) j);
          destruct (Z.leb_spec (T8_DTRI_MAXLEVEL - i) j); try lia; reflexivity. }
    unfold ifdef_dtet.
    destruct T8_DTRI_TO_DTET eqn:ED; cbn [fst snd t_level t_x t_y t_z set_x set_y set_z andb];
      (split; [reflexivity|]); (split; [assumption|]);
      (split; [apply Hstep; [assumption|reflexivity]|]);
      (split; [apply Hstep; [assumption|reflexivity]|]).
    + intros _. apply Hstep; [apply Bz; reflexivity|reflexivity].
    + intros; discriminate.
Qed.

End InitLinearId.

(** ** The linear id round trip *)

Section LinearIdRoundTrip.

Context {conn : t8_dtri_connectivity}.

(** C3. For every valid triangle or tetrahedron [t],
    [t8_dtri_init_linear_id (t8_dtri_linear_id (t, t->level), t->level)]
    reproduces [t]: both calls return, and the element built from the index
    has the level, the type and the anchor coordinates of [t].  (The tables
    are assumed consistent, [conn_ok]; the triangle tables are.) *)
Theorem t8_dtri_linear_id_round_trip (t buf : t8_dtri_t) :
  conn_ok = true ->
  t8_dtri_valid t ->
  exists id t',
    t8_dtri_linear_id t (t_level t) = Some id
    /\ t8_dtri_init_linear_id buf id (t_level t) = Some t'
    /\ same_element t' t.
Proof.
  intros Hconn [Hl Hty Hx Hy Hz Hroot].
  pose proof T8_DTRI_DIM_pos as HD.
  set (k := Z.to_nat (t_level t)).
  assert (Z.of_nat k = t_level t) as Hk by (subst k; lia).
  exists (sfc_index t (t_type t) (t_level t) k).
  rewrite t8_dtri_linear_id_eq by (assumption || lia). fold k.
  pose proof (sfc_index_range Hconn t k (t_type t) (t_level t) Hty) as Hr.
  rewrite Hk in Hr.
  unfold t8_dtri_init_linear_id.
  rewrite T8_ASSERT_true.
  2:{ apply range_true. split; [lia|].
      rewrite Z.shiftl_1_l, u64_small; [lia|].
      split; [apply Z.pow_nonneg; lia|].
      apply Z.pow_lt_mono_r; unfold T8_DTRI_MAXLEVEL in *; nia. }
  cbv zeta. fold k.
  set (s0 := if T8_DTRI_TO_DTET then _ else _).
  unfold ancestor_type in Hroot. rewrite Z.sub_0_r in Hroot. fold k in Hroot.
  pose proof (t8_dtri_init_linear_id_loop Hconn t s0 k (t_type t)) as H.
  rewrite Hk in H.
  destruct H as (Hs & Hlv & Bx & By & Bz); try assumption; try lia.
  { subst s0. destruct T8_DTRI_TO_DTET; reflexivity. }
  { subst s0. destruct T8_DTRI_TO_DTET; reflexivity. }
  { intros E. subst s0. rewrite E. reflexivity. }
  destruct (loop_up k 1 _ (s0, 0)) as [t1 ty1]. cbn [fst snd] in *.
  eexists. split; [reflexivity|]. split; [reflexivity|].
  unfold same_element. cbn [t_level t_type t_x t_y t_z set_type].
  split. { rewrite Hlv. subst s0. destruct T8_DTRI_TO_DTET; reflexivity. }
  split; [assumption|].
  split; [apply (level_bits_coord_ok (t_level t)); assumption|].
  split; [apply (level_bits_coord_ok (t_level t)); assumption|].
  intros E. apply (level_bits_coord_ok (t_level t)); auto.
Qed.

End LinearIdRoundTrip.

(** The triangle tables are consistent. *)
Lemma conn_ok_2d : @conn_ok t8_dtri_connectivity_2d = true.
Proof. vm_compute. reflexivity. Qed.

(** The triangle tables fit the kernel: parent, child, child id, linear id,
    [t8_dtri_is_inside_root] and [t8_dtri_is_ancestor] agree on every
    element up to level 3 and its four children. *)
Lemma t8_dtri_connectivity_2d_fits_kernel :
  forallb (fun lv =>
    forall_range (4 ^ lv) (fun id =>
      forall_range 4 (fun k => child_round_trip lv id k))) [0; 1; 2; 3] = true.
Proof. vm_compute. reflexivity. Qed.

Lemma t8_dtri_linear_id_round_trip_witness :
  exists id t',
    t8_dtri_linear_id (triangle 2 1 (2 ^ 19) 0) 2 = Some id
    /\ t8_dtri_init_linear_id (triangle 0 0 0 0) id 2 = Some t'
    /\ same_element t' (triangle 2 1 (2 ^ 19) 0).
Proof.
  apply (t8_dtri_linear_id_round_trip (triangle 2 1 (2 ^ 19) 0) (triangle 0 0 0 0)).
  - vm_compute. reflexivity.
  - valid_by_computation.
Defined.

(** ** [t8_dtri_parent] *)

Lemma clear_bit_spec (v k j : Z) :
  0 <= k -> 0 <= j ->
  Z.testbit (Z.land v (Z.lnot (Z.shiftl 1 k))) j = Z.testbit v j && negb (j =? k).
Proof.
  intros Hk Hj.
  rewrite Z.land_spec, Z.lnot_spec, Z.shiftl_1_l, Z.pow2_bits_eqb by lia.
  rewrite (Z.eqb_sym k j). reflexivity.
Qed.

(** C8. For every triangle or tetrahedron [t] with [0 < t->level <=
    MAXLEVEL] (in particular every valid one above the root),
    [t8_dtri_parent (t, p)] returns and sets [p->level = t->level - 1], each
    coordinate of [p] to the coordinate of [t] with the bit
    [h = 1 << (MAXLEVEL - t->level)] cleared, and
    [p->type = cid_type_to_parenttype[cubeid (t, t->level)][t->type]], where
    the cube-id is the number [cubeid] made of the bits [MAXLEVEL - t->level]
    of the coordinates of [t]. *)
Theorem t8_dtri_parent_spec (conn : t8_dtri_connectivity) (t buf : t8_dtri_t) :
  0 < t_level t <= T8_DTRI_MAXLEVEL ->
  let h := Z.shiftl 1 (T8_DTRI_MAXLEVEL - t_level t) in
  exists p,
    t8_dtri_parent t buf = Some p
    /\ t_level p = t_level t - 1
    /\ t_type p = t8_dtri_cid_type_to_parenttype (cubeid t (t_level t)) (t_type t)
    /\ t_x p = Z.land (t_x t) (Z.lnot h)
    /\ t_y p = Z.land (t_y t) (Z.lnot h)
    /\ (T8_DTRI_TO_DTET = true -> t_z p = Z.land (t_z t) (Z.lnot h))
    /\ (forall j, 0 <= j ->
          Z.testbit (t_x p) j
          = Z.testbit (t_x t) j && negb (j =? T8_DTRI_MAXLEVEL - t_level t))
    /\ (forall j, 0 <= j ->
          Z.testbit (t_y p) j
          = Z.testbit (t_y t) j && negb (j =? T8_DTRI_MAXLEVEL - t_level t)).
Proof.
  intros Hl h. unfold t8_dtri_parent.
  rewrite T8_ASSERT_true by (apply Z.ltb_lt; lia).
  rewrite compute_cubeid_eq by lia.
  eexists. split; [reflexivity|].
  unfold ifdef_dtet, T8_DTRI_LEN. fold h.
  destruct T8_DTRI_TO_DTET;
    cbn [t_level t_type t_x t_y t_z set_level set_type set_x set_y set_z set_eclass];
    repeat split; try discriminate;
    intros j Hj; subst h; apply clear_bit_spec; lia.
Qed.

Lemma t8_dtri_parent_spec_witness :
  let t := triangle 2 1 (2 ^ 19) 0 in
  let h := Z.shiftl 1 (T8_DTRI_MAXLEVEL - t_level t) in
  exists p,
    t8_dtri_parent t t = Some p
    /\ t_level p = t_level t - 1
    /\ t_type p = t8_dtri_cid_type_to_parenttype (cubeid t (t_level t)) (t_type t)
    /\ t_x p = Z.land (t_x t) (Z.lnot h)
    /\ t_y p = Z.land (t_y t) (Z.lnot h)
    /\ (T8_DTRI_TO_DTET = true -> t_z p = Z.land (t_z t) (Z.lnot h))
    /\ (forall j, 0 <= j ->
          Z.testbit (t_x p) j
          = Z.testbit (t_x t) j && negb (j =? T8_DTRI_MAXLEVEL - t_level t))
    /\ (forall j, 0 <= j ->
          Z.testbit (t_y p) j
          = Z.testbit (t_y t) j && negb (j =? T8_DTRI_MAXLEVEL - t_level t)).
Proof.
  apply (t8_dtri_parent_spec t8_dtri_connectivity_2d
           (triangle 2 1 (2 ^ 19) 0) (triangle 2 1 (2 ^ 19) 0)).
  vm_compute. intuition congruence.
Defined.

(** ** Triangles inside the root are valid *)

Lemma shiftr_step (v p : Z) :
  0 <= p ->
  Z.shiftr v p = 2 * Z.shiftr v (p + 1) + b2z (Z.testbit v p).
Proof.
  intros Hp. rewrite Z.testbit_odd.
  rewrite <- (Z.shiftr_shiftr v p 1) by lia.
  rewrite <- Z.div2_spec. apply Z.div2_odd.
Qed.

(** the upward walk of a triangle on or below the diagonal ends at type 0 *)
Lemma type_up_inside_root_2d (t : t8_dtri_t) (k : nat) :
  forall ty,
    Z.of_nat k <= T8_DTRI_MAXLEVEL -> 0 <= ty < 2 ->
    0 <= t_x t < 2 ^ T8_DTRI_MAXLEVEL -> 0 <= t_y t < 2 ^ T8_DTRI_MAXLEVEL ->
    let X := Z.shiftr (t_x t) (T8_DTRI_MAXLEVEL - Z.of_nat k) in
    let Y := Z.shiftr (t_y t) (T8_DTRI_MAXLEVEL - Z.of_nat k) in
    Y <= X -> (Y = X -> ty = 0) ->
    type_up t ty (Z.of_nat k) k = 0.
Proof.
  induction k as [|k IH]; intros ty Hk Hty Hx Hy X Y Hle Heq.
  - cbn [type_up]. apply Heq. subst X Y.
    rewrite !Z.shiftr_div_pow2 by (simpl; lia).
    change (Z.of_nat 0) with 0. rewrite Z.sub_0_r.
    rewrite !Z.div_small by lia. reflexivity.
  - cbn [type_up].
    replace (Z.of_nat (S k) - 1) with (Z.of_nat k) by lia.
    pose proof (shiftr_step (t_x t) (T8_DTRI_MAXLEVEL - Z.of_nat (S k)) ltac:(lia)) as Ex.
    pose proof (shiftr_step (t_y t) (T8_DTRI_MAXLEVEL - Z.of_nat (S k)) ltac:(lia)) as Ey.
    replace (T8_DTRI_MAXLEVEL - Z.of_nat (S k) + 1)
      with (T8_DTRI_MAXLEVEL - Z.of_nat k) in Ex, Ey by lia.
    fold X in Ex. fold Y in Ey.
    unfold cubeid. change T8_DTRI_TO_DTET with false. cbn [andb].
    assert (ty = 0 \/ ty = 1) as Hc by lia.
    set (X' := Z.shiftr (t_x t) (T8_DTRI_MAXLEVEL - Z.of_nat k)) in *.
    set (Y' := Z.shiftr (t_y t) (T8_DTRI_MAXLEVEL - Z.of_nat k)) in *.
    apply IH; try lia; fold X' Y';
      destruct (Z.testbit (t_x t) (T8_DTRI_MAXLEVEL - Z.of_nat (S k)));
      destruct (Z.testbit (t_y t) (T8_DTRI_MAXLEVEL - Z.of_nat (S k)));
      cbn [b2z] in *; destruct Hc; subst ty;
      match goal with
      | |- context [t8_dtri_cid_type_to_parenttype ?c ?y] =>
          let v := eval vm_compute in (t8_dtri_cid_type_to_parenttype c y) in
          change (t8_dtri_cid_type_to_parenttype c y) with v
      | _ => idtac
      end; try lia.
Qed.

(** The invariants of section 3.1 for a triangle: level and type in range,
    anchor aligned, and [t8_dtri_is_inside_root].  Such a triangle is valid:
    it descends from the root triangle. *)
Lemma t8_dtri_inside_root_valid (t : t8_dtri_t) :
  0 <= t_level t <= T8_DTRI_MAXLEVEL -> 0 <= t_type t < 2 ->
  t_x t mod T8_DTRI_LEN (t_level t) = 0 ->
  t_y t mod T8_DTRI_LEN (t_level t) = 0 ->
  t8_dtri_is_inside_root t = true ->
  t8_dtri_valid t.
Proof.
  intros Hl Hty Ax Ay Hin.
  unfold t8_dtri_is_inside_root in Hin.
  change T8_DTRI_TO_DTET with false in Hin. cbn [negb] in Hin.
  rewrite !andb_true_iff in Hin.
  destruct Hin as ((((Hx & Hy0) & _) & (Hyx & Hdiag)) & _).
  destruct Hx as [Hx0 Hx1].
  apply Z.leb_le in Hx0, Hy0, Hyx. apply Z.ltb_lt in Hx1.
  unfold T8_DTRI_ROOT_LEN in Hx1. rewrite Z.shiftl_1_l in Hx1.
  constructor; try assumption; try discriminate.
  - split; [|assumption]. unfold T8_DTRI_ROOT_LEN. rewrite Z.shiftl_1_l. lia.
  - split; [|assumption]. unfold T8_DTRI_ROOT_LEN. rewrite Z.shiftl_1_l. lia.
  - unfold ancestor_type. rewrite Z.sub_0_r.
    set (k := Z.to_nat (t_level t)).
    assert (Z.of_nat k = t_level t) as Hk by (subst k; lia).
    rewrite <- Hk at 1.
    rewrite T8_DTRI_LEN_pow2 in Ax, Ay by lia.
    assert (0 < 2 ^ (T8_DTRI_MAXLEVEL - t_level t)) as Hp
        by (apply Z.pow_pos_nonneg; lia).
    pose proof (Z.div_mod (t_x t) _ (Z.neq_sym _ _ (Z.lt_neq _ _ Hp))) as Dx.
    pose proof (Z.div_mod (t_y t) _ (Z.neq_sym _ _ (Z.lt_neq _ _ Hp))) as Dy.
    rewrite Ax in Dx. rewrite Ay in Dy.
    apply type_up_inside_root_2d; try lia;
      rewrite Hk, !Z.shiftr_div_pow2 by lia.
    + nia.
    + intros E. destruct (Z.eqb_spec (t_y t) (t_x t)) as [_|N].
      * apply Z.eqb_eq. exact Hdiag.
      * exfalso. apply N. nia.
Qed.

(** ** The successor of a triangle or tetrahedron *)

(** setting or clearing bit [p] of a coordinate *)
Lemma set_bit_spec (b : bool) (v p j : Z) :
  0 <= p ->
  Z.testbit (if b then Z.lor v (Z.shiftl 1 p) else Z.land v (Z.lnot (Z.shiftl 1 p))) j
  = if j =? p then b else Z.testbit v j.
Proof.
  intros Hp. destruct (Z.ltb_spec j 0) as [Hj|Hj].
  - rewrite !Z.testbit_neg_r by lia.
    destruct (Z.eqb_spec j p); [lia|reflexivity].
  - destruct b.
    + rewrite Z.lor_spec, Z.shiftl_1_l, Z.pow2_bits_eqb by lia.
      rewrite (Z.eqb_sym p j). destruct (j =? p); [apply orb_true_r|apply orb_false_r].
    + rewrite clear_bit_spec by lia.
      destruct (j =? p); [apply andb_false_r|apply andb_true_r].
Qed.

Section Successor.

Context {conn : t8_dtri_connectivity}.
Hypothesis Hconn : conn_ok = true.

(** a cube-id is made of its bits *)
Lemma cid_bits (c : Z) :
  0 <= c < T8_DTRI_CHILDREN ->
  b2z (c_true (Z.land c 1)) + 2 * b2z (c_true (Z.land c 2))
  + 4 * b2z (T8_DTRI_TO_DTET && c_true (Z.land c 4)) = c.
Proof.
  unfold T8_DTRI_CHILDREN. intros H.
  destruct T8_DTRI_TO_DTET.
  - assert (c = 0 \/ c = 1 \/ c = 2 \/ c = 3 \/ c = 4 \/ c = 5 \/ c = 6 \/ c = 7)
      as Hc by lia.
    decompose [or] Hc; subst c; reflexivity.
  - assert (c = 0 \/ c = 1 \/ c = 2 \/ c = 3) as Hc by lia.
    decompose [or] Hc; subst c; reflexivity.
Qed.

(** The last statements of [t8_dtri_succ_pred_recursion]: the bit of
    [level] of every coordinate is set to the bit of [cid]. *)
Lemma cubeid_after_setbits (s : t8_dtri_t) (ty level cid : Z) :
  1 <= level <= T8_DTRI_MAXLEVEL -> 0 <= cid < T8_DTRI_CHILDREN ->
  let h := Z.shiftl 1 (T8_DTRI_MAXLEVEL - level) in
  let setbit (m v : Z) := if c_true (Z.land cid m) then Z.lor v h
                          else Z.land v (Z.lnot h) in
  let s0 := set_level (set_type s ty) level in
  let s1 := set_x s0 (setbit 1 (t_x s0)) in
  let s2 := set_y s1 (setbit 2 (t_y s1)) in
  let s' := ifdef_dtet (fun s => set_z s (setbit 4 (t_z s))) s2 in
  t_level s' = level /\ t_type s' = ty
  /\ cubeid s' level = cid
  /\ (forall j, j <> level -> cubeid s' j = cubeid s j).
Proof.
  intros Hl Hc h setbit s0 s1 s2 s'. subst s' s2 s1 s0 setbit h.
  unfold ifdef_dtet, cubeid.
  pose proof (cid_bits cid Hc) as Hb.
  destruct T8_DTRI_TO_DTET;
    cbn [t_level t_type t_x t_y t_z set_level set_type set_x set_y set_z andb] in *;
    (split; [reflexivity|]); (split; [reflexivity|]); split;
    try (rewrite !set_bit_spec, !Z.eqb_refl by lia; exact Hb);
    intros j Hj; rewrite !set_bit_spec by lia;
    destruct (Z.eqb_spec (T8_DTRI_MAXLEVEL - j) (T8_DTRI_MAXLEVEL - level));
    (lia || reflexivity).
Qed.

(** the index reads the cube-ids of its levels only *)
Lemma sfc_index_ext (a b : t8_dtri_t) (n : nat) :
  forall ty i,
    (forall j, i - Z.of_nat n < j <= i -> cubeid a j = cubeid b j) ->
    sfc_index a ty i n = sfc_index b ty i n.
Proof.
  induction n as [|n IH]; intros ty i H; [reflexivity|].
  cbn [sfc_index]. cbv zeta. rewrite (H i) by lia.
  rewrite (IH _ (i - 1)); [reflexivity|].
  intros j Hj. apply H. lia.
Qed.

Lemma rem_children (d : Z) :
  0 <= d < T8_DTRI_CHILDREN ->
  Z.rem (d + T8_DTRI_CHILDREN + 1) T8_DTRI_CHILDREN
  = if d =? T8_DTRI_CHILDREN - 1 then 0 else d + 1.
Proof.
  intros Hd. rewrite Z.rem_mod_nonneg by lia.
  destruct (Z.eqb_spec d (T8_DTRI_CHILDREN - 1)) as [E|E].
  - replace (d + T8_DTRI_CHILDREN + 1) with (0 + 2 * T8_DTRI_CHILDREN) by lia.
    rewrite Z.mod_add by lia. apply Z.mod_small. lia.
  - replace (d + T8_DTRI_CHILDREN + 1) with (d + 1 + 1 * T8_DTRI_CHILDREN) by lia.
    rewrite Z.mod_add by lia. apply Z.mod_small. lia.
Qed.

(** One call of [t8_dtri_succ_pred_recursion (t, s, k, 1)] inside a carry
    chain: the levels above [k] of [t] all hold the last child, [s] still
    has the cube-ids of [t] up to level [k], and the level-[k] ancestor is
    not the last element.  The call returns, and [s] becomes the element
    of level [k] whose index is one more. *)
Lemma t8_dtri_succ_pred_recursion_step (t : t8_dtri_t) (k : nat) :
  forall fuel s,
    (k < fuel)%nat ->
    1 <= Z.of_nat k <= t_level t -> t_level t <= T8_DTRI_MAXLEVEL ->
    0 <= t_type t < T8_DTRI_NUM_TYPES ->
    (forall j, Z.of_nat k < j <= t_level t ->
               t8_dtri_type_cid_to_Iloc (t_type t) (cubeid t j) = T8_DTRI_CHILDREN - 1) ->
    (forall j, 1 <= j <= Z.of_nat k -> cubeid s j = cubeid t j) ->
    sfc_index t (t_type t) (Z.of_nat k) k + 1 < 2 ^ (T8_DTRI_DIM * Z.of_nat k) ->
    exists s',
      t8_dtri_succ_pred_recursion_fuel fuel t s (Z.of_nat k) 1 = Some s'
      /\ t_level s' = Z.of_nat k
      /\ 0 <= t_type s' < T8_DTRI_NUM_TYPES
      /\ sfc_index s' (t_type s') (Z.of_nat k) k
         = sfc_index t (t_type t) (Z.of_nat k) k + 1.
Proof.
  pose proof T8_DTRI_DIM_pos as HD.
  pose proof T8_DTRI_CHILDREN_pow as HC.
  assert (4 <= T8_DTRI_CHILDREN) as HC4.
  { destruct T8_DTRI_DIM_cases as [(_ & -> & _)|(_ & -> & _)]; lia. }
  induction k as [|k IH]; intros fuel s Hf Hk HL Hty Hchain Hagree Hlast; [lia|].
  destruct fuel as [|fuel]; [lia|].
  set (i := Z.of_nat (S k)) in *.
  cbn [t8_dtri_succ_pred_recursion_fuel].
  rewrite T8_ASSERT_true by (apply range_true; lia).
  rewrite T8_ASSERT_true
    by (apply andb_true_intro; split; apply Z.ltb_lt; lia).
  change (1 =? 0) with false. cbv iota.
  rewrite compute_cubeid_eq by lia.
  rewrite compute_type_own_type by lia.
  destruct (conn_up Hconn (cubeid t i) (t_type t) (cubeid_range t i) Hty)
    as (Hp & Hd & _ & _ & Hlastchild).
  set (cid := cubeid t i) in *.
  set (d := t8_dtri_type_cid_to_Iloc (t_type t) cid) in *.
  set (p := t8_dtri_cid_type_to_parenttype cid (t_type t)) in *.
  rewrite rem_children by exact Hd.
  cbn [sfc_index] in Hlast. cbv zeta in Hlast. fold cid d p in Hlast.
  replace (i - 1) with (Z.of_nat k) in * by lia.
  replace (T8_DTRI_DIM * i) with (T8_DTRI_DIM + T8_DTRI_DIM * Z.of_nat k) in Hlast by lia.
  rewrite Z.pow_add_r, <- HC in Hlast by lia.
  destruct (Z.eqb_spec d (T8_DTRI_CHILDREN - 1)) as [E|E].
  - (* carry *)
    rewrite Z.eqb_refl. change (1 <? 0) with false. change (0 <? 1) with true.
    cbv iota.
    assert (p = t_type t) as Ep by (apply Hlastchild; exact E).
    rewrite Ep in Hlast.
    assert (1 <= Z.of_nat k) as Hk1.
    { destruct k; [|lia]. cbn [sfc_index] in Hlast.
      change (Z.of_nat 0) with 0 in Hlast.
      rewrite !Z.mul_0_r, Z.pow_0_r in Hlast. lia. }
    destruct (IH fuel s) as (s1 & Hs1 & Hl1 & Ht1 & Hi1); try lia; try assumption.
    { intros j Hj. destruct (Z.eq_dec j i) as [->|]; [exact E|apply Hchain; lia]. }
    { intros j Hj. apply Hagree. lia. }
    { nia. }
    rewrite Hs1.
    destruct (conn_down Hconn (t_type s1) 0 Ht1 ltac:(lia)) as (Hc' & Ht' & HI' & HP').
    set (ty' := t8_dtri_parenttype_Iloc_to_type (t_type s1) 0) in *.
    set (cid' := t8_dtri_parenttype_Iloc_to_cid (t_type s1) 0) in *.
    destruct (cubeid_after_setbits s1 ty' i cid' ltac:(lia) Hc')
      as (Hlv & Hty' & Hcid & Hframe).
    cbv zeta in Hlv, Hty', Hcid, Hframe.
    eexists. split; [reflexivity|].
    split; [exact Hlv|]. split; [rewrite Hty'; exact Ht'|].
    rewrite Hty'. cbn [sfc_index]. cbv zeta. rewrite Hcid, HI', HP'.
    replace (i - 1) with (Z.of_nat k) by lia.
    rewrite (sfc_index_ext _ s1); [|intros j Hj; apply Hframe; lia].
    rewrite Hi1. fold cid. fold d p. rewrite Ep, E. lia.
  - (* no carry *)
    destruct (Z.eqb_spec (d + 1) 0) as [|_]; [lia|].
    destruct (conn_down Hconn p (d + 1) Hp ltac:(lia)) as (Hc' & Ht' & HI' & HP').
    set (ty' := t8_dtri_parenttype_Iloc_to_type p (d + 1)) in *.
    set (cid' := t8_dtri_parenttype_Iloc_to_cid p (d + 1)) in *.
    destruct (cubeid_after_setbits s ty' i cid' ltac:(lia) Hc')
      as (Hlv & Hty' & Hcid & Hframe).
    cbv zeta in Hlv, Hty', Hcid, Hframe.
    eexists. split; [reflexivity|].
    split; [exact Hlv|]. split; [rewrite Hty'; exact Ht'|].
    rewrite Hty'. cbn [sfc_index]. cbv zeta. rewrite Hcid, HI', HP'.
    replace (i - 1) with (Z.of_nat k) by lia.
    rewrite (sfc_index_ext _ s); [|intros j Hj; apply Hframe; lia].
    rewrite (sfc_index_ext s t); [|intros j Hj; apply Hagree; lia].
    fold cid. fold d p. lia.
Qed.

(** The successor at the element's own level is the next element of the
    curve. *)
Lemma t8_dtri_successor_linear_id (t : t8_dtri_t) (id : Z) :
  1 <= t_level t <= T8_DTRI_MAXLEVEL ->
  0 <= t_type t < T8_DTRI_NUM_TYPES ->
  t8_dtri_linear_id t (t_level t) = Some id ->
  id + 1 < T8_DTRI_CHILDREN ^ t_level t ->
  exists s,
    t8_dtri_successor t (t_level t) = Some s
    /\ t8_dtri_linear_id s (t_level t) = Some (id + 1).
Proof.
  intros Hl Hty Hid Hlast.
  pose proof T8_DTRI_DIM_pos as HD.
  rewrite t8_dtri_linear_id_eq in Hid by (assumption || lia).
  injection Hid as <-.
  set (k := Z.to_nat (t_level t)) in *.
  assert (Z.of_nat k = t_level t) as Hk by (subst k; lia).
  unfold t8_dtri_successor, t8_dtri_succ_pred_recursion, t8_dtri_copy. fold k.
  rewrite T8_DTRI_CHILDREN_pow, <- Z.pow_mul_r in Hlast by lia.
  pose proof (t8_dtri_succ_pred_recursion_step t k (k + 1)%nat t) as H.
  rewrite Hk in H.
  destruct H as (s & Hs & Hlv & Hts & Hi); try lia; try assumption.
  exists s. split; [exact Hs|].
  rewrite <- Hlv at 1.
  rewrite t8_dtri_linear_id_eq by (assumption || lia).
  rewrite Hlv. fold k. rewrite Hi. reflexivity.
Qed.

End Successor.

(** ** The Morton index of a quadrant *)

Lemma land_3_bits (a : Z) :
  Z.land a 3
  = Z.lor (if Z.testbit a 0 then 1 else 0) (if Z.testbit a 1 then 2 else 0).
Proof.
  apply Z.bits_inj'. intros j Hj.
  rewrite Z.land_spec, Z.lor_spec.
  assert (j = 0 \/ j = 1 \/ 2 <= j) as [->|[->|H2]] by lia.
  - destruct (Z.testbit a 0), (Z.testbit a 1); reflexivity.
  - destruct (Z.testbit a 0), (Z.testbit a 1); reflexivity.
  - change 3 with (Z.ones 2). rewrite Z.ones_spec_high by lia.
    rewrite andb_false_r.
    assert (forall v, 0 <= v < 4 -> Z.testbit v j = false) as Hs.
    { intros v Hv. destruct (Z.eq_dec v 0) as [->|]; [apply Z.bits_0|].
      apply Z.bits_above_log2; [lia|].
      apply Z.lt_le_trans with 2; [|lia].
      apply Z.log2_lt_pow2; simpl; lia. }
    rewrite !Hs by (destruct (Z.testbit a 0), (Z.testbit a 1); lia).
    reflexivity.
Qed.

Lemma c_true_land_1 (d : Z) : c_true (Z.land d 1) = Z.testbit d 0.
Proof. apply (c_true_land_bit d 0). lia. Qed.

Lemma c_true_land_2 (d : Z) : c_true (Z.land d 2) = Z.testbit d 1.
Proof. apply (c_true_land_bit d 1). lia. Qed.

(** the loop of [p4est_quadrant_linear_id] over the digits of [id] *)
Lemma concat_digits (id level : Z) (n : nat) :
  0 <= id < 4 ^ level -> Z.of_nat n <= level ->
  loop_up n 1 (fun i acc => Z.lor (Z.shiftl acc P4EST_DIM) (quad_digit id level i)) 0
  = Z.shiftr id (P4EST_DIM * (level - Z.of_nat n)).
Proof.
  unfold P4EST_DIM. intros Hid. induction n as [|n IH]; intros Hn.
  - cbn [loop_up]. change (Z.of_nat 0) with 0. rewrite Z.sub_0_r.
    rewrite Z.shiftr_div_pow2, Z.pow_mul_r by lia.
    symmetry. apply Z.div_small. exact Hid.
  - rewrite loop_up_snoc, IH by lia.
    unfold quad_digit, P4EST_DIM, P4EST_CHILDREN.
    replace (level - (1 + Z.of_nat n)) with (level - Z.of_nat (S n)) by lia.
    set (a := Z.shiftr id (2 * (level - Z.of_nat (S n)))).
    replace (Z.shiftr id (2 * (level - Z.of_nat n))) with (Z.shiftr a 2).
    2:{ subst a. rewrite Z.shiftr_shiftr by lia. f_equal. lia. }
    change (4 - 1) with (2 ^ 2 - 1). rewrite land_children_m1 by lia.
    rewrite Z.lor_comm, lor_digit_shiftl by (try apply Z.mod_pos_bound; lia).
    rewrite Z.shiftr_div_pow2 by lia.
    pose proof (Z.div_mod a (2 ^ 2) ltac:(lia)). lia.
Qed.

(** the loop of [p4est_quadrant_set_morton]: after [n] levels the
    coordinates hold the bits of the digits of the levels [1 .. n] *)
Lemma p4est_quadrant_set_morton_loop (id level : Z) (q0 : p4est_quadrant_t) (n : nat) :
  Z.of_nat n <= level <= P4EST_MAXLEVEL ->
  q_x q0 = 0 -> q_y q0 = 0 ->
  let q := loop_up n 1
             (fun i q =>
                let digit := Z.land (Z.shiftr id (P4EST_DIM * (level - i)))
                               (P4EST_CHILDREN - 1) in
                let shift := P4EST_QUADRANT_LEN i in
                mk_quad
                  (if c_true (Z.land digit 1) then Z.lor (q_x q) shift else q_x q)
                  (if c_true (Z.land digit 2) then Z.lor (q_y q) shift else q_y q)
                  (q_level q) (q_tdim q) (q_tnormal q) (q_tcoord q))
             q0 in
  forall j, 0 <= j ->
    Z.testbit (q_x q) j
    = (P4EST_MAXLEVEL - Z.of_nat n <=? j) && (j <? P4EST_MAXLEVEL)
      && Z.testbit id (P4EST_DIM * (level - (P4EST_MAXLEVEL - j)))
    /\ Z.testbit (q_y q) j
       = (P4EST_MAXLEVEL - Z.of_nat n <=? j) && (j <? P4EST_MAXLEVEL)
         && Z.testbit id (P4EST_DIM * (level - (P4EST_MAXLEVEL - j)) + 1).
Proof.
  unfold P4EST_DIM, P4EST_CHILDREN, P4EST_QUADRANT_LEN. cbv zeta.
  induction n as [|n IH]; intros Hn Hx Hy j Hj.
  - cbn [loop_up]. rewrite Hx, Hy, !Z.bits_0.
    change (Z.of_nat 0) with 0. rewrite Z.sub_0_r.
    destruct (Z.leb_spec P4EST_MAXLEVEL j), (Z.ltb_spec j P4EST_MAXLEVEL);
      try lia; split; reflexivity.
  - rewrite loop_up_snoc.
    specialize (IH ltac:(lia) Hx Hy).
    destruct (IH j Hj) as [Bx By]. clear IH.
    set (q1 := loop_up n 1 _ q0) in *.
    cbn [q_x q_y].
    replace (1 + Z.of_nat n) with (Z.of_nat (S n)) by lia.
    set (i := Z.of_nat (S n)) in *.
    set (a := Z.shiftr id (2 * (level - i))).
    rewrite c_true_land_1, c_true_land_2.
    rewrite !Z.land_spec.
    change (4 - 1) with (Z.ones 2). rewrite !Z.ones_spec_low, !andb_true_r by lia.
    subst a. rewrite !Z.shiftr_spec by lia.
    assert (forall (b : bool) v,
               Z.testbit (if b then Z.lor v (Z.shiftl 1 (P4EST_MAXLEVEL - i)) else v) j
               = Z.testbit v j || (b && (j =? P4EST_MAXLEVEL - i))) as Hb.
    { intros b v. unfold P4EST_MAXLEVEL in *. destruct b.
      - rewrite Z.lor_spec, Z.shiftl_1_l, Z.pow2_bits_eqb by lia.
        rewrite (Z.eqb_sym j). reflexivity.
      - cbn [andb]. rewrite orb_false_r. reflexivity. }
    rewrite !Hb, Bx, By.
    unfold P4EST_MAXLEVEL in *.
    destruct (Z.eqb_spec j (30 - i)) as [E|E].
    + subst j. replace (level - (30 - (30 - i))) with (level - i) by lia.
      replace (0 + 2 * (level - i)) with (2 * (level - i)) by lia.
      replace (1 + 2 * (level - i)) with (2 * (level - i) + 1) by lia.
      destruct (Z.leb_spec (30 - Z.of_nat n) (30 - i)); [lia|].
      destruct (Z.leb_spec (30 - i) (30 - i)); [|lia].
      destruct (Z.ltb_spec (30 - i) 30); [|lia].
      cbn [andb orb]. rewrite !andb_true_r. split; reflexivity.
    + rewrite !andb_false_r, !orb_false_r.
      destruct (Z.leb_spec (30 - Z.of_nat n) j), (Z.leb_spec (30 - i) j);
        try lia; split; reflexivity.
Qed.

(** [p4est_quadrant_linear_id] inverts [p4est_quadrant_set_morton] *)
Lemma p4est_quadrant_linear_id_set_morton (q : p4est_quadrant_t) (level id : Z) :
  0 <= level <= P4EST_MAXLEVEL -> 0 <= id < 4 ^ level ->
  p4est_quadrant_linear_id (p4est_quadrant_set_morton q level id) level = id.
Proof.
  intros Hl Hid. unfold p4est_quadrant_linear_id.
  rewrite (loop_up_ext _ (fun i acc => Z.lor (Z.shiftl acc P4EST_DIM)
                                         (quad_digit id level i))).
  - rewrite concat_digits by lia.
    replace (level - Z.of_nat (Z.to_nat level)) with 0 by lia.
    rewrite Z.mul_0_r. apply Z.shiftr_0_r.
  - intros i acc Hi. f_equal.
    unfold quad_child_index, quad_digit, P4EST_QUADRANT_LEN.
    unfold P4EST_MAXLEVEL in *.
    rewrite !c_true_land_bit by lia.
    unfold p4est_quadrant_set_morton.
    pose proof (p4est_quadrant_set_morton_loop id level
                  (mk_quad 0 0 level (q_tdim q) (q_tnormal q) (q_tcoord q))
                  (Z.to_nat level)) as H.
    cbv zeta in H.
    destruct (H ltac:(unfold P4EST_MAXLEVEL; lia) eq_refl eq_refl (30 - i) ltac:(lia))
      as [Bx By].
    rewrite Bx, By. unfold P4EST_MAXLEVEL, P4EST_DIM, P4EST_CHILDREN.
    replace (level - (30 - (30 - i))) with (level - i) by lia.
    destruct (Z.leb_spec (30 - Z.of_nat (Z.to_nat level)) (30 - i)); [|lia].
    destruct (Z.ltb_spec (30 - i) 30); [|lia].
    cbn [andb]. change (4 - 1) with 3. rewrite land_3_bits.
    rewrite !Z.shiftr_spec by lia.
    replace (0 + 2 * (level - i)) with (2 * (level - i)) by lia.
    replace (1 + 2 * (level - i)) with (2 * (level - i) + 1) by lia.
    reflexivity.
Qed.

Lemma p4est_quadrant_linear_id_nonneg (q : p4est_quadrant_t) (level : Z) :
  0 <= p4est_quadrant_linear_id q level.
Proof.
  unfold p4est_quadrant_linear_id.
  assert (forall n i acc, 0 <= acc ->
            0 <= loop_up n i
                   (fun i id => Z.lor (Z.shiftl id P4EST_DIM) (quad_child_index q i))
                   acc) as H.
  { induction n as [|n IH]; intros i acc Hacc; [exact Hacc|].
    cbn [loop_up]. apply IH. apply Z.lor_nonneg. split.
    - apply Z.shiftl_nonneg. exact Hacc.
    - unfold quad_child_index.
      destruct (c_true _), (c_true _); simpl; lia. }
  apply H. lia.
Qed.

Lemma p4est_quadrant_linear_id_surround (q r : p4est_quadrant_t) (level : Z) :
  p4est_quadrant_linear_id (t8_default_quad_copy_surround q r) level
  = p4est_quadrant_linear_id r level.
Proof.
  unfold p4est_quadrant_linear_id. apply loop_up_ext. intros j acc _.
  unfold quad_child_index, t8_default_quad_copy_surround.
  destruct (T8_QUAD_GET_TDIM q =? 3); reflexivity.
Qed.

(** The successor of a quadrant is the next element of the Morton curve. *)
Lemma t8_default_quad_successor_linear_id (q buf : p4est_quadrant_t) (level : Z) :
  0 <= level <= P4EST_QMAXLEVEL ->
  p4est_quadrant_linear_id q level + 1 < 4 ^ level ->
  exists s,
    t8_default_quad_successor q buf level = Some s
    /\ t8_default_quad_get_linear_id s level
       = Some (p4est_quadrant_linear_id q level + 1).
Proof.
  intros Hl Hlast.
  pose proof (p4est_quadrant_linear_id_nonneg q level) as H0.
  set (id := p4est_quadrant_linear_id q level) in *.
  assert (4 ^ level <= 4 ^ 30) as Hp
      by (apply Z.pow_le_mono_r; unfold P4EST_QMAXLEVEL in *; lia).
  assert (2 ^ (2 * level) = 4 ^ level) as Hp2
      by (rewrite Z.pow_mul_r by lia; reflexivity).
  unfold t8_default_quad_successor, t8_default_quad_get_linear_id.
  rewrite !T8_ASSERT_true by (apply range_true; lia).
  fold id. cbv zeta.
  rewrite (u64_small (id + 1)) by (simpl in Hp; lia).
  unfold P4EST_DIM. rewrite Z.shiftl_1_l, Hp2.
  rewrite u64_small by (simpl in Hp; pose proof (Z.pow_nonneg 4 level); lia).
  rewrite T8_ASSERT_true by (apply Z.ltb_lt; lia).
  eexists. split; [reflexivity|].
  rewrite T8_ASSERT_true by (apply range_true; lia).
  rewrite p4est_quadrant_linear_id_surround.
  rewrite p4est_quadrant_linear_id_set_morton
    by (unfold P4EST_QMAXLEVEL, P4EST_MAXLEVEL in *; lia).
  reflexivity.
Qed.

(** ** The successor is a step of the space-filling curve *)

(** C4. Below the element's own level [t8_dtri_successor] does not make a
    step of the curve.  The valid level-2 triangle [t] of type 1 with the
    anchor [(2^20 + 2^19, 0)] has the level-1 ancestor [a] of type 0 with
    the anchor [(2^20, 0)], which is element 1 of the 4 elements of level
    1, so not the last one.  The next element of level 1 is element 2, the
    triangle [due] of type 1 with the anchor [(2^20, 0)]: it is what
    [t8_dtri_successor (a, 1)] and [t8_dtri_init_linear_id (2, 1)] return.
    But [compute_type (t, 1)] returns the type 1 of [t] instead of the type
    0 of [a], and [t8_dtri_successor (t, 1)] returns the record [s] with
    level 1, type 0 and the anchor [(2^20 + 2^19, 2^20)]: it is not aligned
    to level 1, so no valid element, and its linear id at level 1 is 3.
    Element 2 is skipped.  In the words of the claim:
    [linear_id (successor (t, 1), 1)] is 3, while [linear_id (t, 1)] is 6
    (the index of [t] at its own level) and the index of the ancestor is
    1. *)
Theorem t8_dtri_successor_skips_element_below_own_level :
  let t := triangle 2 1 (2 ^ 20 + 2 ^ 19) 0 in
  let a := triangle 1 0 (2 ^ 20) 0 in
  let due := triangle 1 1 (2 ^ 20) 0 in
  let s := triangle 1 0 (2 ^ 20 + 2 ^ 19) (2 ^ 20) in
  t8_dtri_valid t /\ 1 <= 1 <= t_level t
  /\ t8_dtri_parent t t = Some a
  /\ t8_dtri_linear_id a 1 = Some 1 /\ 1 + 1 < T8_DTRI_CHILDREN ^ 1
  /\ t8_dtri_successor a 1 = Some due
  /\ t8_dtri_init_linear_id t 2 1 = Some due
  /\ t8_dtri_linear_id due 1 = Some 2
  /\ ancestor_type t 1 = 0 /\ compute_type t 1 = Some 1
  /\ t8_dtri_successor t 1 = Some s
  /\ t_x s mod T8_DTRI_LEN (t_level s) <> 0
  /\ ~ t8_dtri_valid s
  /\ t8_dtri_linear_id s 1 = Some 3
  /\ t8_dtri_linear_id t 1 = Some 6.
Proof.
  cbv zeta.
  split; [valid_by_computation|].
  split; [vm_compute; intuition congruence|].
  repeat (split; [vm_compute; reflexivity|]).
  split; [vm_compute; discriminate|].
  split; [|split; vm_compute; reflexivity].
  intros [_ _ [_ H] _ _ _]. vm_compute in H. discriminate.
Qed.

(** At the element's own level the successor of a simplex is a step of the
    curve, and the successor of a quadrant is one at every level: for every
    triangle or tetrahedron [t] of level [1 <= t->level <= MAXLEVEL] with a
    type in range (every valid element above the root is one) that is not
    the last element of its level, [t8_dtri_successor (t, t->level)]
    returns and its linear id at that level is the linear id of [t] plus
    one.  For every quadrant [q] and every level
    [1 <= l <= q->level <= MAXLEVEL] at which [q] is not the last element,
    [t8_default_quad_successor (q, l)] returns and its linear id at level
    [l] is the linear id of [q] at level [l] plus one. *)
Theorem successor_is_sfc_step_at_own_level :
  (forall (conn : t8_dtri_connectivity) (t : t8_dtri_t) (id : Z),
      conn_ok = true ->
      1 <= t_level t <= T8_DTRI_MAXLEVEL ->
      0 <= t_type t < T8_DTRI_NUM_TYPES ->
      t8_dtri_linear_id t (t_level t) = Some id ->
      id + 1 < T8_DTRI_CHILDREN ^ t_level t ->
      exists s,
        t8_dtri_successor t (t_level t) = Some s
        /\ t8_dtri_linear_id s (t_level t) = Some (id + 1))
  /\ (forall (q buf : p4est_quadrant_t) (l id : Z),
         1 <= l <= q_level q -> q_level q <= P4EST_QMAXLEVEL ->
         t8_default_quad_get_linear_id q l = Some id ->
         id + 1 < P4EST_CHILDREN ^ l ->
         exists s,
           t8_default_quad_successor q buf l = Some s
           /\ t8_default_quad_get_linear_id s l = Some (id + 1)).
Proof.
  split.
  - intros conn t id Hconn Hl Hty Hid Hlast.
    apply (t8_dtri_successor_linear_id Hconn); assumption.
  - intros q buf l id Hl HL Hid Hlast.
    unfold t8_default_quad_get_linear_id in Hid.
    rewrite T8_ASSERT_true in Hid by (apply range_true; lia).
    injection Hid as <-.
    apply t8_default_quad_successor_linear_id; [lia|exact Hlast].
Qed.

Lemma successor_is_sfc_step_at_own_level_witness :
  (exists s,
      t8_dtri_successor (triangle 2 0 (2 ^ 20 + 2 ^ 19) (2 ^ 19)) 2 = Some s
      /\ t8_dtri_linear_id s 2 = Some (7 + 1))
  /\ (exists s,
         t8_default_quad_successor (mk_quad (2 ^ 29) 0 2 2 0 0) (mk_quad 0 0 0 0 0 0) 1
         = Some s
         /\ t8_default_quad_get_linear_id s 1 = Some (1 + 1)).
Proof.
  split.
  - apply (proj1 successor_is_sfc_step_at_own_level t8_dtri_connectivity_2d
             (triangle 2 0 (2 ^ 20 + 2 ^ 19) (2 ^ 19)) 7).
    + vm_compute. reflexivity.
    + vm_compute. intuition congruence.
    + vm_compute. intuition congruence.
    + vm_compute. reflexivity.
    + vm_compute. reflexivity.
  - apply (proj2 successor_is_sfc_step_at_own_level
             (mk_quad (2 ^ 29) 0 2 2 0 0) (mk_quad 0 0 0 0 0 0) 1 1).
    + vm_compute. intuition congruence.
    + vm_compute. intuition congruence.
    + vm_compute. reflexivity.
    + vm_compute. reflexivity.
Defined.

(** ** The prism successor *)

Section PrismSuccessor.

Context {conn : t8_dtri_connectivity} {lineops : t8_dline_bits}.

(** The first two cases of the carry discipline.  When the triangle is not
    the last child, the triangle factor is advanced and the line factor is
    copied; when the triangle is the last child and the line is the first,
    the line factor is advanced and the triangle becomes child 0 of its
    parent. *)
Lemma t8_dprism_successor_no_compound_overflow (m : mem) (l succ : ptr) (level : Z)
  (tri_child_id line_child_id : Z) :
  t8_dtri_child_id (tri (m l)) = Some tri_child_id ->
  t8_dline_child_id (line (m l)) = Some line_child_id ->
  1 <= level <= t_level (tri (m l)) ->
  (tri_child_id <> 3 ->
   forall s, t8_dtri_successor (tri (m l)) level = Some s ->
     exists m', t8_dprism_successor m l succ level = Some m'
                /\ tri (m' succ) = s /\ line (m' succ) = line (m l))
  /\ (tri_child_id = 3 -> line_child_id = 0 ->
      forall ls p c,
        t8_dline_successor (line (m l)) (line (m succ)) level = Some ls ->
        t8_dtri_parent (tri (m l)) (tri (m succ)) = Some p ->
        t8_dtri_child p 0 p = Some c ->
        exists m', t8_dprism_successor m l succ level = Some m'
                   /\ tri (m' succ) = c /\ line (m' succ) = ls).
Proof.
  intros Ht Hline Hl.
  unfold t8_dprism_successor.
  replace (Z.to_nat level + 1)%nat with (S (Z.to_nat level)) by lia.
  cbn [t8_dprism_successor_fuel]. rewrite Ht, Hline.
  rewrite T8_ASSERT_true by (apply range_true; lia).
  assert (forall (mm : mem) v, tri (store_tri mm succ v succ) = v) as Etri.
  { intros mm v. unfold store_tri, store. rewrite Nat.eqb_refl. reflexivity. }
  assert (forall (mm : mem) v, line (store_line mm succ v succ) = v) as Eline.
  { intros mm v. unfold store_line, store. rewrite Nat.eqb_refl. reflexivity. }
  assert (forall (mm : mem) v, line (store_tri mm succ v succ) = line (mm succ)) as Etl.
  { intros mm v. unfold store_tri, store. rewrite Nat.eqb_refl. reflexivity. }
  assert (forall (mm : mem) v, tri (store_line mm succ v succ) = tri (mm succ)) as Elt.
  { intros mm v. unfold store_line, store. rewrite Nat.eqb_refl. reflexivity. }
  assert (forall (mm : mem) v, line (store_tri mm succ v l) = line (mm l)) as Etl'.
  { intros mm v. unfold store_tri, store. destruct (Nat.eqb l succ) eqn:E; [|reflexivity].
    apply Nat.eqb_eq in E. subst. reflexivity. }
  assert (forall (mm : mem) v, tri (store_line mm succ v l) = tri (mm l)) as Elt'.
  { intros mm v. unfold store_line, store. destruct (Nat.eqb l succ) eqn:E; [|reflexivity].
    apply Nat.eqb_eq in E. subst. reflexivity. }
  split.
  - intros Hne s Hs.
    destruct (Z.eqb_spec tri_child_id 3) as [|_]; [contradiction|].
    cbn [andb]. rewrite Hs.
    eexists. split; [reflexivity|]. unfold t8_dline_copy.
    rewrite ?Etri, ?Eline, ?Etl, ?Elt, ?Etl', ?Elt'. auto.
  - intros -> -> ls p c Hls Hp Hc.
    cbn [Z.eqb andb Pos.eqb]. rewrite Hls.
    rewrite ?Etri, ?Eline, ?Etl, ?Elt, ?Etl', ?Elt', Hp.
    rewrite ?Etri, ?Eline, ?Etl, ?Elt, ?Etl', ?Elt', Hc.
    eexists. split; [reflexivity|].
    rewrite ?Etri, ?Eline, ?Etl, ?Elt, ?Etl', ?Elt'. auto.
Qed.

End PrismSuccessor.

(** ** The compound overflow of the prism successor never reads the line *)

Lemma store_tri_at (m : mem) (p : ptr) (v : t8_dtri_t) :
  store_tri m p v p = mk_dprism v (line (m p)).
Proof. unfold store_tri, store. rewrite Nat.eqb_refl. reflexivity. Qed.

Lemma store_line_at (m : mem) (p : ptr) (v : t8_dline_t) :
  store_line m p v p = mk_dprism (tri (m p)) v.
Proof. unfold store_line, store. rewrite Nat.eqb_refl. reflexivity. Qed.

Ltac reads H :=
  repeat (rewrite ?store_tri_at, ?store_line_at; cbn [tri line]);
  rewrite <- ?H.

Ltac lockstep H :=
  reads H;
  match goal with
  | |- agree_at _ (match ?a with Some _ => _ | None => None end)
                  (match ?a with Some _ => _ | None => None end) =>
      destruct a; [|exact I]
  | |- agree_at _ (T8_ASSERT ?c _) (T8_ASSERT ?c _) =>
      destruct c; cbn [T8_ASSERT]; [|exact I]
  | |- agree_at _ (if ?c then _ else _) (if ?c then _ else _) => destruct c
  | |- agree_at _ (Some _) (Some _) =>
      unfold agree_at; reads H; reflexivity
  end.

Section PrismLocal.

Context {conn : t8_dtri_connectivity} {lineops : t8_dline_bits}.

(** a call with [l] and [succ] pointing to the same prism depends on that
    prism only *)
Lemma t8_dprism_successor_in_place_local (fuel : nat) :
  forall (m m' : mem) (p : ptr) (level : Z),
    m p = m' p ->
    agree_at p (t8_dprism_successor_fuel fuel m p p level)
               (t8_dprism_successor_fuel fuel m' p p level).
Proof.
  induction fuel as [|fuel IH]; intros m m' p level H; [exact I|].
  cbn [t8_dprism_successor_fuel]. cbv zeta.
  repeat lockstep H.
  (* what is left is the recursion *)
  - reads H.
    match goal with
    | |- agree_at _ (match t8_dprism_successor_fuel _ ?M _ _ _ with _ => _ end)
                    (match t8_dprism_successor_fuel _ ?M' _ _ _ with _ => _ end) =>
        pose proof (IH M M' p (level - 1)) as HR;
        destruct (t8_dprism_successor_fuel fuel M p p (level - 1)) as [r|];
        destruct (t8_dprism_successor_fuel fuel M' p p (level - 1)) as [r'|]
    end; cbn [agree_at] in HR |- *;
      try (apply HR; reads H; reflexivity).
    specialize (HR ltac:(reads H; reflexivity)).
    reads HR. rewrite HR. reflexivity.
Qed.

(** In the compound overflow whose recursion is taken, the result does
    not depend on the line of the input prism beyond its child id: two
    inputs with the same triangle get the same successor, whatever line
    kernel is used. *)
Lemma t8_dprism_successor_ignores_line (m m' : mem) (l succ : ptr) (level : Z) :
  l <> succ ->
  tri (m l) = tri (m' l) ->
  m succ = m' succ ->
  t8_dtri_child_id (tri (m l)) = Some 3 ->
  t8_dline_child_id (line (m l)) = Some 1 ->
  t8_dline_child_id (line (m' l)) = Some 1 ->
  (p <- t8_dtri_parent (tri (m l)) (tri (m succ)) ;; t8_dtri_child_id p) = Some 3 ->
  agree_at succ (t8_dprism_successor m l succ level)
                (t8_dprism_successor m' l succ level).
Proof.
  intros Hne Htri Hsucc Hid Hline Hline' Hparent.
  unfold t8_dprism_successor.
  replace (Z.to_nat level + 1)%nat with (S (Z.to_nat level)) by lia.
  cbn [t8_dprism_successor_fuel]. cbv zeta.
  rewrite <- Htri, <- Hsucc, Hid, Hline, Hline'.
  change ((3 =? 3) && (1 =? 1)) with true. cbv iota.
  destruct ((1 <=? level) && (level <=? t_level (tri (m l))));
    cbn [T8_ASSERT]; [|exact I].
  destruct (t8_dtri_parent (tri (m l)) (tri (m succ))) as [p|]; [|discriminate].
  rewrite ?store_tri_at. cbn [tri line]. rewrite Hparent.
  change (3 =? 3) with true. cbv iota.
  match goal with
  | |- agree_at _ (match t8_dprism_successor_fuel _ ?M _ _ _ with _ => _ end)
                  (match t8_dprism_successor_fuel _ ?M' _ _ _ with _ => _ end) =>
      pose proof (t8_dprism_successor_in_place_local (Z.to_nat level) M M' succ
                    (level - 1)) as HR;
      destruct (t8_dprism_successor_fuel (Z.to_nat level) M succ succ (level - 1))
        as [r|];
      destruct (t8_dprism_successor_fuel (Z.to_nat level) M' succ succ (level - 1))
        as [r'|]
  end; cbn [agree_at] in HR |- *;
    try (apply HR; reads Hsucc; reflexivity).
  specialize (HR ltac:(reads Hsucc; reflexivity)).
  reads HR. rewrite HR. reflexivity.
Qed.

End PrismLocal.

Lemma t8_dprism_successor_ignores_line_example :
  agree_at 1%nat
    (t8_dprism_successor
       (two_cells (prism 3 0 (2 ^ 19 + 2 ^ 18) (2 ^ 19 + 2 ^ 18) (2 ^ 19 + 2 ^ 18))
          (prism 0 0 0 0 0)) 0%nat 1%nat 3)
    (t8_dprism_successor
       (two_cells (prism 3 0 (2 ^ 19 + 2 ^ 18) (2 ^ 19 + 2 ^ 18) (2 ^ 18))
          (prism 0 0 0 0 0)) 0%nat 1%nat 3).
Proof.
  apply t8_dprism_successor_ignores_line;
    try reflexivity; discriminate.
Qed.

(** C7. The compound overflow does not ascend in the line factor.  The
    level-3 prism [p] below has triangle child id 3 and line child id 1, and
    the parent of its triangle is a last child again.  With a zeroed output
    prism, [t8_dprism_successor (p, succ, 3)] returns [r], whose triangle
    has the anchor (0,0).  The successor of the parent of [p] at level 2 has
    a triangle with anchor (2^20, 0), so [r] is none of its eight children.
    And [r] is also what the call returns for the different prism [p'],
    which has the same triangle and line child id but another line
    coordinate: the line coordinate of the input is never read. *)
Theorem t8_dprism_successor_compound_overflow_skips_line :
  let p := prism 3 0 (2 ^ 19 + 2 ^ 18) (2 ^ 19 + 2 ^ 18) (2 ^ 19 + 2 ^ 18) in
  let p' := prism 3 0 (2 ^ 19 + 2 ^ 18) (2 ^ 19 + 2 ^ 18) (2 ^ 18) in
  let zero := prism 0 0 0 0 0 in
  let r := prism 3 0 0 0 (2 ^ 19) in
  let succ_parent := prism 2 0 (2 ^ 20) 0 0 in
  t8_dtri_child_id (tri p) = Some 3
  /\ t8_dline_child_id (line p) = Some 1
  /\ option_map (fun m => m 1%nat) (t8_dprism_successor (two_cells p zero) 0%nat 1%nat 3)
     = Some r
  /\ (exists pp m,
         t8_dprism_parent p zero = Some pp
         /\ t8_dprism_successor (two_cells pp zero) 0%nat 1%nat 2 = Some m
         /\ m 1%nat = succ_parent)
  /\ Forall (fun k => t8_dprism_child succ_parent k zero <> Some r)
       [0; 1; 2; 3; 4; 5; 6; 7]
  /\ option_map (fun m => m 1%nat) (t8_dprism_successor (two_cells p' zero) 0%nat 1%nat 3)
     = Some r.
Proof.
  cbv zeta.
  split; [reflexivity|]. split; [reflexivity|].
  split; [vm_compute; reflexivity|].
  split.
  { do 2 eexists. split; [vm_compute; reflexivity|].
    split; vm_compute; reflexivity. }
  split; [|vm_compute; reflexivity].
  repeat constructor; vm_compute; discriminate.
Qed.

(** * Further properties of the kernels *)

(** ** Arrays, loops and bits *)

Lemma arr_set_length {A : Type} (a : list A) :
  forall i v, length (arr_set a i v) = length a.
Proof.
  induction a as [|w a IH]; intros [|i] v; cbn [arr_set length]; auto.
Qed.

Lemma nth_arr_set {A : Type} (a : list A) (d : A) :
  forall i j v,
    nth j (arr_set a i v) d
    = if Nat.eqb j i && Nat.ltb i (length a) then v else nth j a d.
Proof.
  induction a as [|w a IH]; intros i j v.
  - destruct i, j; cbn [arr_set nth length]; rewrite ?andb_false_r; reflexivity.
  - destruct i as [|i], j as [|j]; cbn [arr_set nth length]; try reflexivity.
    rewrite IH. reflexivity.
Qed.

(** a loop that updates the cells [i0 .. i0 + n - 1] of an array in place *)
Lemma for_up_arr_set {A : Type} (f : Z -> A -> A) (d : A) (n : nat) :
  forall (i0 : Z) (c : list A),
    0 <= i0 ->
    exists c',
      for_up n i0
        (fun i c => Some (arr_set c (Z.to_nat i) (f i (nth (Z.to_nat i) c d)))) c
      = Some c'
      /\ length c' = length c
      /\ forall j : nat,
           nth j c' d
           = if (Z.to_nat i0 <=? j)%nat && (j <? Z.to_nat i0 + n)%nat
                && (j <? length c)%nat
             then f (Z.of_nat j) (nth j c d) else nth j c d.
Proof.
  induction n as [|n IH]; intros i0 c Hi.
  - exists c. split; [reflexivity|]. split; [reflexivity|]. intros j.
    replace (j <? Z.to_nat i0 + 0)%nat with (j <? Z.to_nat i0)%nat
      by (f_equal; lia).
    destruct (Nat.leb_spec (Z.to_nat i0) j), (Nat.ltb_spec j (Z.to_nat i0));
      try lia; reflexivity.
  - cbn [for_up].
    destruct (IH (i0 + 1) (arr_set c (Z.to_nat i0) (f i0 (nth (Z.to_nat i0) c d)))
                ltac:(lia)) as (c' & E & L & H).
    exists c'. split; [exact E|]. rewrite arr_set_length in L. split; [exact L|].
    intros j. rewrite H, arr_set_length, nth_arr_set.
    destruct (Nat.leb_spec (Z.to_nat (i0 + 1)) j),
      (Nat.ltb_spec j (Z.to_nat (i0 + 1) + n)),
      (Nat.leb_spec (Z.to_nat i0) j),
      (Nat.ltb_spec j (Z.to_nat i0 + S n)),
      (Nat.ltb_spec j (length c)),
      (Nat.eqb_spec j (Z.to_nat i0)),
      (Nat.ltb_spec (Z.to_nat i0) (length c));
      cbn [andb]; try lia; try reflexivity.
    subst j. rewrite Z2Nat.id by lia. reflexivity.
Qed.

Lemma loop_up_app {S : Type} (body : Z -> S -> S) (a b : nat) :
  forall i s,
    loop_up (a + b) i body s = loop_up b (i + Z.of_nat a) body (loop_up a i body s).
Proof.
  induction a as [|a IH]; intros i s.
  - cbn [loop_up Nat.add]. rewrite Z.add_0_r. reflexivity.
  - cbn [loop_up Nat.add]. rewrite IH. f_equal. lia.
Qed.

Lemma loop_up_invariant {S : Type} (P : S -> Prop) (body : Z -> S -> S) (n : nat) :
  forall i s,
    (forall j s', i <= j < i + Z.of_nat n -> P s' -> P (body j s')) ->
    P s -> P (loop_up n i body s).
Proof.
  induction n as [|n IH]; intros i s H Hs; [exact Hs|].
  cbn [loop_up]. apply IH.
  - intros j s' Hj. apply H. lia.
  - apply H; [lia|exact Hs].
Qed.

(** two coordinates agree outside the bit [h] *)
Lemma land_lnot_lxor (a b h : Z) :
  (Z.land (Z.lxor a b) (Z.lnot h) =? 0) = (Z.land a (Z.lnot h) =? Z.land b (Z.lnot h)).
Proof.
  assert (Z.land (Z.lxor a b) (Z.lnot h)
          = Z.lxor (Z.land a (Z.lnot h)) (Z.land b (Z.lnot h))) as ->.
  { apply Z.bits_inj'. intros j Hj.
    rewrite !Z.land_spec, !Z.lxor_spec, !Z.land_spec.
    destruct (Z.testbit a j), (Z.testbit b j), (Z.testbit (Z.lnot h) j); reflexivity. }
  destruct (Z.eqb_spec (Z.land a (Z.lnot h)) (Z.land b (Z.lnot h))) as [E|E].
  - rewrite E, Z.lxor_nilpotent. reflexivity.
  - apply Z.eqb_neq. intros H. apply Z.lxor_eq in H. contradiction.
Qed.

(** adding the bit of a level to a coordinate aligned to the level above *)
Lemma add_level_bit (x p a : Z) :
  0 <= p -> x mod 2 ^ (p + 1) = 0 -> a = 0 \/ a = 1 ->
  Z.testbit (x + a * 2 ^ p) p = (a =? 1)
  /\ Z.land (x + a * 2 ^ p) (Z.lnot (Z.shiftl 1 p)) = x.
Proof.
  intros Hp Hx Ha.
  assert (0 < 2 ^ p) as Hpos by (apply Z.pow_pos_nonneg; lia).
  pose proof (Z.div_mod x (2 ^ (p + 1)) ltac:(apply Z.pow_nonzero; lia)) as D.
  rewrite Hx, Z.add_0_r in D. set (q := x / 2 ^ (p + 1)) in *.
  rewrite Z.pow_add_r in D by lia. change (2 ^ 1) with 2 in D.
  assert (Z.testbit x p = false) as Bx.
  { rewrite Z.testbit_odd, Z.shiftr_div_pow2 by lia.
    replace x with (2 * q * 2 ^ p) by lia. rewrite Z.div_mul by lia.
    rewrite Z.odd_mul. reflexivity. }
  assert (x + a * 2 ^ p = Z.lor (a * 2 ^ p) (Z.shiftl q (p + 1))) as E.
  { rewrite lor_digit_shiftl.
    - rewrite Z.pow_add_r by lia. change (2 ^ 1) with 2. lia.
    - lia.
    - rewrite Z.pow_add_r by lia. change (2 ^ 1) with 2. destruct Ha; subst a; lia. }
  assert (x = Z.shiftl q (p + 1)) as Ex.
  { rewrite Z.shiftl_mul_pow2, Z.pow_add_r by lia. change (2 ^ 1) with 2. lia. }
  split.
  - rewrite E, Z.lor_spec, <- Ex, Bx, orb_false_r.
    destruct Ha; subst a.
    + rewrite Z.mul_0_l, Z.bits_0. reflexivity.
    + rewrite Z.mul_1_l, Z.pow2_bits_true by lia. reflexivity.
  - apply Z.bits_inj'. intros j Hj.
    rewrite clear_bit_spec by lia.
    rewrite E, Z.lor_spec, <- Ex.
    destruct (Z.eqb_spec j p) as [->|N].
    + rewrite Bx. apply andb_false_r.
    + rewrite andb_true_r.
      destruct Ha; subst a.
      * rewrite Z.mul_0_l, Z.bits_0. reflexivity.
      * rewrite Z.mul_1_l, Z.pow2_bits_false by lia. reflexivity.
Qed.

(** a coordinate splits into the corner of its square and the offset *)
Lemma square_corner_offset (v s : Z) :
  0 <= s ->
  Z.land v (Z.lnot (2 ^ s - 1)) = 2 ^ s * (v / 2 ^ s)
  /\ Z.land v (2 ^ s - 1) = v mod 2 ^ s.
Proof.
  intros Hs. split; [|apply land_children_m1; exact Hs].
  replace (2 ^ s - 1) with (Z.ones s) by (rewrite Z.ones_equiv; lia).
  rewrite <- Z.ldiff_land, Z.ldiff_ones_r by lia.
  rewrite Z.shiftr_div_pow2, Z.shiftl_mul_pow2 by lia. lia.
Qed.

Lemma shiftr_lxor_eq_0 (a b s : Z) :
  0 <= s -> (Z.shiftr (Z.lxor a b) s =? 0) = (a / 2 ^ s =? b / 2 ^ s).
Proof.
  intros Hs. rewrite Z.shiftr_lxor, !Z.shiftr_div_pow2 by lia.
  destruct (Z.eqb_spec (a / 2 ^ s) (b / 2 ^ s)) as [E|E].
  - rewrite E, Z.lxor_nilpotent. reflexivity.
  - apply Z.eqb_neq. intros H. apply Z.lxor_eq in H. contradiction.
Qed.

Lemma bits_of_levels_coord_ok (v k : Z) :
  0 <= k <= T8_DTRI_MAXLEVEL -> bits_of_levels v k -> coord_ok k v.
Proof.
  intros Hk H.
  assert (v = v mod 2 ^ T8_DTRI_MAXLEVEL) as E.
  { apply Z.bits_inj'. intros j Hj.
    destruct (Z.ltb_spec j T8_DTRI_MAXLEVEL).
    - rewrite Z.mod_pow2_bits_low by lia. reflexivity.
    - rewrite Z.mod_pow2_bits_high by (unfold T8_DTRI_MAXLEVEL in *; lia).
      destruct (Z.testbit v j) eqn:B; [|reflexivity].
      apply H in B; lia. }
  split.
  - unfold T8_DTRI_ROOT_LEN. rewrite Z.shiftl_1_l, E.
    apply Z.mod_pos_bound. apply Z.pow_pos_nonneg; unfold T8_DTRI_MAXLEVEL; lia.
  - rewrite T8_DTRI_LEN_pow2 by lia.
    apply Z.bits_inj'. intros j Hj. rewrite Z.bits_0.
    destruct (Z.ltb_spec j (T8_DTRI_MAXLEVEL - k)).
    + rewrite Z.mod_pow2_bits_low by lia.
      destruct (Z.testbit v j) eqn:B; [|reflexivity].
      apply H in B; lia.
    + apply Z.mod_pow2_bits_high. lia.
Qed.

Lemma diag_type_step (bx by' X Y ty : Z) :
  (bx = 0 \/ bx = 1) -> (by' = 0 \/ by' = 1) ->
  diag_type (bx + 2 * X) (by' + 2 * Y) ty = diag_type X Y (diag_type bx by' ty).
Proof.
  intros Hx Hy. unfold diag_type.
  destruct Hx, Hy; subst;
    repeat match goal with
           | |- context [?a <? ?b] => destruct (Z.ltb_spec a b)
           end; try lia; reflexivity.
Qed.

Lemma level_digits_step (v i : Z) (n : nat) :
  i <= T8_DTRI_MAXLEVEL ->
  level_digits v i (S n)
  = b2z (Z.testbit v (T8_DTRI_MAXLEVEL - i)) + 2 * level_digits v (i - 1) n.
Proof.
  intros Hi. unfold level_digits.
  rewrite (shiftr_step v (T8_DTRI_MAXLEVEL - i)) by lia.
  replace (T8_DTRI_MAXLEVEL - i + 1) with (T8_DTRI_MAXLEVEL - (i - 1)) by lia.
  set (A := Z.shiftr v (T8_DTRI_MAXLEVEL - (i - 1))).
  set (b := b2z (Z.testbit v (T8_DTRI_MAXLEVEL - i))).
  assert (b = 0 \/ b = 1) as Hb by (subst b; destruct (Z.testbit _ _); cbn; auto).
  rewrite Nat2Z.inj_succ, Z.pow_succ_r by lia.
  assert (0 < 2 ^ Z.of_nat n) as Hp by (apply Z.pow_pos_nonneg; lia).
  pose proof (Z.div_mod A (2 ^ Z.of_nat n) ltac:(lia)) as D.
  pose proof (Z.mod_pos_bound A (2 ^ Z.of_nat n) Hp) as B.
  symmetry. apply Z.mod_unique with (q := A / 2 ^ Z.of_nat n); [left; lia|].
  lia.
Qed.

(** ** The tests [t8_dtri_is_parent] and [t8_dtri_is_sibling] *)

Section KernelTests.

Context {conn : t8_dtri_connectivity}.

(** X1. For every element [c] above the root, [t8_dtri_is_parent (t, c)]
    returns true exactly when [t] has the level, the type and the anchor of
    the element [t8_dtri_parent] computes from [c]. *)
Theorem t8_dtri_is_parent_iff_parent (t c buf : t8_dtri_t) :
  0 < t_level c <= T8_DTRI_MAXLEVEL ->
  exists p b,
    t8_dtri_parent c buf = Some p
    /\ t8_dtri_is_parent t c = Some b
    /\ (b = true <-> same_element p t).
Proof.
  intros Hl. unfold t8_dtri_parent, t8_dtri_is_parent.
  rewrite T8_ASSERT_true by (apply Z.ltb_lt; lia).
  rewrite compute_cubeid_eq by lia.
  do 2 eexists. split; [reflexivity|]. split; [reflexivity|].
  unfold same_element, ifdef_dtet.
  destruct T8_DTRI_TO_DTET;
    cbn [t_level t_type t_x t_y t_z set_level set_type set_x set_y set_z set_eclass];
    rewrite !andb_true_iff, !Z.eqb_eq; intuition (try lia; try congruence).
Qed.

(** X2. For two elements above the root, [t8_dtri_is_sibling] returns true
    exactly when [t8_dtri_parent] computes the same element (level, type,
    anchor) from both. *)
Theorem t8_dtri_is_sibling_iff_same_parent (t1 t2 b1 b2 : t8_dtri_t) :
  0 < t_level t1 <= T8_DTRI_MAXLEVEL ->
  0 < t_level t2 <= T8_DTRI_MAXLEVEL ->
  exists p1 p2 b,
    t8_dtri_parent t1 b1 = Some p1
    /\ t8_dtri_parent t2 b2 = Some p2
    /\ t8_dtri_is_sibling t1 t2 = Some b
    /\ (b = true <-> same_element p1 p2).
Proof.
  intros H1 H2. unfold t8_dtri_parent, t8_dtri_is_sibling.
  rewrite !T8_ASSERT_true by (apply Z.ltb_lt; lia).
  rewrite !compute_cubeid_eq by lia.
  destruct (Z.eqb_spec (t_level t1) 0) as [|_]; [lia|].
  do 3 eexists. split; [reflexivity|]. split; [reflexivity|]. split; [reflexivity|].
  unfold same_element, ifdef_dtet.
  rewrite !land_lnot_lxor.
  destruct T8_DTRI_TO_DTET;
    cbn [t_level t_type t_x t_y t_z set_level set_type set_x set_y set_z set_eclass];
    rewrite !andb_true_iff, !Z.eqb_eq.
  - split.
    + intros ((((E1 & E2) & E3) & E4) & E5). rewrite <- E1 in E5 |- *. auto.
    + intros (E1 & E2 & E3 & E4 & E5). assert (t_level t1 = t_level t2) as E by lia.
      rewrite <- E in E2, E3, E4, E5 |- *. auto.
  - split.
    + intros ((((E1 & E2) & E3) & E4) & E5). rewrite <- E1 in E5 |- *.
      repeat split; try assumption. discriminate.
    + intros (E1 & E2 & E3 & E4 & E5). assert (t_level t1 = t_level t2) as E by lia.
      rewrite <- E in E2, E3, E4 |- *. auto.
Qed.

(** ** [t8_dtri_face_neighbour] *)

(** X3. For an element in the root cube, the neighbour across a face has
    the level of the element and another type, and the neighbour of the
    neighbour across the returned face is the element again, with the face
    number the walk started from. *)
Theorem t8_dtri_face_neighbour_involution (t b1 b2 : t8_dtri_t) (face : Z) :
  in_root_cube t ->
  0 <= t_type t < T8_DTRI_NUM_TYPES ->
  0 <= face < T8_DTRI_FACES ->
  exists n f t',
    t8_dtri_face_neighbour t face b1 = Some (n, f)
    /\ t_level n = t_level t
    /\ 0 <= t_type n < T8_DTRI_NUM_TYPES
    /\ t_type n <> t_type t
    /\ t8_dtri_face_neighbour n f b2 = Some (t', face)
    /\ same_element t' t.
Proof.
  intros _. destruct t as [lv ty x y z nn ec].
  unfold t8_dtri_face_neighbour, same_element, ifdef_dtet, T8_DTRI_NUM_TYPES,
    T8_DTRI_FACES.
  cbn [t_level t_type t_x t_y t_z].
  destruct T8_DTRI_TO_DTET; intros Hty Hf.
  - assert (ty = 0 \/ ty = 1 \/ ty = 2 \/ ty = 3 \/ ty = 4 \/ ty = 5) as Hc by lia.
    assert (face = 0 \/ face = 1 \/ face = 2 \/ face = 3) as Hfc by lia.
    decompose [or] Hc; decompose [or] Hfc; subst ty face; simpl;
      do 3 eexists; (split; [reflexivity|]); simpl;
      repeat split; try lia; try discriminate; unfold tab1; simpl; lia.
  - assert (ty = 0 \/ ty = 1) as Hc by lia.
    assert (face = 0 \/ face = 1 \/ face = 2) as Hfc by lia.
    decompose [or] Hc; decompose [or] Hfc; subst ty face; simpl;
      do 3 eexists; (split; [reflexivity|]); simpl;
      repeat split; try lia; try discriminate; unfold tab1; simpl; lia.
Qed.

(** ** The vertices and the children *)

(** row [vertex] of [t8_dtri_compute_all_coords] *)
Lemma compute_all_coords_row (t : t8_dtri_t) (vertex : Z) :
  0 <= t_type t < T8_DTRI_NUM_TYPES ->
  0 <= vertex < T8_DTRI_FACES ->
  t8_dtri_compute_coords t vertex
  = Some (nth (Z.to_nat vertex) (t8_dtri_compute_all_coords t) []).
Proof.
  destruct t as [lv ty x y z nn ec].
  unfold t8_dtri_compute_coords, t8_dtri_compute_all_coords,
    T8_DTRI_NUM_TYPES, T8_DTRI_FACES.
  cbn [t_level t_type t_x t_y t_z].
  generalize (T8_DTRI_LEN lv). intros h.
  destruct T8_DTRI_TO_DTET; intros Hty Hv.
  - assert (ty = 0 \/ ty = 1 \/ ty = 2 \/ ty = 3 \/ ty = 4 \/ ty = 5) as Hc by lia.
    assert (vertex = 0 \/ vertex = 1 \/ vertex = 2 \/ vertex = 3) as Hvc by lia.
    decompose [or] Hc; decompose [or] Hvc; subst ty vertex; reflexivity.
  - assert (ty = 0 \/ ty = 1) as Hc by lia.
    assert (vertex = 0 \/ vertex = 1 \/ vertex = 2) as Hvc by lia.
    decompose [or] Hc; decompose [or] Hvc; subst ty vertex; reflexivity.
Qed.

(** X4. [t8_dtri_compute_all_coords] and [t8_dtri_compute_coords] agree:
    for an element in the root cube, every type and every vertex of the
    simplex, row [vertex] of the one is the result of the other. *)
Theorem t8_dtri_compute_all_coords_rows (t : t8_dtri_t) (vertex : Z) :
  in_root_cube t ->
  0 <= t_type t < T8_DTRI_NUM_TYPES ->
  0 <= vertex < T8_DTRI_FACES ->
  t8_dtri_compute_coords t vertex
  = Some (nth (Z.to_nat vertex) (t8_dtri_compute_all_coords t) []).
Proof. intros _. apply compute_all_coords_row. Qed.

End KernelTests.

Section Children.

Context {conn : t8_dtri_connectivity}.

Lemma bey_ok_spec :
  bey_ok = true ->
  forall ty i, 0 <= ty < T8_DTRI_NUM_TYPES -> 0 <= i < T8_DTRI_CHILDREN ->
    t8_dtri_index_to_bey_number ty 0 = 0
    /\ t8_dtri_type_of_child ty 0 = ty
    /\ 0 <= t8_dtri_beyid_to_vertex (t8_dtri_index_to_bey_number ty i) < T8_DTRI_FACES
    /\ (t8_dtri_index_to_bey_number ty i = 0 ->
        t8_dtri_beyid_to_vertex (t8_dtri_index_to_bey_number ty i) = 0).
Proof.
  intros H ty i Hty Hi. unfold bey_ok in H.
  apply forall_range_spec with (i := ty) in H; [|exact Hty].
  apply andb_true_iff in H. destruct H as [H H3].
  apply andb_true_iff in H. destruct H as [H1 H2].
  apply forall_range_spec with (i := i) in H3; [|exact Hi]. cbv zeta in H3.
  apply andb_true_iff in H3. destruct H3 as [H3 H5].
  apply andb_true_iff in H3. destruct H3 as [H3 H4].
  apply Z.eqb_eq in H1, H2. apply Z.leb_le in H3. apply Z.ltb_lt in H4.
  repeat split; try assumption.
  intros E. rewrite E in H5. rewrite Z.eqb_refl in H5. apply Z.eqb_eq in H5.
  rewrite E. exact H5.
Qed.

Lemma compute_all_coords_row0 (t : t8_dtri_t) :
  nth 0 (t8_dtri_compute_all_coords t) []
  = if T8_DTRI_TO_DTET then [t_x t; t_y t; t_z t] else [t_x t; t_y t].
Proof. unfold t8_dtri_compute_all_coords. destruct T8_DTRI_TO_DTET; reflexivity. Qed.

(** X5. [t8_dtri_childrenpv] computes the children [t8_dtri_child] computes:
    for an element in the root cube below the deepest level, with Bey tables
    that map the child 0 and the vertices as the function takes for granted
    ([bey_ok]), cell [i] of the array holds afterwards what
    [t8_dtri_child (t, i)] writes into that cell. *)
Theorem t8_dtri_childrenpv_child (t : t8_dtri_t) (c : list t8_dtri_t) :
  bey_ok = true ->
  in_root_cube t ->
  0 <= t_type t < T8_DTRI_NUM_TYPES ->
  t_level t < T8_DTRI_MAXLEVEL ->
  length c = Z.to_nat T8_DTRI_CHILDREN ->
  exists cs,
    t8_dtri_childrenpv t c = Some cs
    /\ length cs = length c
    /\ forall i, 0 <= i < T8_DTRI_CHILDREN ->
         t8_dtri_child t i (nth (Z.to_nat i) c t) = Some (nth (Z.to_nat i) cs t).
Proof.
  intros Hbey _ Hty Hl Hlen.
  assert (4 <= T8_DTRI_CHILDREN) as HC.
  { unfold T8_DTRI_CHILDREN. destruct T8_DTRI_TO_DTET; lia. }
  unfold t8_dtri_childrenpv.
  rewrite T8_ASSERT_true by (apply Z.ltb_lt; lia). cbv zeta.
  match goal with
  | |- context [for_up ?n 1 ?body ?c0] =>
      set (c1 := c0);
      destruct (for_up_arr_set
                  (fun i ci =>
                     let Bey_cid := t8_dtri_index_to_bey_number (t_type t) i in
                     let vertex := t8_dtri_beyid_to_vertex Bey_cid in
                     let row := nth (Z.to_nat vertex) (t8_dtri_compute_all_coords t) [] in
                     let ci := set_x ci (Z.shiftr (t_x t + tab1 row 0) 1) in
                     let ci := set_y ci (Z.shiftr (t_y t + tab1 row 1) 1) in
                     let ci := ifdef_dtet
                                 (fun ci => set_z ci (Z.shiftr (t_z t + tab1 row 2) 1)) ci in
                     let ci := set_type ci (t8_dtri_type_of_child (t_type t) Bey_cid) in
                     set_level ci (t_level t + 1))
                  t n 1 c1 ltac:(lia)) as (cs & E & L & H)
  end.
  cbv zeta in E. exists cs. split; [exact E|].
  subst c1. rewrite arr_set_length in L. split; [exact L|].
  intros i Hi. rewrite H. clear H E.
  rewrite arr_set_length, nth_arr_set.
  destruct (bey_ok_spec Hbey (t_type t) i Hty Hi) as (B0 & T0 & Hv & Hv0).
  unfold t8_dtri_child. cbv zeta.
  rewrite T8_ASSERT_true by (apply Z.ltb_lt; lia).
  rewrite T8_ASSERT_true
    by (apply andb_true_intro; split; [apply Z.leb_le|apply Z.ltb_lt]; lia).
  destruct (Z.eq_dec i 0) as [->|Hi0].
  - (* the first child *)
    change (Z.to_nat 0) with 0%nat. change (Z.to_nat 1) with 1%nat.
    cbn [Nat.leb Nat.eqb andb].
    destruct (Nat.ltb_spec 0 (length c)) as [_|]; [|lia]. cbv iota.
    rewrite B0, Z.eqb_refl, T0. reflexivity.
  - destruct (Nat.leb_spec (Z.to_nat 1) (Z.to_nat i)) as [_|]; [|lia].
    destruct (Nat.ltb_spec (Z.to_nat i) (Z.to_nat 1 + Z.to_nat (T8_DTRI_CHILDREN - 1)))
      as [_|]; [|lia].
    destruct (Nat.ltb_spec (Z.to_nat i) (length c)) as [_|]; [|lia].
    destruct (Nat.eqb_spec (Z.to_nat i) 0) as [|_]; [lia|].
    cbn [andb]. rewrite Z2Nat.id by lia.
    destruct (Z.eqb_spec (t8_dtri_index_to_bey_number (t_type t) i) 0) as [E0|E0].
    + rewrite (Hv0 E0). change (Z.to_nat 0) with 0%nat.
      rewrite compute_all_coords_row0.
      unfold ifdef_dtet. destruct T8_DTRI_TO_DTET;
        cbn [tab1 nth Z.to_nat]; rewrite !shiftr_double; reflexivity.
    + rewrite compute_all_coords_row by assumption. reflexivity.
Qed.

(** The vertices of a simplex are its anchor plus the vertices of the
    simplex of edge length 1 at the origin, scaled by the length. *)
Lemma t8_dtri_compute_coords_scaled (t : t8_dtri_t) (vertex : Z) :
  0 <= t_type t < T8_DTRI_NUM_TYPES -> 0 <= vertex < T8_DTRI_FACES ->
  exists c u,
    t8_dtri_compute_coords t vertex = Some c
    /\ t8_dtri_compute_coords (mk_dtri T8_DTRI_MAXLEVEL (t_type t) 0 0 0 0 0) vertex
       = Some u
    /\ (tab1 u 0 = 0 \/ tab1 u 0 = 1) /\ (tab1 u 1 = 0 \/ tab1 u 1 = 1)
    /\ (tab1 u 2 = 0 \/ tab1 u 2 = 1)
    /\ (T8_DTRI_TO_DTET = false -> tab1 u 2 = 0)
    /\ tab1 c 0 = t_x t + T8_DTRI_LEN (t_level t) * tab1 u 0
    /\ tab1 c 1 = t_y t + T8_DTRI_LEN (t_level t) * tab1 u 1
    /\ (T8_DTRI_TO_DTET = true ->
        tab1 c 2 = t_z t + T8_DTRI_LEN (t_level t) * tab1 u 2).
Proof.
  destruct t as [lv ty x y z nn ec].
  unfold t8_dtri_compute_coords, T8_DTRI_NUM_TYPES, T8_DTRI_FACES.
  cbn [t_level t_type t_x t_y t_z].
  change (T8_DTRI_LEN T8_DTRI_MAXLEVEL) with 1.
  generalize (T8_DTRI_LEN lv). intros h.
  destruct T8_DTRI_TO_DTET; intros Hty Hv.
  - assert (ty = 0 \/ ty = 1 \/ ty = 2 \/ ty = 3 \/ ty = 4 \/ ty = 5) as Hc by lia.
    assert (vertex = 0 \/ vertex = 1 \/ vertex = 2 \/ vertex = 3) as Hvc by lia.
    decompose [or] Hc; decompose [or] Hvc; subst ty vertex;
      do 2 eexists; (split; [reflexivity|]); (split; [reflexivity|]);
      simpl; repeat split; auto; intros; try discriminate; unfold tab1; simpl; lia.
  - assert (ty = 0 \/ ty = 1) as Hc by lia.
    assert (vertex = 0 \/ vertex = 1 \/ vertex = 2) as Hvc by lia.
    decompose [or] Hc; decompose [or] Hvc; subst ty vertex;
      do 2 eexists; (split; [reflexivity|]); (split; [reflexivity|]);
      simpl; repeat split; auto; intros; try discriminate; unfold tab1; simpl; lia.
Qed.

Lemma child_ok_spec :
  child_ok = true ->
  forall ty k, 0 <= ty < T8_DTRI_NUM_TYPES -> 0 <= k < T8_DTRI_CHILDREN ->
    exists cid,
      child_cubeid ty k = Some cid
      /\ 0 <= t8_dtri_type_of_child ty (t8_dtri_index_to_bey_number ty k)
         < T8_DTRI_NUM_TYPES
      /\ t8_dtri_cid_type_to_parenttype cid
           (t8_dtri_type_of_child ty (t8_dtri_index_to_bey_number ty k)) = ty
      /\ t8_dtri_type_cid_to_Iloc
           (t8_dtri_type_of_child ty (t8_dtri_index_to_bey_number ty k)) cid = k.
Proof.
  intros H ty k Hty Hk. unfold child_ok in H.
  apply forall_range_spec with (i := ty) in H; [|exact Hty].
  apply forall_range_spec with (i := k) in H; [|exact Hk].
  destruct (child_cubeid ty k) as [cid|]; [|discriminate].
  exists cid. cbv zeta in H.
  repeat (apply andb_true_iff in H; destruct H as [H ?]).
  repeat match goal with
         | H : (_ <=? _) = true |- _ => apply Z.leb_le in H
         | H : (_ <? _) = true |- _ => apply Z.ltb_lt in H
         | H : (_ =? _) = true |- _ => apply Z.eqb_eq in H
         end.
  repeat split; assumption.
Qed.

(** The anchor of a child: each coordinate of the parent plus 0 or 1 times
    the length of the child, as the cube-id of the child says. *)
Lemma t8_dtri_child_anchor (t buf : t8_dtri_t) (k cid : Z) :
  0 <= t_level t < T8_DTRI_MAXLEVEL -> 0 <= t_type t < T8_DTRI_NUM_TYPES ->
  0 <= k < T8_DTRI_CHILDREN ->
  child_cubeid (t_type t) k = Some cid ->
  let p := T8_DTRI_MAXLEVEL - (t_level t + 1) in
  exists c a0 a1 a2,
    t8_dtri_child t k buf = Some c
    /\ t_level c = t_level t + 1
    /\ t_type c
       = t8_dtri_type_of_child (t_type t) (t8_dtri_index_to_bey_number (t_type t) k)
    /\ (a0 = 0 \/ a0 = 1) /\ (a1 = 0 \/ a1 = 1) /\ (a2 = 0 \/ a2 = 1)
    /\ (T8_DTRI_TO_DTET = false -> a2 = 0)
    /\ cid = a0 + 2 * a1 + 4 * a2
    /\ t_x c = t_x t + a0 * 2 ^ p
    /\ t_y c = t_y t + a1 * 2 ^ p
    /\ (T8_DTRI_TO_DTET = true -> t_z c = t_z t + a2 * 2 ^ p).
Proof.
  intros Hl Hty Hk Hcid p.
  unfold t8_dtri_child. cbv zeta.
  rewrite T8_ASSERT_true by (apply Z.ltb_lt; lia).
  rewrite T8_ASSERT_true
    by (apply andb_true_intro; split; [apply Z.leb_le|apply Z.ltb_lt]; lia).
  unfold child_cubeid in Hcid. cbv zeta in Hcid.
  destruct (Z.eqb_spec (t8_dtri_index_to_bey_number (t_type t) k) 0) as [E0|E0].
  - injection Hcid as <-. eexists. exists 0, 0, 0.
    split; [reflexivity|]. unfold ifdef_dtet.
    destruct T8_DTRI_TO_DTET;
      cbn [t_level t_type t_x t_y t_z set_level set_type set_x set_y set_z];
      repeat split; auto; lia.
  - set (v := t8_dtri_beyid_to_vertex (t8_dtri_index_to_bey_number (t_type t) k)) in *.
    assert (0 <= v < T8_DTRI_FACES) as Hv.
    { unfold t8_dtri_compute_coords, T8_ASSERT in Hcid.
      destruct (Z.leb_spec 0 v), (Z.ltb_spec v T8_DTRI_FACES);
        cbn [andb] in Hcid; try discriminate. lia. }
    destruct (t8_dtri_compute_coords_scaled t v Hty Hv)
      as (c & u & Ec & Eu & U0 & U1 & U2 & U2d & C0 & C1 & C2).
    rewrite Eu in Hcid. injection Hcid as <-. rewrite Ec.
    assert (T8_DTRI_LEN (t_level t) = 2 * 2 ^ p) as EH.
    { rewrite T8_DTRI_LEN_pow2 by lia.
      replace (T8_DTRI_MAXLEVEL - t_level t) with (p + 1) by (subst p; lia).
      rewrite Z.pow_add_r by (subst p; lia). change (2 ^ 1) with 2. lia. }
    assert (forall x a, Z.shiftr (x + (x + 2 * 2 ^ p * a)) 1 = x + a * 2 ^ p) as Hmid.
    { intros x a. rewrite Z.shiftr_div_pow2 by lia. change (2 ^ 1) with 2.
      replace (x + (x + 2 * 2 ^ p * a)) with ((x + a * 2 ^ p) * 2) by lia.
      apply Z.div_mul. lia. }
    eexists. exists (tab1 u 0), (tab1 u 1), (tab1 u 2).
    split; [reflexivity|]. unfold ifdef_dtet.
    destruct T8_DTRI_TO_DTET eqn:ED;
      cbn [t_level t_type t_x t_y t_z set_level set_type set_x set_y set_z];
      rewrite ?C0, ?C1, ?(C2 eq_refl), ?EH, ?Hmid;
      repeat split; auto; discriminate.
Qed.

(** the cube-ids of a child: the one of its own level, and those of the
    parent above *)
Lemma t8_dtri_child_cubeid (t buf : t8_dtri_t) (k cid : Z) :
  0 <= t_level t < T8_DTRI_MAXLEVEL -> 0 <= t_type t < T8_DTRI_NUM_TYPES ->
  t_x t mod T8_DTRI_LEN (t_level t) = 0 ->
  t_y t mod T8_DTRI_LEN (t_level t) = 0 ->
  (T8_DTRI_TO_DTET = true -> t_z t mod T8_DTRI_LEN (t_level t) = 0) ->
  0 <= k < T8_DTRI_CHILDREN ->
  child_cubeid (t_type t) k = Some cid ->
  exists c,
    t8_dtri_child t k buf = Some c
    /\ t_level c = t_level t + 1
    /\ t_type c
       = t8_dtri_type_of_child (t_type t) (t8_dtri_index_to_bey_number (t_type t) k)
    /\ cubeid c (t_level t + 1) = cid
    /\ (forall j, j <> t_level t + 1 -> cubeid c j = cubeid t j)
    /\ Z.land (t_x c) (Z.lnot (T8_DTRI_LEN (t_level t + 1))) = t_x t
    /\ Z.land (t_y c) (Z.lnot (T8_DTRI_LEN (t_level t + 1))) = t_y t
    /\ (T8_DTRI_TO_DTET = true ->
        Z.land (t_z c) (Z.lnot (T8_DTRI_LEN (t_level t + 1))) = t_z t).
Proof.
  intros Hl Hty Ax Ay Az Hk Hcid.
  destruct (t8_dtri_child_anchor t buf k cid Hl Hty Hk Hcid)
    as (c & a0 & a1 & a2 & Ec & Lc & Tc & A0 & A1 & A2 & A2d & Ecid & Cx & Cy & Cz).
  set (p := T8_DTRI_MAXLEVEL - (t_level t + 1)) in *.
  assert (0 <= p) as Hp by (subst p; lia).
  assert (T8_DTRI_LEN (t_level t) = 2 ^ (p + 1)) as EH.
  { rewrite T8_DTRI_LEN_pow2 by lia. f_equal. subst p. lia. }
  rewrite EH in Ax, Ay, Az.
  destruct (add_level_bit (t_x t) p a0 Hp Ax A0) as (Bx & Mx).
  destruct (add_level_bit (t_y t) p a1 Hp Ay A1) as (By & My).
  assert (forall v a j, Z.land (v + a * 2 ^ p) (Z.lnot (Z.shiftl 1 p)) = v ->
            j <> t_level t + 1 ->
            Z.testbit (v + a * 2 ^ p) (T8_DTRI_MAXLEVEL - j)
            = Z.testbit v (T8_DTRI_MAXLEVEL - j)) as Hframe.
  { intros v a j M Hj.
    destruct (Z.ltb_spec (T8_DTRI_MAXLEVEL - j) 0).
    - rewrite !Z.testbit_neg_r by lia. reflexivity.
    - rewrite <- M at 2. rewrite clear_bit_spec by lia.
      destruct (Z.eqb_spec (T8_DTRI_MAXLEVEL - j) p); [subst p; lia|].
      rewrite andb_true_r. reflexivity. }
  exists c. split; [exact Ec|]. split; [exact Lc|]. split; [exact Tc|].
  unfold cubeid, T8_DTRI_LEN. fold p. rewrite Cx, Cy, Bx, By, Ecid, Mx, My.
  destruct T8_DTRI_TO_DTET eqn:ED; cbn [andb].
  - destruct (add_level_bit (t_z t) p a2 Hp (Az eq_refl) A2) as (Bz & Mz).
    rewrite (Cz eq_refl), Bz, Mz. split.
    + destruct A0, A1, A2; subst a0 a1 a2; reflexivity.
    + split; [intros j Hj; rewrite !Hframe by assumption; reflexivity|]. auto.
  - rewrite (A2d eq_refl). split.
    + destruct A0, A1; subst a0 a1; reflexivity.
    + split; [intros j Hj; rewrite !Hframe by assumption; reflexivity|].
      split; [reflexivity|]. split; [reflexivity|]. discriminate.
Qed.

(** the parent of a child, and the child id of a child *)
Lemma t8_dtri_parent_of_child (t b1 b2 : t8_dtri_t) (k : Z) :
  child_ok = true ->
  0 <= t_level t < T8_DTRI_MAXLEVEL -> 0 <= t_type t < T8_DTRI_NUM_TYPES ->
  t_x t mod T8_DTRI_LEN (t_level t) = 0 ->
  t_y t mod T8_DTRI_LEN (t_level t) = 0 ->
  (T8_DTRI_TO_DTET = true -> t_z t mod T8_DTRI_LEN (t_level t) = 0) ->
  0 <= k < T8_DTRI_CHILDREN ->
  exists c p,
    t8_dtri_child t k b1 = Some c
    /\ t_level c = t_level t + 1
    /\ t8_dtri_parent c b2 = Some p
    /\ same_element p t
    /\ t8_dtri_child_id c = Some k.
Proof.
  intros Hok Hl Hty Ax Ay Az Hk.
  destruct (child_ok_spec Hok (t_type t) k Hty Hk) as (cid & Hcid & Hcty & Hpt & Hil).
  destruct (t8_dtri_child_cubeid t b1 k cid Hl Hty Ax Ay Az Hk Hcid)
    as (c & Ec & Lc & Tc & Ecube & _ & Mx & My & Mz).
  exists c. eexists. split; [exact Ec|]. split; [exact Lc|].
  unfold t8_dtri_parent, t8_dtri_child_id.
  rewrite T8_ASSERT_true by (apply Z.ltb_lt; lia).
  rewrite compute_cubeid_eq by lia. rewrite Lc, Ecube.
  split; [reflexivity|]. split.
  - unfold same_element, ifdef_dtet.
    destruct T8_DTRI_TO_DTET eqn:ED;
      cbn [t_level t_type t_x t_y t_z set_level set_type set_x set_y set_z set_eclass];
      rewrite Tc, Hpt, Mx, My; repeat split; try lia; try discriminate;
      intros _; apply Mz; reflexivity.
  - rewrite Tc, Hil. reflexivity.
Qed.

(** X6. With Bey tables that fit the tables of the curve ([child_ok]), for
    every element [t] below the deepest level with an aligned anchor in the
    root cube and every child id [k]: the parent of [t8_dtri_child (t, k)] is [t], and the
    child id of the child is [k]. *)
Theorem t8_dtri_child_parent_round_trip (t b1 b2 : t8_dtri_t) (k : Z) :
  child_ok = true ->
  0 <= t_level t < T8_DTRI_MAXLEVEL -> 0 <= t_type t < T8_DTRI_NUM_TYPES ->
  coord_ok (t_level t) (t_x t) -> coord_ok (t_level t) (t_y t) ->
  (T8_DTRI_TO_DTET = true -> coord_ok (t_level t) (t_z t)) ->
  0 <= k < T8_DTRI_CHILDREN ->
  exists c p,
    t8_dtri_child t k b1 = Some c
    /\ t8_dtri_parent c b2 = Some p
    /\ same_element p t
    /\ t8_dtri_child_id c = Some k.
Proof.
  intros Hok Hl Hty [_ Ax] [_ Ay] Hz Hk.
  assert (T8_DTRI_TO_DTET = true -> t_z t mod T8_DTRI_LEN (t_level t) = 0) as Az
      by (intros E; apply (Hz E)).
  destruct (t8_dtri_parent_of_child t b1 b2 k Hok Hl Hty Ax Ay Az Hk)
    as (c & p & H1 & _ & H2 & H3 & H4).
  exists c, p. auto.
Qed.

(** X7. With the same tables, the sibling [j] of a child of [t] is a child
    of [t] again: [t8_dtri_sibling] returns an element whose parent is [t]
    and whose child id is [j]. *)
Theorem t8_dtri_sibling_of_child (t b1 b2 b3 : t8_dtri_t) (k j : Z) :
  child_ok = true ->
  0 <= t_level t < T8_DTRI_MAXLEVEL -> 0 <= t_type t < T8_DTRI_NUM_TYPES ->
  coord_ok (t_level t) (t_x t) -> coord_ok (t_level t) (t_y t) ->
  (T8_DTRI_TO_DTET = true -> coord_ok (t_level t) (t_z t)) ->
  0 <= k < T8_DTRI_CHILDREN -> 0 <= j < T8_DTRI_CHILDREN ->
  exists c s p,
    t8_dtri_child t k b1 = Some c
    /\ t8_dtri_sibling c j b2 = Some s
    /\ t8_dtri_parent s b3 = Some p
    /\ same_element p t
    /\ t8_dtri_child_id s = Some j.
Proof.
  intros Hok Hl Hty [_ Ax] [_ Ay] Hz Hk Hj.
  assert (T8_DTRI_TO_DTET = true -> t_z t mod T8_DTRI_LEN (t_level t) = 0) as Az
      by (intros E; apply (Hz E)).
  destruct (t8_dtri_parent_of_child t b1 b2 k Hok Hl Hty Ax Ay Az Hk)
    as (c & p & Ec & Lc & Ep & (Sl & St & Sx & Sy & Sz) & _).
  destruct (t8_dtri_parent_of_child p p b3 j Hok)
    as (s & p' & Es & _ & Ep' & Hsame & Hid);
    rewrite ?Sl, ?St, ?Sx, ?Sy; try assumption.
  { intros E. rewrite (Sz E). auto. }
  exists c, s, p'. split; [exact Ec|].
  unfold t8_dtri_sibling.
  rewrite T8_ASSERT_true
    by (apply andb_true_intro; split; [apply Z.leb_le|apply Z.ltb_lt]; lia).
  rewrite T8_ASSERT_true by (apply Z.ltb_lt; lia).
  rewrite Ep. split; [exact Es|]. split; [exact Ep'|].
  split; [|exact Hid].
  destruct Hsame as (E1 & E2 & E3 & E4 & E5).
  unfold same_element. repeat split; try congruence.
  intros E. rewrite (E5 E). auto.
Qed.

End Children.

(** ** From the index to the element *)

Section InitIndex.

Context {conn : t8_dtri_connectivity}.

(** the upward type walk reads the cube-ids of its levels only *)
Lemma type_up_ext (a b : t8_dtri_t) (n : nat) :
  forall ty i,
    (forall j, i - Z.of_nat n < j <= i -> cubeid a j = cubeid b j) ->
    type_up a ty i n = type_up b ty i n.
Proof.
  induction n as [|n IH]; intros ty i H; [reflexivity|].
  cbn [type_up]. rewrite (H i) by lia.
  apply IH. intros j Hj. apply H. lia.
Qed.

(** one step of the downward walk: the bit of level [i] of every coordinate
    becomes the bit of the cube-id *)
Lemma init_step_cubeid (t1 : t8_dtri_t) (cid i : Z) :
  1 <= i <= T8_DTRI_MAXLEVEL -> 0 <= cid < T8_DTRI_CHILDREN ->
  bits_of_levels (t_x t1) (i - 1) -> bits_of_levels (t_y t1) (i - 1) ->
  (T8_DTRI_TO_DTET = true -> bits_of_levels (t_z t1) (i - 1)) ->
  let bit (m : Z) := if c_true (Z.land cid m) then Z.shiftl 1 (T8_DTRI_MAXLEVEL - i)
                     else 0 in
  let t := set_x t1 (Z.lor (t_x t1) (bit 1)) in
  let t := set_y t (Z.lor (t_y t) (bit 2)) in
  let t := ifdef_dtet (fun t => set_z t (Z.lor (t_z t) (bit 4))) t in
  cubeid t i = cid
  /\ (forall j, j <> i -> cubeid t j = cubeid t1 j)
  /\ t_level t = t_level t1
  /\ bits_of_levels (t_x t) i /\ bits_of_levels (t_y t) i
  /\ (T8_DTRI_TO_DTET = true -> bits_of_levels (t_z t) i).
Proof.
  intros Hi Hc Bx By Bz bit t t0 t'. subst t' t0 t.
  assert (forall m j, 0 <= j ->
            Z.testbit (bit m) j = c_true (Z.land cid m) && (j =? T8_DTRI_MAXLEVEL - i))
    as Hbit.
  { intros m j Hj. subst bit. cbv beta.
    destruct (c_true (Z.land cid m)).
    - rewrite Z.shiftl_1_l, Z.pow2_bits_eqb, Z.eqb_sym by lia. reflexivity.
    - apply Z.bits_0. }
  assert (forall v m, bits_of_levels v (i - 1) ->
            Z.testbit (Z.lor v (bit m)) (T8_DTRI_MAXLEVEL - i) = c_true (Z.land cid m))
    as Hnew.
  { intros v m B. rewrite Z.lor_spec, Hbit, Z.eqb_refl, andb_true_r by lia.
    destruct (Z.testbit v (T8_DTRI_MAXLEVEL - i)) eqn:E; [|reflexivity].
    apply B in E; lia. }
  assert (forall v m j, j <> i ->
            Z.testbit (Z.lor v (bit m)) (T8_DTRI_MAXLEVEL - j)
            = Z.testbit v (T8_DTRI_MAXLEVEL - j)) as Hold.
  { intros v m j Hj.
    destruct (Z.ltb_spec (T8_DTRI_MAXLEVEL - j) 0).
    - rewrite !Z.testbit_neg_r by lia. reflexivity.
    - rewrite Z.lor_spec, Hbit by lia.
      destruct (Z.eqb_spec (T8_DTRI_MAXLEVEL - j) (T8_DTRI_MAXLEVEL - i)); [lia|].
      rewrite andb_false_r, orb_false_r. reflexivity. }
  assert (forall v m, bits_of_levels v (i - 1) -> bits_of_levels (Z.lor v (bit m)) i)
    as Hb.
  { intros v m B j Hj E. rewrite Z.lor_spec, Hbit in E by lia.
    apply orb_true_iff in E. destruct E as [E|E].
    - apply B in E; lia.
    - apply andb_true_iff in E. destruct E as [_ E]. apply Z.eqb_eq in E. lia. }
  pose proof (cid_bits cid Hc) as Hcid.
  unfold cubeid, ifdef_dtet.
  destruct T8_DTRI_TO_DTET;
    cbn [t_level t_x t_y t_z set_x set_y set_z andb] in *.
  - rewrite !Hnew by auto. split; [exact Hcid|].
    split; [intros j Hj; rewrite !Hold by exact Hj; reflexivity|].
    split; [reflexivity|]. auto.
  - rewrite !Hnew by auto. split; [exact Hcid|].
    split; [intros j Hj; rewrite !Hold by exact Hj; reflexivity|].
    split; [reflexivity|]. split; [auto|]. split; [auto|]. discriminate.
Qed.

(** The downward walk of [t8_dtri_init_linear_id] along the digits of [id]
    builds an element with index [id] that descends from the root. *)
Lemma t8_dtri_init_linear_id_loop_index (s0 : t8_dtri_t) (k : nat) :
  conn_ok = true ->
  forall id,
    Z.of_nat k <= T8_DTRI_MAXLEVEL ->
    0 <= id < 2 ^ (T8_DTRI_DIM * Z.of_nat k) ->
    t_x s0 = 0 -> t_y s0 = 0 -> (T8_DTRI_TO_DTET = true -> t_z s0 = 0) ->
    let r := loop_up k 1 (t8_dtri_init_linear_id_body id (Z.of_nat k)) (s0, 0) in
    0 <= snd r < T8_DTRI_NUM_TYPES
    /\ t_level (fst r) = t_level s0
    /\ sfc_index (fst r) (snd r) (Z.of_nat k) k = id
    /\ type_up (fst r) (snd r) (Z.of_nat k) k = 0
    /\ bits_of_levels (t_x (fst r)) (Z.of_nat k)
    /\ bits_of_levels (t_y (fst r)) (Z.of_nat k)
    /\ (T8_DTRI_TO_DTET = true -> bits_of_levels (t_z (fst r)) (Z.of_nat k)).
Proof.
  intros Hconn.
  pose proof T8_DTRI_DIM_pos as HD.
  assert (0 < T8_DTRI_NUM_TYPES) as HN.
  { unfold T8_DTRI_NUM_TYPES. destruct T8_DTRI_TO_DTET; lia. }
  induction k as [|k IH]; intros id Hk Hid Hx Hy Hz r.
  - subst r. cbn [loop_up fst snd sfc_index type_up].
    rewrite Z.mul_0_r in Hid. change (2 ^ 0) with 1 in Hid.
    assert (forall v, v = 0 -> bits_of_levels v (Z.of_nat 0)) as H0.
    { intros v -> j Hj E. rewrite Z.bits_0 in E. discriminate. }
    split; [lia|]. split; [reflexivity|]. split; [lia|]. split; [reflexivity|].
    auto.
  - subst r. rewrite t8_dtri_init_linear_id_loop_snoc.
    set (i := Z.of_nat (S k)) in *.
    set (q := Z.shiftr id T8_DTRI_DIM).
    set (d := id mod 2 ^ T8_DTRI_DIM).
    assert (0 < 2 ^ T8_DTRI_DIM) as Hpos by (apply Z.pow_pos_nonneg; lia).
    assert (id = d + 2 ^ T8_DTRI_DIM * q) as Eid.
    { subst d q. rewrite Z.shiftr_div_pow2 by lia.
      pose proof (Z.div_mod id (2 ^ T8_DTRI_DIM)). lia. }
    assert (0 <= d < 2 ^ T8_DTRI_DIM) as Hd by (apply Z.mod_pos_bound; lia).
    assert (0 <= q < 2 ^ (T8_DTRI_DIM * Z.of_nat k)) as Hq.
    { replace (T8_DTRI_DIM * i) with (T8_DTRI_DIM + T8_DTRI_DIM * Z.of_nat k) in Hid
        by lia.
      rewrite Z.pow_add_r in Hid by lia.
      assert (0 < 2 ^ (T8_DTRI_DIM * Z.of_nat k)) by (apply Z.pow_pos_nonneg; lia).
      nia. }
    destruct (IH q ltac:(lia) Hq Hx Hy Hz) as (Hty & Hlv & Hi & Hup & Bx & By & Bz).
    destruct (loop_up k 1 (t8_dtri_init_linear_id_body q (Z.of_nat k)) (s0, 0))
      as [t1 ty1].
    cbn [fst snd] in *.
    unfold t8_dtri_init_linear_id_body.
    rewrite Z.sub_diag, Z.mul_0_r, Z.shiftr_0_r.
    rewrite T8_DTRI_CHILDREN_pow, land_children_m1 by lia. fold d.
    rewrite <- T8_DTRI_CHILDREN_pow in Hd.
    destruct (conn_down Hconn ty1 d Hty Hd) as (Hc & Hty' & HI & HP).
    set (cid := t8_dtri_parenttype_Iloc_to_cid ty1 d) in *.
    set (ty := t8_dtri_parenttype_Iloc_to_type ty1 d) in *.
    replace (Z.of_nat k) with (i - 1) in Bx, By, Bz by lia.
    destruct (init_step_cubeid t1 cid i ltac:(lia) Hc Bx By Bz)
      as (Ecid & Eold & El & Bx' & By' & Bz').
    cbv zeta in Ecid, Eold, El, Bx', By', Bz'.
    cbn [fst snd].
    split; [exact Hty'|]. split; [rewrite El; exact Hlv|].
    split.
    { cbn [sfc_index]. cbv zeta. rewrite Ecid, HI, HP.
      replace (i - 1) with (Z.of_nat k) by lia.
      rewrite (sfc_index_ext _ t1); [|intros j Hj; apply Eold; lia].
      rewrite Hi. lia. }
    split.
    { cbn [type_up]. rewrite Ecid, HP.
      replace (i - 1) with (Z.of_nat k) by lia.
      rewrite (type_up_ext _ t1); [|intros j Hj; apply Eold; lia].
      exact Hup. }
    auto.
Qed.

(** X8. Every index below [CHILDREN ^ level] is the index of a valid
    element: with consistent tables [t8_dtri_init_linear_id] returns an
    element of the level that is valid (level and type in range, anchor in
    the root cube and aligned, descent from the root), and
    [t8_dtri_linear_id] gives the index back. *)
Theorem t8_dtri_init_linear_id_valid (buf : t8_dtri_t) (id level : Z) :
  conn_ok = true ->
  0 <= level <= T8_DTRI_MAXLEVEL ->
  0 <= id < T8_DTRI_CHILDREN ^ level ->
  exists t,
    t8_dtri_init_linear_id buf id level = Some t
    /\ t_level t = level
    /\ t8_dtri_valid t
    /\ t8_dtri_linear_id t level = Some id.
Proof.
  intros Hconn Hl Hid. pose proof T8_DTRI_DIM_pos as HD.
  rewrite T8_DTRI_CHILDREN_pow, <- Z.pow_mul_r in Hid by lia.
  unfold t8_dtri_init_linear_id.
  rewrite T8_ASSERT_true.
  2:{ apply range_true. split; [lia|].
      rewrite Z.shiftl_1_l, u64_small; [lia|].
      split; [apply Z.pow_nonneg; lia|].
      apply Z.pow_lt_mono_r; unfold T8_DTRI_MAXLEVEL in *; nia. }
  cbv zeta.
  set (k := Z.to_nat level).
  assert (Z.of_nat k = level) as Hk by (subst k; lia).
  set (s0 := if T8_DTRI_TO_DTET then _ else _).
  pose proof (t8_dtri_init_linear_id_loop_index s0 k Hconn id) as H.
  rewrite Hk in H.
  destruct H as (Hty & Hlv & Hi & Hup & Bx & By & Bz); try assumption; try lia.
  { subst s0. destruct T8_DTRI_TO_DTET; reflexivity. }
  { subst s0. destruct T8_DTRI_TO_DTET; reflexivity. }
  { intros E. subst s0. rewrite E. reflexivity. }
  destruct (loop_up k 1 _ (s0, 0)) as [t1 ty1]. cbn [fst snd] in *.
  assert (t_level t1 = level) as Hlevel.
  { rewrite Hlv. subst s0. destruct T8_DTRI_TO_DTET; reflexivity. }
  eexists. split; [reflexivity|].
  split; [exact Hlevel|].
  assert (forall j, cubeid (set_type t1 ty1) j = cubeid t1 j) as Hcube
      by (intros j; reflexivity).
  split.
  - constructor; cbn [t_level t_type t_x t_y t_z set_type]; rewrite ?Hlevel.
    + exact Hl.
    + exact Hty.
    + apply bits_of_levels_coord_ok; assumption.
    + apply bits_of_levels_coord_ok; assumption.
    + intros E. apply bits_of_levels_coord_ok; auto.
    + unfold ancestor_type. cbn [t_level t_type set_type].
      rewrite Hlevel, Z.sub_0_r. fold k.
      rewrite (type_up_ext _ t1); [exact Hup|intros j _; apply Hcube].
  - rewrite <- Hlevel at 1.
    change (t_level t1) with (t_level (set_type t1 ty1)).
    rewrite t8_dtri_linear_id_eq; cbn [t_level t_type set_type]; try assumption; try lia.
    rewrite Hlevel. fold k.
    rewrite (sfc_index_ext _ t1); [rewrite Hi; reflexivity|intros j _; apply Hcube].
Qed.

(** X9. The kernel accepts the index [CHILDREN ^ level], one past the last
    element of the level, and builds the first element of the level from it;
    the scheme's [t8_default_tri_set_linear_id] rejects the index
    [4 ^ level]. *)
Theorem t8_dtri_init_linear_id_one_past_last (buf : t8_dtri_t) (level : Z) :
  0 <= level <= T8_DTRI_MAXLEVEL ->
  t8_dtri_init_linear_id buf (T8_DTRI_CHILDREN ^ level) level
  = t8_dtri_init_linear_id buf 0 level
  /\ t8_dtri_init_linear_id buf 0 level <> None
  /\ t8_default_tri_set_linear_id buf level (4 ^ level) = None.
Proof.
  intros Hl. pose proof T8_DTRI_DIM_pos as HD.
  assert (0 < 2 ^ T8_DTRI_DIM) as Hpos by (apply Z.pow_pos_nonneg; lia).
  assert (u64 (Z.shiftl 1 (T8_DTRI_DIM * level)) = T8_DTRI_CHILDREN ^ level) as E.
  { rewrite Z.shiftl_1_l, T8_DTRI_CHILDREN_pow, <- Z.pow_mul_r by lia.
    apply u64_small. split; [apply Z.pow_nonneg; lia|].
    apply Z.pow_lt_mono_r; unfold T8_DTRI_MAXLEVEL in *; nia. }
  assert (0 < T8_DTRI_CHILDREN ^ level) as Hc.
  { apply Z.pow_pos_nonneg; [|lia]. rewrite T8_DTRI_CHILDREN_pow. lia. }
  split; [|split].
  - unfold t8_dtri_init_linear_id. rewrite E.
    rewrite !T8_ASSERT_true by (apply range_true; lia).
    cbv zeta.
    match goal with
    | |- (let '(_, _) := loop_up ?n 1 ?f ?s in _) = (let '(_, _) := loop_up ?n 1 ?g ?s in _) =>
        rewrite (loop_up_ext f g n 1 s); [reflexivity|]
    end.
    intros j [t ty] Hj. unfold t8_dtri_init_linear_id_body.
    rewrite Z.shiftr_0_l.
    replace (Z.land (Z.shiftr (T8_DTRI_CHILDREN ^ level) (T8_DTRI_DIM * (level - j)))
               (T8_DTRI_CHILDREN - 1)) with (Z.land 0 (T8_DTRI_CHILDREN - 1));
      [reflexivity|].
    rewrite Z.land_0_l. symmetry.
    rewrite T8_DTRI_CHILDREN_pow, land_children_m1, <- Z.pow_mul_r by lia.
    rewrite Z.shiftr_div_pow2 by nia.
    rewrite <- Z.pow_sub_r by nia.
    replace (T8_DTRI_DIM * level - T8_DTRI_DIM * (level - j))
      with (T8_DTRI_DIM * (j - 1) + T8_DTRI_DIM) by lia.
    rewrite Z.pow_add_r by nia. apply Z.mod_mul. lia.
  - unfold t8_dtri_init_linear_id. rewrite E.
    rewrite T8_ASSERT_true by (apply range_true; lia). cbv zeta.
    destruct (loop_up _ _ _ _). discriminate.
  - unfold t8_default_tri_set_linear_id.
    rewrite T8_ASSERT_true by (apply range_true; lia).
    rewrite Z.shiftl_1_l, Z.pow_mul_r by lia. change (2 ^ 2) with 4.
    rewrite u64_small.
    + rewrite Z.ltb_irrefl, andb_false_r. reflexivity.
    + split; [apply Z.pow_nonneg; lia|].
      change 4 with (2 ^ 2). rewrite <- Z.pow_mul_r by lia.
      apply Z.pow_lt_mono_r; unfold T8_DTRI_MAXLEVEL in *; lia.
Qed.

(** [t8_dtri_linear_id (t, level)] for a level below the element: the
    index of [t], followed by the index 0 of the first child for every
    further level. *)
Lemma t8_dtri_linear_id_above (t : t8_dtri_t) (level : Z) :
  conn_ok = true ->
  0 <= t_level t <= level -> level <= T8_DTRI_MAXLEVEL ->
  0 <= t_type t < T8_DTRI_NUM_TYPES ->
  t8_dtri_linear_id t level
  = Some (Z.shiftl (sfc_index t (t_type t) (t_level t) (Z.to_nat (t_level t)))
            (T8_DTRI_DIM * (level - t_level t))).
Proof.
  intros Hconn Hl HL Hty. unfold t8_dtri_linear_id.
  pose proof T8_DTRI_DIM_pos as HD.
  rewrite T8_ASSERT_true by (apply range_true; lia).
  cbv zeta.
  rewrite compute_type_self by lia.
  rewrite t8_dtri_linear_id_loop; try assumption; try lia.
  - cbn [fst]. rewrite Z.lor_0_l.
    destruct (Z.ltb_spec (t_level t) level).
    + f_equal. f_equal. lia.
    + replace (level - t_level t) with 0 by lia. rewrite Z.mul_0_r. reflexivity.
  - destruct (Z.ltb_spec (t_level t) level); nia.
  - destruct (Z.ltb_spec (t_level t) level); unfold T8_DTRI_MAXLEVEL in *; nia.
Qed.

(** X10. For a level at or below the element, [t8_dtri_linear_id] returns
    an index of that level, [0 <= id < CHILDREN ^ level], and the index of
    a first descendant: a multiple of [CHILDREN ^ (level - t->level)]. *)
Theorem t8_dtri_linear_id_range (t : t8_dtri_t) (level : Z) :
  conn_ok = true ->
  0 <= t_level t <= level -> level <= T8_DTRI_MAXLEVEL ->
  0 <= t_type t < T8_DTRI_NUM_TYPES ->
  exists id,
    t8_dtri_linear_id t level = Some id
    /\ 0 <= id < T8_DTRI_CHILDREN ^ level
    /\ id mod T8_DTRI_CHILDREN ^ (level - t_level t) = 0.
Proof.
  intros Hconn Hl HL Hty. pose proof T8_DTRI_DIM_pos as HD.
  rewrite t8_dtri_linear_id_above by (assumption || lia).
  eexists. split; [reflexivity|].
  set (k := Z.to_nat (t_level t)).
  assert (Z.of_nat k = t_level t) as Hk by (subst k; lia).
  pose proof (sfc_index_range Hconn t k (t_type t) (t_level t) Hty) as Hq.
  set (q := sfc_index t (t_type t) (t_level t) k) in *.
  rewrite Hk in Hq.
  rewrite Z.shiftl_mul_pow2 by nia.
  rewrite !T8_DTRI_CHILDREN_pow, <- !Z.pow_mul_r by lia.
  assert (0 < 2 ^ (T8_DTRI_DIM * (level - t_level t))) as Hp
      by (apply Z.pow_pos_nonneg; nia).
  split.
  - replace (T8_DTRI_DIM * level)
      with (T8_DTRI_DIM * t_level t + T8_DTRI_DIM * (level - t_level t)) by lia.
    rewrite Z.pow_add_r by nia. nia.
  - apply Z.mod_mul. lia.
Qed.

(** X11. For an element with an aligned anchor in the root cube, the index
    of a child is the index of the parent followed by the child id:
    [linear_id (child (t, k)) = CHILDREN * linear_id (t) + k], so the
    children of an element follow each other on the curve in the order of
    their child ids. *)
Theorem t8_dtri_child_linear_id (t buf : t8_dtri_t) (k id : Z) :
  conn_ok = true -> child_ok = true ->
  0 <= t_level t < T8_DTRI_MAXLEVEL -> 0 <= t_type t < T8_DTRI_NUM_TYPES ->
  coord_ok (t_level t) (t_x t) -> coord_ok (t_level t) (t_y t) ->
  (T8_DTRI_TO_DTET = true -> coord_ok (t_level t) (t_z t)) ->
  0 <= k < T8_DTRI_CHILDREN ->
  t8_dtri_linear_id t (t_level t) = Some id ->
  exists c,
    t8_dtri_child t k buf = Some c
    /\ t8_dtri_linear_id c (t_level t + 1) = Some (T8_DTRI_CHILDREN * id + k).
Proof.
  intros Hconn Hok Hl Hty [_ Ax] [_ Ay] Hz Hk Hid.
  assert (T8_DTRI_TO_DTET = true -> t_z t mod T8_DTRI_LEN (t_level t) = 0) as Az
      by (intros E; apply (Hz E)).
  pose proof T8_DTRI_DIM_pos as HD.
  destruct (child_ok_spec Hok (t_type t) k Hty Hk) as (cid & Hcid & Hcty & Hpt & Hil).
  destruct (t8_dtri_child_cubeid t buf k cid Hl Hty Ax Ay Az Hk Hcid)
    as (c & Ec & Lc & Tc & Ecube & Eold & _).
  exists c. split; [exact Ec|].
  rewrite t8_dtri_linear_id_eq in Hid by (assumption || lia).
  injection Hid as <-.
  rewrite <- Lc.
  rewrite t8_dtri_linear_id_eq; rewrite ?Lc, ?Tc; try assumption; try lia.
  replace (Z.to_nat (t_level t + 1)) with (S (Z.to_nat (t_level t))) by lia.
  cbn [sfc_index]. cbv zeta. rewrite Ecube, Hil, Hpt.
  replace (t_level t + 1 - 1) with (t_level t) by lia.
  rewrite (sfc_index_ext c t); [|intros j Hj; apply Eold; lia].
  rewrite <- T8_DTRI_CHILDREN_pow. f_equal. lia.
Qed.

(** ** First and last descendant *)

Lemma first_child_ok_spec :
  first_child_ok = true ->
  forall p, 0 <= p < T8_DTRI_NUM_TYPES ->
    t8_dtri_parenttype_Iloc_to_cid p 0 = 0 /\ t8_dtri_parenttype_Iloc_to_type p 0 = p.
Proof.
  intros H p Hp. unfold first_child_ok in H.
  apply forall_range_spec with (i := p) in H; [|exact Hp].
  apply andb_true_iff in H. destruct H as [H1 H2].
  apply Z.eqb_eq in H1, H2. auto.
Qed.

(** X12. The first descendant of a valid element is the element of the
    deepest level with the same anchor and the same type (for consistent
    tables whose first child lies at the anchor of its parent and has its
    type). *)
Theorem t8_dtri_first_descendant_anchor (t buf : t8_dtri_t) :
  conn_ok = true -> first_child_ok = true ->
  t8_dtri_valid t ->
  exists s,
    t8_dtri_first_descendant t buf = Some s
    /\ t_level s = T8_DTRI_MAXLEVEL
    /\ t_type s = t_type t
    /\ t_x s = t_x t /\ t_y s = t_y t
    /\ (T8_DTRI_TO_DTET = true -> t_z s = t_z t).
Proof.
  intros Hconn Hfirst [Hl Hty Hx Hy Hz Hroot].
  pose proof T8_DTRI_DIM_pos as HD.
  set (L := t_level t) in *.
  set (k := Z.to_nat L).
  assert (Z.of_nat k = L) as Hk by (subst k; lia).
  set (q := sfc_index t (t_type t) L k).
  set (e := T8_DTRI_DIM * (T8_DTRI_MAXLEVEL - L)).
  assert (0 <= e) as He by (subst e; nia).
  pose proof (sfc_index_range Hconn t k (t_type t) L Hty) as Hq. fold q in Hq.
  rewrite Hk in Hq.
  unfold t8_dtri_first_descendant, t8_dtri_linear_id_first_desc.
  rewrite t8_dtri_linear_id_above by (assumption || lia).
  fold L k q e.
  unfold t8_dtri_init_linear_id.
  assert (0 < 2 ^ e) as Hpe by (apply Z.pow_pos_nonneg; lia).
  rewrite T8_ASSERT_true.
  2:{ apply range_true. rewrite Z.shiftl_mul_pow2 by lia. split; [nia|].
      rewrite Z.shiftl_1_l, u64_small.
      - replace (T8_DTRI_DIM * T8_DTRI_MAXLEVEL) with (T8_DTRI_DIM * L + e)
          by (subst e; lia).
        rewrite Z.pow_add_r by nia. nia.
      - split; [apply Z.pow_nonneg; lia|].
        apply Z.pow_lt_mono_r; unfold T8_DTRI_MAXLEVEL; lia. }
  cbv zeta.
  set (s0 := if T8_DTRI_TO_DTET then _ else _).
  set (m := Z.to_nat (T8_DTRI_MAXLEVEL - L)).
  replace (Z.to_nat T8_DTRI_MAXLEVEL) with (k + m)%nat by (subst k m; lia).
  rewrite loop_up_app.
  (* the levels of [t] *)
  rewrite (loop_up_ext _ (t8_dtri_init_linear_id_body q L) k 1 (s0, 0)).
  2:{ intros j s' Hj.
      rewrite (t8_dtri_init_linear_id_body_shift _ T8_DTRI_MAXLEVEL L) by lia.
      fold e. rewrite Z.shiftr_shiftl_l, Z.sub_diag, Z.shiftl_0_r by lia.
      reflexivity. }
  unfold ancestor_type in Hroot. rewrite Z.sub_0_r in Hroot. fold L k in Hroot.
  pose proof (t8_dtri_init_linear_id_loop Hconn t s0 k (t_type t)) as H.
  rewrite Hk in H. fold q in H.
  destruct H as (Hs & Hlv & Bx & By & Bz); try assumption; try lia.
  { subst s0. destruct T8_DTRI_TO_DTET; reflexivity. }
  { subst s0. destruct T8_DTRI_TO_DTET; reflexivity. }
  { intros E. subst s0. rewrite E. reflexivity. }
  apply (level_bits_coord_ok L) in Bx; [|lia|exact Hx].
  apply (level_bits_coord_ok L) in By; [|lia|exact Hy].
  assert (t_level s0 = T8_DTRI_MAXLEVEL) as Hl0
      by (subst s0; destruct T8_DTRI_TO_DTET; reflexivity).
  rewrite Hl0 in Hlv.
  (* the levels below [t] *)
  set (P := fun r : t8_dtri_t * Z =>
              snd r = t_type t /\ t_level (fst r) = T8_DTRI_MAXLEVEL
              /\ t_x (fst r) = t_x t /\ t_y (fst r) = t_y t
              /\ (T8_DTRI_TO_DTET = true -> t_z (fst r) = t_z t)).
  assert (P (loop_up m (1 + Z.of_nat k)
               (t8_dtri_init_linear_id_body (Z.shiftl q e) T8_DTRI_MAXLEVEL)
               (loop_up k 1 (t8_dtri_init_linear_id_body q L) (s0, 0)))) as HP.
  { apply loop_up_invariant.
    - intros j [t' ty'] Hj (P1 & P2 & P3 & P4 & P5). cbn [fst snd] in *.
      unfold t8_dtri_init_linear_id_body.
      assert (Z.land (Z.shiftr (Z.shiftl q e) (T8_DTRI_DIM * (T8_DTRI_MAXLEVEL - j)))
                (T8_DTRI_CHILDREN - 1) = 0) as ->.
      { rewrite Z.shiftr_shiftl_l by (subst e; nia).
        rewrite T8_DTRI_CHILDREN_pow, land_children_m1 by lia.
        replace (e - T8_DTRI_DIM * (T8_DTRI_MAXLEVEL - j))
          with (T8_DTRI_DIM * (j - L - 1) + T8_DTRI_DIM) by (subst e; lia).
        rewrite Z.shiftl_mul_pow2, Z.pow_add_r by nia.
        rewrite Z.mul_assoc. apply Z.mod_mul. apply Z.pow_nonzero; lia. }
      subst ty'.
      destruct (first_child_ok_spec Hfirst (t_type t) Hty) as (-> & ->).
      unfold ifdef_dtet. change (c_true (Z.land 0 1)) with false.
      change (c_true (Z.land 0 2)) with false. change (c_true (Z.land 0 4)) with false.
      cbv iota. rewrite !Z.lor_0_r.
      unfold P. destruct T8_DTRI_TO_DTET;
        cbn [fst snd t_level t_x t_y t_z set_x set_y set_z]; rewrite ?Z.lor_0_r; auto.
    - unfold P. repeat split; auto.
      intros E. apply (level_bits_coord_ok L); auto; lia. }
  destruct HP as (P1 & P2 & P3 & P4 & P5).
  destruct (loop_up m _ _ _) as [t1 ty1]. cbn [fst snd] in *.
  eexists. split; [reflexivity|].
  cbn [t_level t_type t_x t_y t_z set_type]. auto.
Qed.

(** X13. [t8_dtri_linear_id_last_desc] shifts the index of [t] by
    [MAXLEVEL - level] bits, and masks the [DIM * (MAXLEVEL - level)] bits
    of the last children.  For an element of a level so small that its
    shifted index stays below the mask ([DIM * level <= (DIM - 1) *
    (MAXLEVEL - level)]: the levels up to 7 of a triangle), the result of
    [t8_dtri_last_descendant] does not depend on the element: it is the
    element of the deepest level with the index
    [CHILDREN ^ (MAXLEVEL - level) - 1]. *)
Theorem t8_dtri_last_descendant_low_level (t buf : t8_dtri_t) :
  conn_ok = true ->
  0 <= t_level t <= T8_DTRI_MAXLEVEL ->
  0 <= t_type t < T8_DTRI_NUM_TYPES ->
  T8_DTRI_DIM * t_level t <= (T8_DTRI_DIM - 1) * (T8_DTRI_MAXLEVEL - t_level t) ->
  t8_dtri_last_descendant t buf
  = t8_dtri_init_linear_id buf
      (T8_DTRI_CHILDREN ^ (T8_DTRI_MAXLEVEL - t_level t) - 1) T8_DTRI_MAXLEVEL.
Proof.
  intros Hconn Hl Hty Hlow.
  pose proof T8_DTRI_DIM_pos as HD.
  set (L := t_level t) in *.
  set (k := Z.to_nat L).
  assert (Z.of_nat k = L) as Hk by (subst k; lia).
  set (q := sfc_index t (t_type t) L k).
  pose proof (sfc_index_range Hconn t k (t_type t) L Hty) as Hq. fold q in Hq.
  rewrite Hk in Hq.
  unfold t8_dtri_last_descendant, t8_dtri_linear_id_last_desc.
  rewrite t8_dtri_linear_id_eq by (assumption || lia).
  fold L k q. cbv zeta.
  set (e := T8_DTRI_MAXLEVEL - L) in *.
  set (n := T8_DTRI_DIM * e).
  assert (0 <= e) as He by (subst e; lia).
  assert (0 <= n <= 63) as Hn by (subst n e; unfold T8_DTRI_MAXLEVEL in *; nia).
  assert (0 < 2 ^ n <= 2 ^ 63) as Hpn.
  { split; [apply Z.pow_pos_nonneg; lia|apply Z.pow_le_mono_r; lia]. }
  assert (0 < 2 ^ e) as Hpe by (apply Z.pow_pos_nonneg; lia).
  assert (0 <= Z.shiftl q e < 2 ^ n) as Hs.
  { rewrite Z.shiftl_mul_pow2 by lia. split; [nia|].
    apply Z.lt_le_trans with (2 ^ (T8_DTRI_DIM * L) * 2 ^ e); [nia|].
    rewrite <- Z.pow_add_r by nia. apply Z.pow_le_mono_r; subst n; lia. }
  assert (2 ^ 63 < 2 ^ 64) by (apply Z.pow_lt_mono_r; lia).
  rewrite Z.shiftl_1_l.
  rewrite (u64_small (2 ^ n)) by lia.
  rewrite (u64_small (2 ^ n - 1)) by lia.
  rewrite (u64_small (Z.shiftl q e)) by lia.
  replace (2 ^ n - 1) with (Z.ones n) by (rewrite Z.ones_equiv; lia).
  assert (Z.lor (Z.ones n) (Z.shiftl q e) = Z.ones n) as ->.
  { rewrite Z.lor_comm.
    destruct (Z.eq_dec (Z.shiftl q e) 0) as [->|N]; [apply Z.lor_0_l|].
    apply Z.lor_ones_low; [lia|]. apply Z.log2_lt_pow2; lia. }
  rewrite Z.ones_equiv, T8_DTRI_CHILDREN_pow, <- Z.pow_mul_r by lia.
  reflexivity.
Qed.

(** ** The order of the scheme *)

(** two valid elements of one level with the same index are the same *)
Lemma sfc_index_inj (t1 t2 : t8_dtri_t) :
  conn_ok = true ->
  t8_dtri_valid t1 -> t8_dtri_valid t2 -> t_level t1 = t_level t2 ->
  sfc_index t1 (t_type t1) (t_level t1) (Z.to_nat (t_level t1))
  = sfc_index t2 (t_type t2) (t_level t2) (Z.to_nat (t_level t2)) ->
  same_element t1 t2.
Proof.
  intros Hconn [Hl1 Hty1 Hx1 Hy1 Hz1 Hr1] [Hl2 Hty2 Hx2 Hy2 Hz2 Hr2] El Ei.
  rewrite <- El in *.
  set (L := t_level t1) in *.
  set (k := Z.to_nat L) in *.
  assert (Z.of_nat k = L) as Hk by (subst k; lia).
  unfold ancestor_type in Hr1, Hr2. rewrite <- El, Z.sub_0_r in Hr2.
  rewrite Z.sub_0_r in Hr1. fold L k in Hr1, Hr2.
  set (s0 := mk_dtri 0 0 0 0 0 0 0).
  pose proof (t8_dtri_init_linear_id_loop Hconn t1 s0 k (t_type t1)) as H1.
  pose proof (t8_dtri_init_linear_id_loop Hconn t2 s0 k (t_type t2)) as H2.
  rewrite Hk in H1, H2. rewrite <- Ei in H2.
  destruct H1 as (Hs1 & _ & Bx1 & By1 & Bz1); try assumption; try lia; try reflexivity.
  destruct H2 as (Hs2 & _ & Bx2 & By2 & Bz2); try assumption; try lia; try reflexivity.
  destruct (loop_up k 1 _ (s0, 0)) as [r ty]. cbn [fst snd] in *.
  apply (level_bits_coord_ok L) in Bx1, By1, Bx2, By2; try assumption; try lia.
  unfold same_element. fold L.
  repeat split; try congruence.
  intros E. specialize (Bz1 E). specialize (Bz2 E).
  apply (level_bits_coord_ok L) in Bz1, Bz2; auto; try lia; congruence.
Qed.

(** X14. On valid elements of one level [t8_default_tri_compare] is the
    order of the indices: it returns -1, 0 or 1, it returns 0 for the same
    element only, and exchanging the arguments changes the sign. *)
Theorem t8_default_tri_compare_same_level (t1 t2 : t8_dtri_t) :
  conn_ok = true ->
  t8_dtri_valid t1 -> t8_dtri_valid t2 -> t_level t1 = t_level t2 ->
  exists r,
    t8_default_tri_compare t1 t2 = Some r
    /\ (r = -1 \/ r = 0 \/ r = 1)
    /\ (r = 0 <-> same_element t1 t2)
    /\ t8_default_tri_compare t2 t1 = Some (- r).
Proof.
  intros Hconn V1 V2 El.
  pose proof V1 as [Hl1 Hty1 _ _ _ _]. pose proof V2 as [Hl2 Hty2 _ _ _ _].
  unfold t8_default_tri_compare, t8_default_tri_get_linear_id, t8_default_tri_level,
    t8_dtri_get_level, SC_MAX.
  rewrite <- El, Z.ltb_irrefl.
  rewrite !T8_ASSERT_true by (apply range_true; lia).
  rewrite (t8_dtri_linear_id_eq Hconn t1) by (assumption || lia).
  rewrite (t8_dtri_linear_id_eq Hconn t2) by (rewrite <- ?El; assumption || lia).
  pose proof (sfc_index_inj t1 t2 Hconn V1 V2 El) as Hinj.
  set (i1 := sfc_index t1 _ _ _) in *. set (i2 := sfc_index t2 _ _ _) in *.
  assert (same_element t1 t2 -> i1 = i2) as Hsame.
  { intros (E1 & E2 & E3 & E4 & E5). subst i1 i2. rewrite <- E1, <- E2.
    apply sfc_index_ext. intros j _. unfold cubeid. rewrite E3, E4.
    destruct T8_DTRI_TO_DTET; [rewrite (E5 eq_refl)|]; reflexivity. }
  eexists. split; [reflexivity|].
  destruct (Z.ltb_spec i1 i2), (Z.ltb_spec i2 i1), (Z.eqb_spec i1 i2),
    (Z.eqb_spec i2 i1); try lia; cbn [negb];
    (split; [lia|]); (split; [|reflexivity]);
    (split; [try discriminate; intros _; apply Hinj; assumption
            |intros HS; apply Hsame in HS; try reflexivity; lia]).
Qed.

(** ** The ends of the curve, and the way back *)

(** the greatest index has the last child at every level *)
Lemma sfc_index_last (t : t8_dtri_t) (k : nat) :
  conn_ok = true ->
  forall ty i,
    0 <= ty < T8_DTRI_NUM_TYPES ->
    sfc_index t ty i k = 2 ^ (T8_DTRI_DIM * Z.of_nat k) - 1 ->
    forall j, i - Z.of_nat k < j <= i ->
      t8_dtri_type_cid_to_Iloc ty (cubeid t j) = T8_DTRI_CHILDREN - 1.
Proof.
  intros Hconn.
  pose proof T8_DTRI_DIM_pos as HD.
  pose proof T8_DTRI_CHILDREN_pow as HC.
  induction k as [|k IH]; intros ty i Hty Hi j Hj; [lia|].
  cbn [sfc_index] in Hi. cbv zeta in Hi.
  destruct (conn_up Hconn (cubeid t i) ty (cubeid_range t i) Hty)
    as (Hp & Hd & _ & _ & Hlastchild).
  set (d := t8_dtri_type_cid_to_Iloc ty (cubeid t i)) in *.
  set (p := t8_dtri_cid_type_to_parenttype (cubeid t i) ty) in *.
  pose proof (sfc_index_range Hconn t k p (i - 1) Hp) as Hq.
  set (q := sfc_index t p (i - 1) k) in *.
  replace (T8_DTRI_DIM * Z.of_nat (S k)) with (T8_DTRI_DIM + T8_DTRI_DIM * Z.of_nat k)
    in Hi by lia.
  rewrite Z.pow_add_r, <- HC in Hi by lia.
  assert (d = T8_DTRI_CHILDREN - 1 /\ q = 2 ^ (T8_DTRI_DIM * Z.of_nat k) - 1) as [Ed Eq]
      by nia.
  destruct (Z.eq_dec j i) as [->|N]; [exact Ed|].
  pose proof (Hlastchild Ed) as Ep. subst q. rewrite Ep in Eq.
  apply (IH ty (i - 1)); [exact Hty|exact Eq|lia].
Qed.

(** along a chain of last children the recursion of the successor runs
    into the assertion [1 <= level] *)
Lemma t8_dtri_succ_pred_recursion_all_last (t : t8_dtri_t) (k : nat) :
  forall fuel s,
    Z.of_nat k <= t_level t -> t_level t <= T8_DTRI_MAXLEVEL ->
    (forall j, 1 <= j <= Z.of_nat k ->
               t8_dtri_type_cid_to_Iloc (t_type t) (cubeid t j) = T8_DTRI_CHILDREN - 1) ->
    t8_dtri_succ_pred_recursion_fuel fuel t s (Z.of_nat k) 1 = None.
Proof.
  assert (4 <= T8_DTRI_CHILDREN) as HC4.
  { destruct T8_DTRI_DIM_cases as [(_ & -> & _)|(_ & -> & _)]; lia. }
  induction k as [|k IH]; intros fuel s Hk HL Hchain.
  - destruct fuel; reflexivity.
  - destruct fuel as [|fuel]; [reflexivity|].
    set (i := Z.of_nat (S k)) in *.
    cbn [t8_dtri_succ_pred_recursion_fuel].
    rewrite T8_ASSERT_true by (apply range_true; lia).
    rewrite T8_ASSERT_true
      by (apply andb_true_intro; split; apply Z.ltb_lt; lia).
    change (1 =? 0) with false. cbv iota.
    rewrite compute_cubeid_eq by lia.
    rewrite compute_type_own_type by lia.
    rewrite (Hchain i) by lia.
    rewrite rem_children by lia. rewrite Z.eqb_refl.
    change (1 <? 0) with false. change (0 <? 1) with true. cbv iota.
    rewrite Z.eqb_refl.
    replace (i - 1) with (Z.of_nat k) by lia.
    rewrite IH; [reflexivity|lia|lia|].
    intros j Hj. apply Hchain. lia.
Qed.

(** X15. The last element of a level has no successor:
    [t8_dtri_successor] at the own level of the element with the index
    [CHILDREN ^ level - 1] ends in the assertion [1 <= level] of its
    recursion. *)
Theorem t8_dtri_successor_of_last (t : t8_dtri_t) :
  conn_ok = true ->
  0 <= t_level t <= T8_DTRI_MAXLEVEL ->
  0 <= t_type t < T8_DTRI_NUM_TYPES ->
  t8_dtri_linear_id t (t_level t) = Some (T8_DTRI_CHILDREN ^ t_level t - 1) ->
  t8_dtri_successor t (t_level t) = None.
Proof.
  intros Hconn Hl Hty Hid. pose proof T8_DTRI_DIM_pos as HD.
  rewrite t8_dtri_linear_id_eq in Hid by (assumption || lia).
  injection Hid as Hid.
  set (k := Z.to_nat (t_level t)) in *.
  assert (Z.of_nat k = t_level t) as Hk by (subst k; lia).
  rewrite T8_DTRI_CHILDREN_pow, <- Z.pow_mul_r, <- Hk in Hid by lia.
  rewrite Hk in Hid at 1.
  unfold t8_dtri_successor, t8_dtri_succ_pred_recursion, t8_dtri_copy. fold k.
  pose proof (t8_dtri_succ_pred_recursion_all_last t k (k + 1)%nat t) as H.
  rewrite Hk in H. apply H; try lia.
  intros j Hj.
  apply (sfc_index_last t k Hconn (t_type t) (t_level t) Hty Hid). lia.
Qed.

Lemma rem_children_m1 (d : Z) :
  0 <= d < T8_DTRI_CHILDREN ->
  Z.rem (d + T8_DTRI_CHILDREN + -1) T8_DTRI_CHILDREN
  = if d =? 0 then T8_DTRI_CHILDREN - 1 else d - 1.
Proof.
  assert (4 <= T8_DTRI_CHILDREN) as HC4.
  { destruct T8_DTRI_DIM_cases as [(_ & -> & _)|(_ & -> & _)]; lia. }
  intros Hd. rewrite Z.rem_mod_nonneg by lia.
  destruct (Z.eqb_spec d 0) as [E|E].
  - subst d. apply Z.mod_small. lia.
  - replace (d + T8_DTRI_CHILDREN + -1) with (d - 1 + 1 * T8_DTRI_CHILDREN) by lia.
    rewrite Z.mod_add by lia. apply Z.mod_small. lia.
Qed.

(** X16. [t8_dtri_predecessor] at the own level of the element.  The
    recursion into the parent is taken when the new child-local index is 0,
    as for the successor.  For an element with child id at least 2 the
    result is the element one step back on the curve; for a first child
    (child id 0) no step into the parent is made, and the result is the
    last child of the same parent, [CHILDREN - 1] steps ahead. *)
Theorem t8_dtri_predecessor_linear_id (t : t8_dtri_t) (id d : Z) :
  conn_ok = true ->
  1 <= t_level t <= T8_DTRI_MAXLEVEL ->
  0 <= t_type t < T8_DTRI_NUM_TYPES ->
  t8_dtri_linear_id t (t_level t) = Some id ->
  t8_dtri_child_id t = Some d ->
  d <> 1 ->
  exists s,
    t8_dtri_predecessor t (t_level t) = Some s
    /\ t8_dtri_linear_id s (t_level t)
       = Some (if d =? 0 then id + (T8_DTRI_CHILDREN - 1) else id - 1).
Proof.
  intros Hconn Hl Hty Hid Hd Hd1.
  pose proof T8_DTRI_DIM_pos as HD.
  pose proof T8_DTRI_CHILDREN_pow as HC.
  assert (4 <= T8_DTRI_CHILDREN) as HC4.
  { destruct T8_DTRI_DIM_cases as [(_ & -> & _)|(_ & -> & _)]; lia. }
  rewrite t8_dtri_linear_id_eq in Hid by (assumption || lia).
  injection Hid as <-.
  unfold t8_dtri_child_id in Hd. rewrite compute_cubeid_eq in Hd by lia.
  injection Hd as Hd.
  set (L := t_level t) in *.
  set (k := Z.to_nat L) in *.
  assert (exists k', k = S k') as [k' Ek] by (exists (Nat.pred k); subst k; lia).
  assert (Z.of_nat k' = L - 1) as Hk' by lia.
  unfold t8_dtri_predecessor, t8_dtri_succ_pred_recursion, t8_dtri_copy. fold L k.
  replace (k + 1)%nat with (S k) by lia.
  cbn [t8_dtri_succ_pred_recursion_fuel].
  rewrite T8_ASSERT_true by (apply range_true; lia).
  rewrite T8_ASSERT_true
    by (apply andb_true_intro; split; apply Z.ltb_lt; lia).
  change (-1 =? 0) with false. cbv iota.
  rewrite compute_cubeid_eq by lia.
  rewrite compute_type_self by lia.
  destruct (conn_up Hconn (cubeid t L) (t_type t) (cubeid_range t L) Hty)
    as (Hp & Hdr & _ & _ & _).
  rewrite Hd in *.
  set (cid := cubeid t L) in *.
  set (p := t8_dtri_cid_type_to_parenttype cid (t_type t)) in *.
  rewrite rem_children_m1 by exact Hdr.
  set (d' := if d =? 0 then T8_DTRI_CHILDREN - 1 else d - 1).
  assert (1 <= d' < T8_DTRI_CHILDREN) as Hd'.
  { subst d'. destruct (Z.eqb_spec d 0); lia. }
  destruct (Z.eqb_spec d' 0) as [|_]; [lia|].
  destruct (conn_down Hconn p d' Hp ltac:(lia)) as (Hc' & Ht' & HI' & HP').
  set (ty' := t8_dtri_parenttype_Iloc_to_type p d') in *.
  set (cid' := t8_dtri_parenttype_Iloc_to_cid p d') in *.
  destruct (cubeid_after_setbits t ty' L cid' ltac:(lia) Hc')
    as (Hlv & Hty' & Hcid & Hframe).
  cbv zeta in Hlv, Hty', Hcid, Hframe.
  eexists. split; [reflexivity|].
  match goal with |- t8_dtri_linear_id ?s _ = _ => set (s' := s) in * end.
  rewrite <- Hlv at 1.
  rewrite t8_dtri_linear_id_eq; rewrite ?Hlv, ?Hty'; try assumption; try lia.
  fold k. rewrite Ek. cbn [sfc_index]. cbv zeta.
  rewrite Hcid, HI', HP'. fold cid. rewrite Hd. fold p.
  rewrite (sfc_index_ext s' t); [|intros j Hj; apply Hframe; lia].
  f_equal. subst d'. rewrite HC. destruct (Z.eqb_spec d 0); lia.
Qed.

End InitIndex.

(** ** The triangle build: types and diagonals *)

Section Triangles2D.

Context {conn : t8_dtri_connectivity}.

Lemma parenttype_2d_build : parenttype_2d_ok = true -> T8_DTRI_TO_DTET = false.
Proof.
  intros Hpt. unfold parenttype_2d_ok in Hpt. apply andb_true_iff in Hpt.
  destruct Hpt as [H _]. destruct T8_DTRI_TO_DTET; [discriminate|reflexivity].
Qed.

Lemma parenttype_2d_spec (t : t8_dtri_t) (i ty : Z) :
  parenttype_2d_ok = true ->
  0 <= ty < 2 ->
  t8_dtri_cid_type_to_parenttype (cubeid t i) ty
  = diag_type (b2z (Z.testbit (t_x t) (T8_DTRI_MAXLEVEL - i)))
      (b2z (Z.testbit (t_y t) (T8_DTRI_MAXLEVEL - i))) ty
  /\ 0 <= t8_dtri_cid_type_to_parenttype (cubeid t i) ty < 2.
Proof.
  intros Hpt Hty. pose proof Hpt as H. unfold parenttype_2d_ok in H.
  apply andb_true_iff in H. destruct H as [_ H].
  pose proof (cubeid_range t i) as Hc.
  unfold T8_DTRI_CHILDREN in Hc. rewrite (parenttype_2d_build Hpt) in Hc.
  apply forall_range_spec with (i := cubeid t i) in H; [|exact Hc].
  apply forall_range_spec with (i := ty) in H; [|exact Hty].
  apply Z.eqb_eq in H. rewrite H. clear H Hc.
  unfold cubeid. rewrite (parenttype_2d_build Hpt). cbn [andb b2z].
  assert (ty = 0 \/ ty = 1) as [->| ->] by lia;
    destruct (Z.testbit (t_x t) _), (Z.testbit (t_y t) _); cbn; split; (reflexivity || lia).
Qed.

(** the upward walk of the types compares the offsets in the square of the
    ancestor *)
Lemma type_up_diag (t : t8_dtri_t) (n : nat) :
  parenttype_2d_ok = true ->
  forall ty i,
    i <= T8_DTRI_MAXLEVEL -> 0 <= ty < 2 ->
    type_up t ty i n
    = diag_type (level_digits (t_x t) i n) (level_digits (t_y t) i n) ty
    /\ 0 <= type_up t ty i n < 2.
Proof.
  intros Hpt. induction n as [|n IH]; intros ty i Hi Hty.
  - cbn [type_up]. unfold level_digits. change (2 ^ Z.of_nat 0) with 1.
    rewrite !Z.mod_1_r. split; [reflexivity|exact Hty].
  - cbn [type_up].
    destruct (parenttype_2d_spec t i ty Hpt Hty) as (E & R).
    destruct (IH (t8_dtri_cid_type_to_parenttype (cubeid t i) ty) (i - 1)
                ltac:(lia) R) as (E' & R').
    split; [|exact R'].
    rewrite E', E, !level_digits_step by lia.
    symmetry. apply diag_type_step;
      match goal with |- context [Z.testbit ?a ?b] => destruct (Z.testbit a b) end;
      cbn; auto.
Qed.

(** [n] parents up: the level, the type of the upward walk, and the
    coordinates without the bits of the [n] levels left. *)
Lemma iter_parent_spec (n : nat) :
  forall t,
    Z.of_nat n <= t_level t <= T8_DTRI_MAXLEVEL ->
    exists p,
      iter_parent n t = Some p
      /\ t_level p = t_level t - Z.of_nat n
      /\ t_type p = type_up t (t_type t) (t_level t) n
      /\ (forall j, 0 <= j ->
            Z.testbit (t_x p) j
            = Z.testbit (t_x t) j
              && negb ((T8_DTRI_MAXLEVEL - t_level t <=? j)
                       && (j <? T8_DTRI_MAXLEVEL - t_level t + Z.of_nat n)))
      /\ (forall j, 0 <= j ->
            Z.testbit (t_y p) j
            = Z.testbit (t_y t) j
              && negb ((T8_DTRI_MAXLEVEL - t_level t <=? j)
                       && (j <? T8_DTRI_MAXLEVEL - t_level t + Z.of_nat n))).
Proof.
  induction n as [|n IH]; intros t Hl.
  - exists t. cbn [iter_parent type_up]. rewrite Z.sub_0_r.
    repeat split; try reflexivity; intros j Hj;
      destruct (Z.leb_spec (T8_DTRI_MAXLEVEL - t_level t) j),
        (Z.ltb_spec j (T8_DTRI_MAXLEVEL - t_level t + Z.of_nat 0));
      try lia; cbn [andb negb]; rewrite andb_true_r; reflexivity.
  - cbn [iter_parent type_up]. unfold t8_dtri_parent.
    rewrite T8_ASSERT_true by (apply Z.ltb_lt; lia).
    rewrite compute_cubeid_eq by lia.
    match goal with |- context [iter_parent n ?q] => set (p1 := q) end.
    assert (t_level p1 = t_level t - 1 /\
            t_type p1 = t8_dtri_cid_type_to_parenttype (cubeid t (t_level t)) (t_type t)
            /\ t_x p1 = Z.land (t_x t) (Z.lnot (T8_DTRI_LEN (t_level t)))
            /\ t_y p1 = Z.land (t_y t) (Z.lnot (T8_DTRI_LEN (t_level t)))
            /\ (T8_DTRI_TO_DTET = true ->
                t_z p1 = Z.land (t_z t) (Z.lnot (T8_DTRI_LEN (t_level t)))))
      as (L1 & T1 & X1 & Y1 & Z1).
    { subst p1. unfold ifdef_dtet. destruct T8_DTRI_TO_DTET; cbn; auto.
      repeat split; auto. discriminate. }
    clearbody p1.
    destruct (IH p1 ltac:(lia)) as (p & Ep & Lp & Tp & Xp & Yp).
    exists p. split; [exact Ep|]. split; [lia|].
    assert (forall j, j <= t_level t - 1 -> cubeid p1 j = cubeid t j) as Hcube.
    { intros j Hj. unfold cubeid. rewrite X1, Y1. unfold T8_DTRI_LEN.
      destruct (Z.ltb_spec (T8_DTRI_MAXLEVEL - j) 0).
      - rewrite !Z.testbit_neg_r by lia. destruct T8_DTRI_TO_DTET; reflexivity.
      - rewrite !clear_bit_spec by lia.
        destruct (Z.eqb_spec (T8_DTRI_MAXLEVEL - j) (T8_DTRI_MAXLEVEL - t_level t));
          [lia|].
        rewrite !andb_true_r.
        destruct T8_DTRI_TO_DTET; cbn [andb]; [|reflexivity].
        rewrite (Z1 eq_refl). unfold T8_DTRI_LEN. rewrite clear_bit_spec by lia.
        destruct (Z.eqb_spec (T8_DTRI_MAXLEVEL - j) (T8_DTRI_MAXLEVEL - t_level t));
          [lia|]. rewrite andb_true_r. reflexivity. }
    split.
    { rewrite Tp, T1, L1. apply type_up_ext. intros j Hj. apply Hcube. lia. }
    unfold T8_DTRI_LEN in X1, Y1.
    split; intros j Hj; rewrite ?Xp, ?Yp, ?X1, ?Y1, ?L1 by lia;
      rewrite clear_bit_spec by lia;
      destruct (Z.eqb_spec j (T8_DTRI_MAXLEVEL - t_level t)),
        (Z.leb_spec (T8_DTRI_MAXLEVEL - (t_level t - 1)) j),
        (Z.ltb_spec j (T8_DTRI_MAXLEVEL - (t_level t - 1) + Z.of_nat n)),
        (Z.leb_spec (T8_DTRI_MAXLEVEL - t_level t) j),
        (Z.ltb_spec j (T8_DTRI_MAXLEVEL - t_level t + Z.of_nat (S n)));
      try lia; cbn [andb negb]; rewrite ?andb_true_r, ?andb_false_r; reflexivity.
Qed.

(** An aligned coordinate: its offset in the square of the level
    [level - n] ancestor is the number of its [n] last level bits, scaled. *)
Lemma delta_level_digits (v level : Z) (n : nat) :
  Z.of_nat n <= level <= T8_DTRI_MAXLEVEL ->
  v mod T8_DTRI_LEN level = 0 ->
  Z.land v (T8_DTRI_LEN (level - Z.of_nat n) - 1)
  = 2 ^ (T8_DTRI_MAXLEVEL - level) * level_digits v level n.
Proof.
  intros Hl Ha. rewrite !T8_DTRI_LEN_pow2 in * by lia.
  rewrite land_children_m1 by lia. unfold level_digits.
  set (s := T8_DTRI_MAXLEVEL - level) in *.
  replace (T8_DTRI_MAXLEVEL - (level - Z.of_nat n)) with (s + Z.of_nat n)
    by (subst s; lia).
  assert (0 <= s) as Hs by (subst s; lia).
  rewrite Z.shiftr_div_pow2 by lia.
  assert (0 < 2 ^ s) as Hps by (apply Z.pow_pos_nonneg; lia).
  assert (0 < 2 ^ Z.of_nat n) as Hpn by (apply Z.pow_pos_nonneg; lia).
  pose proof (Z.div_mod v (2 ^ s) ltac:(lia)) as D. rewrite Ha, Z.add_0_r in D.
  set (V := v / 2 ^ s) in *.
  rewrite Z.pow_add_r by lia.
  rewrite D at 1.
  rewrite Z.mul_mod_distr_l by lia. reflexivity.
Qed.

(** X17. In the triangle build [t8_dtri_ancestor] computes in one step what
    repeated [t8_dtri_parent] computes: for a triangle with an aligned
    anchor, the ancestor [n] levels up.  The table of the parent types is
    the one of the two triangles of a square ([parenttype_2d_ok]). *)
Theorem t8_dtri_ancestor_iter_parent (t buf : t8_dtri_t) (n : nat) :
  parenttype_2d_ok = true ->
  Z.of_nat n <= t_level t <= T8_DTRI_MAXLEVEL ->
  0 <= t_type t < 2 ->
  t_x t mod T8_DTRI_LEN (t_level t) = 0 ->
  t_y t mod T8_DTRI_LEN (t_level t) = 0 ->
  exists a p,
    t8_dtri_ancestor t (t_level t - Z.of_nat n) buf = Some a
    /\ iter_parent n t = Some p
    /\ same_element a p.
Proof.
  intros Hpt Hl Hty Ax Ay.
  destruct (iter_parent_spec n t Hl) as (p & Ep & Lp & Tp & Xp & Yp).
  destruct (type_up_diag t n Hpt (t_type t) (t_level t) ltac:(lia) Hty) as (Eup & _).
  unfold t8_dtri_ancestor. cbv zeta.
  rewrite (parenttype_2d_build Hpt). cbn [negb]. unfold ifdef_dtet.
  rewrite (parenttype_2d_build Hpt).
  rewrite !delta_level_digits by assumption.
  set (s := T8_DTRI_MAXLEVEL - t_level t) in *.
  assert (0 < 2 ^ s) as Hps by (apply Z.pow_pos_nonneg; subst s; lia).
  set (dx := level_digits (t_x t) (t_level t) n) in *.
  set (dy := level_digits (t_y t) (t_level t) n) in *.
  assert (exists a0,
            (if 0 <? 2 ^ s * dx - 2 ^ s * dy then Some (set_type a0 0)
             else if 2 ^ s * dx - 2 ^ s * dy <? 0 then Some (set_type a0 1)
                  else assert! (2 ^ s * dx - 2 ^ s * dy =? 0) ;;
                       Some (set_type a0 (t_type t)))
            = Some (set_type a0 (diag_type dx dy (t_type t)))
            /\ a0 = set_y (set_x buf (Z.land (t_x t)
                                      (Z.lnot (T8_DTRI_LEN (t_level t - Z.of_nat n) - 1))))
                      (Z.land (t_y t)
                         (Z.lnot (T8_DTRI_LEN (t_level t - Z.of_nat n) - 1))))
    as (a0 & Ea & Ea0).
  { eexists. split; [|reflexivity]. unfold diag_type.
    destruct (Z.ltb_spec 0 (2 ^ s * dx - 2 ^ s * dy)),
      (Z.ltb_spec (2 ^ s * dx - 2 ^ s * dy) 0),
      (Z.ltb_spec dy dx), (Z.ltb_spec dx dy); try nia; try reflexivity.
    rewrite T8_ASSERT_true by (apply Z.eqb_eq; nia). reflexivity. }
  rewrite <- Ea0, Ea.
  do 2 eexists. split; [reflexivity|]. split; [exact Ep|].
  unfold same_element.
  cbn [t_level t_type t_x t_y t_z set_level set_type set_x set_y set_n].
  rewrite Ea0. cbn [t_x t_y set_x set_y].
  split; [lia|]. split; [rewrite Tp, Eup; reflexivity|].
  assert (forall v v', v mod T8_DTRI_LEN (t_level t) = 0 ->
            (forall j, 0 <= j ->
               Z.testbit v' j
               = Z.testbit v j && negb ((s <=? j) && (j <? s + Z.of_nat n))) ->
            Z.land v (Z.lnot (T8_DTRI_LEN (t_level t - Z.of_nat n) - 1)) = v') as Hc.
  { intros v v' Ha Hb. apply Z.bits_inj'. intros j Hj.
    rewrite (Hb j Hj). rewrite !T8_DTRI_LEN_pow2 in * by lia. fold s in Ha.
    replace (T8_DTRI_MAXLEVEL - (t_level t - Z.of_nat n)) with (s + Z.of_nat n)
      by (subst s; lia).
    replace (2 ^ (s + Z.of_nat n) - 1) with (Z.ones (s + Z.of_nat n))
      by (rewrite Z.ones_equiv; lia).
    rewrite Z.land_spec, Z.lnot_spec by lia.
    destruct (Z.ltb_spec j (s + Z.of_nat n)) as [Hlt|Hge].
    - rewrite Z.ones_spec_low by (subst s; lia). cbn [negb]. rewrite andb_false_r.
      destruct (Z.leb_spec s j) as [|Hlow]; [cbn; rewrite andb_false_r; reflexivity|].
      cbn [andb negb]. rewrite andb_true_r. symmetry.
      rewrite <- (Z.mod_pow2_bits_low v s j) by lia. rewrite Ha. apply Z.bits_0.
    - rewrite Z.ones_spec_high by (subst s; lia).
      rewrite andb_false_r. cbn [negb]. reflexivity. }
  split; [apply Hc; assumption|]. split; [apply Hc; assumption|].
  rewrite (parenttype_2d_build Hpt). discriminate.
Qed.

(** X18. For a triangle with level and type in range and an aligned anchor,
    [t8_dtri_is_inside_root] says exactly whether the triangle is valid,
    that is whether it lies in the root square and descends from the root
    triangle. *)
Theorem t8_dtri_is_inside_root_iff_valid (t : t8_dtri_t) :
  parenttype_2d_ok = true ->
  0 <= t_level t <= T8_DTRI_MAXLEVEL -> 0 <= t_type t < 2 ->
  t_x t mod T8_DTRI_LEN (t_level t) = 0 ->
  t_y t mod T8_DTRI_LEN (t_level t) = 0 ->
  t8_dtri_is_inside_root t = true <-> t8_dtri_valid t.
Proof.
  intros Hpt Hl Hty Ax Ay.
  pose proof (parenttype_2d_build Hpt) as Hb.
  set (L := t_level t) in *.
  set (k := Z.to_nat L).
  assert (Z.of_nat k = L) as Hk by (subst k; lia).
  destruct (type_up_diag t k Hpt (t_type t) L ltac:(lia) Hty) as (Eup & _).
  set (s := T8_DTRI_MAXLEVEL - L) in *.
  assert (0 <= s) as Hs by (subst s; lia).
  assert (0 < 2 ^ s) as Hps by (apply Z.pow_pos_nonneg; lia).
  assert (0 < 2 ^ L) as HpL by (apply Z.pow_pos_nonneg; lia).
  assert (2 ^ T8_DTRI_MAXLEVEL = 2 ^ s * 2 ^ L) as EM.
  { rewrite <- Z.pow_add_r by lia. f_equal. subst s. lia. }
  rewrite T8_DTRI_LEN_pow2 in Ax, Ay by lia. fold s in Ax, Ay.
  pose proof (Z.div_mod (t_x t) (2 ^ s) ltac:(lia)) as Dx.
  pose proof (Z.div_mod (t_y t) (2 ^ s) ltac:(lia)) as Dy.
  rewrite Ax, Z.add_0_r in Dx. rewrite Ay, Z.add_0_r in Dy.
  assert (forall v, 0 <= v < 2 ^ T8_DTRI_MAXLEVEL -> v = 2 ^ s * (v / 2 ^ s) ->
                    level_digits v L k = v / 2 ^ s) as Hdig.
  { intros v Hv Dv. unfold level_digits. fold s.
    rewrite Z.shiftr_div_pow2, Hk by lia. apply Z.mod_small. nia. }
  unfold t8_dtri_is_inside_root, T8_DTRI_ROOT_LEN.
  rewrite Hb, Z.shiftl_1_l. cbn [negb].
  split.
  - intros Hin. rewrite !andb_true_iff in Hin.
    destruct Hin as ((((Hx & Hy0) & _) & (Hyx & Hdiag)) & _).
    destruct Hx as [Hx0 Hx1].
    apply Z.leb_le in Hx0, Hy0, Hyx. apply Z.ltb_lt in Hx1.
    constructor; fold L; try assumption.
    + unfold T8_DTRI_NUM_TYPES. rewrite Hb. exact Hty.
    + split; [unfold T8_DTRI_ROOT_LEN; rewrite Z.shiftl_1_l; lia|].
      rewrite T8_DTRI_LEN_pow2 by lia. exact Ax.
    + split; [unfold T8_DTRI_ROOT_LEN; rewrite Z.shiftl_1_l; lia|].
      rewrite T8_DTRI_LEN_pow2 by lia. exact Ay.
    + rewrite Hb. discriminate.
    + unfold ancestor_type. fold L. rewrite Z.sub_0_r. fold k.
      rewrite Eup, !Hdig by lia. unfold diag_type.
      destruct (Z.ltb_spec (t_y t / 2 ^ s) (t_x t / 2 ^ s)); [reflexivity|].
      destruct (Z.ltb_spec (t_x t / 2 ^ s) (t_y t / 2 ^ s)); [nia|].
      destruct (Z.eqb_spec (t_y t) (t_x t)) as [_|N]; [|nia].
      apply Z.eqb_eq. exact Hdiag.
  - intros [_ _ [Hx _] [Hy _] _ Hroot].
    unfold T8_DTRI_ROOT_LEN in Hx, Hy. rewrite Z.shiftl_1_l in Hx, Hy.
    unfold ancestor_type in Hroot. fold L in Hroot. rewrite Z.sub_0_r in Hroot.
    fold k in Hroot. rewrite Eup, !Hdig in Hroot by lia. unfold diag_type in Hroot.
    destruct (Z.ltb_spec (t_y t / 2 ^ s) (t_x t / 2 ^ s)).
    + rewrite !andb_true_iff. repeat split; try (apply Z.leb_le; nia);
        try (apply Z.ltb_lt; lia).
      destruct (Z.eqb_spec (t_y t) (t_x t)); [nia|reflexivity].
    + destruct (Z.ltb_spec (t_x t / 2 ^ s) (t_y t / 2 ^ s)); [lia|].
      rewrite !andb_true_iff. repeat split; try (apply Z.leb_le; nia);
        try (apply Z.ltb_lt; lia).
      destruct (Z.eqb_spec (t_y t) (t_x t)); [apply Z.eqb_eq; exact Hroot|reflexivity].
Qed.

(** X19. In the triangle build, for a strictly coarser triangle [t] with an
    aligned anchor, [t8_dtri_is_ancestor (t, c)] holds exactly when [t] is
    the triangle [t8_dtri_ancestor] computes for [c] at the level of [t]. *)
Theorem t8_dtri_is_ancestor_iff_ancestor (t c buf : t8_dtri_t) :
  T8_DTRI_TO_DTET = false ->
  0 <= t_level t < t_level c -> t_level c <= T8_DTRI_MAXLEVEL ->
  0 <= t_type t < 2 -> 0 <= t_type c < 2 ->
  t_x t mod T8_DTRI_LEN (t_level t) = 0 ->
  t_y t mod T8_DTRI_LEN (t_level t) = 0 ->
  exists a,
    t8_dtri_ancestor c (t_level t) buf = Some a
    /\ (t8_dtri_is_ancestor t c = true <-> same_element a t).
Proof.
  intros Hb Hl HL Hty Hcty Ax Ay.
  set (s := T8_DTRI_MAXLEVEL - t_level t).
  assert (0 <= s) as Hs by (subst s; lia).
  assert (0 < 2 ^ s) as Hps by (apply Z.pow_pos_nonneg; lia).
  assert (T8_DTRI_LEN (t_level t) = 2 ^ s) as EH by (apply T8_DTRI_LEN_pow2; lia).
  rewrite EH in Ax, Ay.
  pose proof (Z.div_mod (t_x t) (2 ^ s) ltac:(lia)) as Dtx.
  pose proof (Z.div_mod (t_y t) (2 ^ s) ltac:(lia)) as Dty.
  rewrite Ax, Z.add_0_r in Dtx. rewrite Ay, Z.add_0_r in Dty.
  pose proof (Z.div_mod (t_x c) (2 ^ s) ltac:(lia)) as Dcx.
  pose proof (Z.div_mod (t_y c) (2 ^ s) ltac:(lia)) as Dcy.
  pose proof (Z.mod_pos_bound (t_x c) (2 ^ s) Hps) as Bcx.
  pose proof (Z.mod_pos_bound (t_y c) (2 ^ s) Hps) as Bcy.
  destruct (square_corner_offset (t_x c) s Hs) as (Cx & Ox).
  destruct (square_corner_offset (t_y c) s Hs) as (Cy & Oy).
  unfold t8_dtri_ancestor, t8_dtri_is_ancestor. cbv zeta.
  unfold ifdef_dtet. rewrite Hb. cbn [negb]. fold s.
  rewrite EH, Cx, Cy, Ox, Oy, !shiftr_lxor_eq_0 by lia.
  destruct (Z.ltb_spec (t_level c) (t_level t)) as [|_]; [lia|].
  destruct (Z.eqb_spec (t_level t) (t_level c)) as [|_]; [lia|].
  set (X := t_x c mod 2 ^ s) in *. set (Y := t_y c mod 2 ^ s) in *.
  set (qx := t_x c / 2 ^ s) in *. set (qy := t_y c / 2 ^ s) in *.
  set (px := t_x t / 2 ^ s) in *. set (py := t_y t / 2 ^ s) in *.
  assert (exists ty,
            (if 0 <? X - Y then Some (set_type (set_y (set_x buf (2 ^ s * qx)) (2 ^ s * qy)) 0)
             else if X - Y <? 0
                  then Some (set_type (set_y (set_x buf (2 ^ s * qx)) (2 ^ s * qy)) 1)
                  else assert! (X - Y =? 0) ;;
                       Some (set_type (set_y (set_x buf (2 ^ s * qx)) (2 ^ s * qy))
                               (t_type c)))
            = Some (set_type (set_y (set_x buf (2 ^ s * qx)) (2 ^ s * qy)) ty)
            /\ ty = diag_type X Y (t_type c)) as (ty & -> & Ety).
  { eexists. split; [|reflexivity]. unfold diag_type.
    destruct (Z.ltb_spec 0 (X - Y)), (Z.ltb_spec (X - Y) 0),
      (Z.ltb_spec Y X), (Z.ltb_spec X Y); try lia; try reflexivity.
    rewrite T8_ASSERT_true by (apply Z.eqb_eq; lia). reflexivity. }
  eexists. split; [reflexivity|].
  unfold same_element. rewrite Hb.
  cbn [t_level t_type t_x t_y t_z set_level set_type set_x set_y set_n].
  unfold diag_type in Ety.
  destruct (Z.eqb_spec px qx) as [Ex|Ex], (Z.eqb_spec py qy) as [Ey|Ey];
    cbn [andb].
  - replace (t_x c - t_x t) with X by nia.
    replace (t_y c - t_y t) with Y by nia.
    replace (2 ^ s * qx) with (t_x t) by nia.
    replace (2 ^ s * qy) with (t_y t) by nia.
    clear Dtx Dty Dcx Dcy Cx Cy Ox Oy Ex Ey.
    clearbody X Y. generalize dependent (2 ^ s). intros h Ax Ay Hh BX BY.
    assert (t_type t = 0 \/ t_type t = 1) as [E|E] by lia; rewrite E;
      cbn [Z.eqb Pos.eqb Z.sub Z.add Z.opp Z.pos_sub];
      repeat (match goal with
              | |- context [Z.ltb ?a ?b] => destruct (Z.ltb_spec a b)
              | |- context [Z.leb ?a ?b] => destruct (Z.leb_spec a b)
              | |- context [Z.eqb ?a ?b] => destruct (Z.eqb_spec a b)
              | H : context [Z.ltb ?a ?b] |- _ => destruct (Z.ltb_spec a b)
              end; try lia);
      cbn [orb andb negb];
      (split; [intros HH; try discriminate; repeat split; try lia; discriminate
              |intros (_ & HT & _); try reflexivity; lia]).
  - split; [discriminate|]. intros (_ & _ & _ & HY & _). nia.
  - split; [discriminate|]. intros (_ & _ & HX & _). nia.
  - split; [discriminate|]. intros (_ & _ & HX & _). nia.
Qed.

End Triangles2D.

(** ** The prism *)

Section PrismFacts.

Context {conn : t8_dtri_connectivity} {lineops : t8_dline_bits}.

(** X20. [t8_dprism_vertex_coords] never uses the upper end of the line:
    for a prism over a triangle in the root cube, every call that returns,
    for a vertex number 0..8, is a call for one of the vertices 0..5, writes
    the coordinate of the vertex 0 of the line to [coords[2]], and writes
    what the call for the vertex [vertex % 3] of the lower triangle
    writes. *)
Theorem t8_dprism_vertex_coords_lower_end_only (p : t8_dprism_t) (vertex : Z)
  (coords r : list Z) :
  in_root_cube (tri p) ->
  length coords = 3%nat -> 0 <= vertex < 9 ->
  t8_dprism_vertex_coords p vertex coords = Some r ->
  vertex < 6
  /\ t8_dline_vertex_coords (line p) 0 = Some (nth 2 r 0)
  /\ t8_dprism_vertex_coords p (Z.rem vertex 3) coords = Some r.
Proof.
  intros _ Hlen Hv H.
  destruct coords as [|c0 [|c1 [|c2 [|]]]]; try discriminate. clear Hlen.
  assert (vertex = 0 \/ vertex = 1 \/ vertex = 2 \/ vertex = 3 \/ vertex = 4
          \/ vertex = 5 \/ vertex = 6 \/ vertex = 7 \/ vertex = 8) as Hc by lia.
  unfold t8_dprism_vertex_coords in *.
  decompose [or] Hc; subst vertex; clear Hc Hv;
    cbn [Z.leb Z.ltb Z.compare Pos.compare Pos.compare_cont orb andb
         T8_ASSERT Z.rem Z.quotrem Pos.iter N.pos_div_eucl snd] in H |- *;
    try (change (Z.rem 3 3) with 0 in *); try (change (Z.rem 4 3) with 1 in *);
    try (change (Z.rem 5 3) with 2 in *); try (change (Z.rem 1 3) with 1 in *);
    try (change (Z.rem 2 3) with 2 in *); try (change (Z.rem 0 3) with 0 in *);
    try (unfold t8_dtri_compute_coords, T8_DTRI_FACES in H;
         destruct T8_DTRI_TO_DTET; discriminate);
    (destruct (t8_dtri_compute_coords (tri p) _) as [c|]; [|discriminate]);
    (destruct (t8_dline_vertex_coords (line p) 0) as [z|]; [|discriminate]);
    injection H as <-; repeat split; try lia; reflexivity.
Qed.

End PrismFacts.

Section PrismInitFacts.

Context {conn : t8_dtri_connectivity}.
Variable t8_dline_init_linear_id : t8_dline_t -> Z -> Z -> option t8_dline_t.

(** X21. A prism of level [level] has [8 ^ level] places on its curve, but
    in the triangle build [t8_dprism_init_linear_id] hands the whole index
    to [t8_dtri_init_linear_id], whose assertion admits the indices up to
    [4 ^ level] only: for every greater index the call aborts, whatever the
    line kernel does. *)
Theorem t8_dprism_init_linear_id_above_triangle_range (l : t8_dprism_t)
  (level id : Z) :
  T8_DTRI_TO_DTET = false ->
  0 <= level <= T8_DTRI_MAXLEVEL ->
  4 ^ level < id ->
  t8_dprism_init_linear_id t8_dline_init_linear_id l level id = None.
Proof.
  intros Hb Hl Hid. unfold t8_dprism_init_linear_id.
  destruct (t8_dline_init_linear_id (line l) level id) as [lline|]; [|reflexivity].
  unfold t8_dtri_init_linear_id, T8_DTRI_DIM. rewrite Hb.
  rewrite Z.shiftl_1_l, Z.pow_mul_r by lia. change (2 ^ 2) with 4.
  rewrite u64_small.
  - destruct (Z.leb_spec id (4 ^ level)); [lia|].
    rewrite andb_false_r. reflexivity.
  - split; [apply Z.pow_nonneg; lia|].
    change 4 with (2 ^ 2). rewrite <- Z.pow_mul_r by lia.
    apply Z.pow_lt_mono_r; unfold T8_DTRI_MAXLEVEL in *; lia.
Qed.

End PrismInitFacts.

(** ** The properties on the tables of the triangle

    The tables of the triangle pass the checks the properties above ask
    for, and every property has an instance on a concrete element. *)

Lemma bey_ok_2d : @bey_ok t8_dtri_connectivity_2d = true.
Proof. vm_compute. reflexivity. Qed.

Lemma child_ok_2d : @child_ok t8_dtri_connectivity_2d = true.
Proof. vm_compute. reflexivity. Qed.

Lemma first_child_ok_2d : @first_child_ok t8_dtri_connectivity_2d = true.
Proof. vm_compute. reflexivity. Qed.

Lemma parenttype_2d_ok_2d : @parenttype_2d_ok t8_dtri_connectivity_2d = true.
Proof. vm_compute. reflexivity. Qed.

Ltac by_computation := vm_compute; intuition congruence.

(** the instance of a property: its hypotheses are left as goals *)
Ltac instance_of H :=
  first [ refine (H _) | refine (H _ _) | refine (H _ _ _) | refine (H _ _ _ _)
        | refine (H _ _ _ _ _) | refine (H _ _ _ _ _ _) | refine (H _ _ _ _ _ _ _)
        | refine (H _ _ _ _ _ _ _ _) | refine (H _ _ _ _ _ _ _ _ _) ].

Lemma t8_dtri_is_parent_iff_parent_witness :
  exists p b,
    t8_dtri_parent (triangle 2 1 (2 ^ 19) 0) (triangle 0 0 0 0) = Some p
    /\ t8_dtri_is_parent (triangle 1 0 0 0) (triangle 2 1 (2 ^ 19) 0) = Some b
    /\ (b = true <-> same_element p (triangle 1 0 0 0)).
Proof.
  instance_of (t8_dtri_is_parent_iff_parent (triangle 1 0 0 0) (triangle 2 1 (2 ^ 19) 0)
           (triangle 0 0 0 0)).
  by_computation.
Defined.

Lemma t8_dtri_is_sibling_iff_same_parent_witness :
  exists p1 p2 b,
    t8_dtri_parent (triangle 2 1 (2 ^ 19) 0) (triangle 0 0 0 0) = Some p1
    /\ t8_dtri_parent (triangle 2 0 (2 ^ 19) (2 ^ 19)) (triangle 0 0 0 0) = Some p2
    /\ t8_dtri_is_sibling (triangle 2 1 (2 ^ 19) 0) (triangle 2 0 (2 ^ 19) (2 ^ 19))
       = Some b
    /\ (b = true <-> same_element p1 p2).
Proof.
  instance_of (t8_dtri_is_sibling_iff_same_parent (triangle 2 1 (2 ^ 19) 0)
           (triangle 2 0 (2 ^ 19) (2 ^ 19)) (triangle 0 0 0 0) (triangle 0 0 0 0));
    by_computation.
Defined.

Lemma t8_dtri_face_neighbour_involution_witness :
  exists n f t',
    t8_dtri_face_neighbour (triangle 2 1 (2 ^ 19) 0) 0 (triangle 0 0 0 0) = Some (n, f)
    /\ t_level n = 2
    /\ 0 <= t_type n < 2
    /\ t_type n <> 1
    /\ t8_dtri_face_neighbour n f (triangle 0 0 0 0) = Some (t', 0)
    /\ same_element t' (triangle 2 1 (2 ^ 19) 0).
Proof.
  instance_of (t8_dtri_face_neighbour_involution (triangle 2 1 (2 ^ 19) 0)
                 (triangle 0 0 0 0) (triangle 0 0 0 0) 0);
    by_computation.
Defined.

Lemma t8_dtri_compute_all_coords_rows_witness :
  t8_dtri_compute_coords (triangle 2 1 (2 ^ 19) 0) 2
  = Some (nth 2 (t8_dtri_compute_all_coords (triangle 2 1 (2 ^ 19) 0)) []).
Proof.
  instance_of (t8_dtri_compute_all_coords_rows (triangle 2 1 (2 ^ 19) 0) 2);
    by_computation.
Defined.

Lemma t8_dtri_childrenpv_child_witness :
  let t := triangle 1 0 (2 ^ 20) 0 in
  let c := [triangle 0 0 0 0; triangle 0 0 0 0; triangle 0 0 0 0; triangle 0 0 0 0] in
  exists cs,
    t8_dtri_childrenpv t c = Some cs
    /\ length cs = length c
    /\ forall i, 0 <= i < 4 ->
         t8_dtri_child t i (nth (Z.to_nat i) c t) = Some (nth (Z.to_nat i) cs t).
Proof.
  cbv zeta.
  instance_of (t8_dtri_childrenpv_child (triangle 1 0 (2 ^ 20) 0)
           [triangle 0 0 0 0; triangle 0 0 0 0; triangle 0 0 0 0; triangle 0 0 0 0]).
  - exact bey_ok_2d.
  - by_computation.
  - by_computation.
  - by_computation.
  - reflexivity.
Defined.

Lemma t8_dtri_child_parent_round_trip_witness :
  exists c p,
    t8_dtri_child (triangle 1 0 (2 ^ 20) 0) 2 (triangle 0 0 0 0) = Some c
    /\ t8_dtri_parent c (triangle 0 0 0 0) = Some p
    /\ same_element p (triangle 1 0 (2 ^ 20) 0)
    /\ t8_dtri_child_id c = Some 2.
Proof.
  instance_of (t8_dtri_child_parent_round_trip (triangle 1 0 (2 ^ 20) 0)
           (triangle 0 0 0 0) (triangle 0 0 0 0) 2);
    [exact child_ok_2d | by_computation ..].
Defined.

Lemma t8_dtri_sibling_of_child_witness :
  exists c s p,
    t8_dtri_child (triangle 1 0 (2 ^ 20) 0) 2 (triangle 0 0 0 0) = Some c
    /\ t8_dtri_sibling c 3 (triangle 0 0 0 0) = Some s
    /\ t8_dtri_parent s (triangle 0 0 0 0) = Some p
    /\ same_element p (triangle 1 0 (2 ^ 20) 0)
    /\ t8_dtri_child_id s = Some 3.
Proof.
  instance_of (t8_dtri_sibling_of_child (triangle 1 0 (2 ^ 20) 0)
           (triangle 0 0 0 0) (triangle 0 0 0 0) (triangle 0 0 0 0) 2 3);
    [exact child_ok_2d | by_computation ..].
Defined.

Lemma t8_dtri_child_linear_id_witness :
  exists c,
    t8_dtri_child (triangle 1 0 (2 ^ 20) 0) 2 (triangle 0 0 0 0) = Some c
    /\ t8_dtri_linear_id c (1 + 1) = Some (4 * 1 + 2).
Proof.
  instance_of (t8_dtri_child_linear_id (triangle 1 0 (2 ^ 20) 0) (triangle 0 0 0 0) 2 1);
    [exact conn_ok_2d | exact child_ok_2d | by_computation ..].
Defined.

Lemma t8_dtri_init_linear_id_valid_witness :
  exists t,
    t8_dtri_init_linear_id (triangle 0 0 0 0) 6 2 = Some t
    /\ t_level t = 2
    /\ t8_dtri_valid t
    /\ t8_dtri_linear_id t 2 = Some 6.
Proof.
  instance_of (t8_dtri_init_linear_id_valid (triangle 0 0 0 0) 6 2);
    [exact conn_ok_2d | by_computation ..].
Defined.

Lemma t8_dtri_init_linear_id_one_past_last_witness :
  t8_dtri_init_linear_id (triangle 0 0 0 0) (4 ^ 2) 2
  = t8_dtri_init_linear_id (triangle 0 0 0 0) 0 2
  /\ t8_dtri_init_linear_id (triangle 0 0 0 0) 0 2 <> None
  /\ t8_default_tri_set_linear_id (triangle 0 0 0 0) 2 (4 ^ 2) = None.
Proof.
  instance_of (t8_dtri_init_linear_id_one_past_last (triangle 0 0 0 0) 2).
  by_computation.
Defined.

Lemma t8_dtri_linear_id_range_witness :
  exists id,
    t8_dtri_linear_id (triangle 2 1 (2 ^ 19) 0) 5 = Some id
    /\ 0 <= id < 4 ^ 5
    /\ id mod 4 ^ (5 - 2) = 0.
Proof.
  instance_of (t8_dtri_linear_id_range (triangle 2 1 (2 ^ 19) 0) 5);
    [exact conn_ok_2d | by_computation ..].
Defined.

Lemma t8_dtri_first_descendant_anchor_witness :
  exists s,
    t8_dtri_first_descendant (triangle 2 1 (2 ^ 19) 0) (triangle 0 0 0 0) = Some s
    /\ t_level s = T8_DTRI_MAXLEVEL
    /\ t_type s = 1
    /\ t_x s = 2 ^ 19 /\ t_y s = 0
    /\ (T8_DTRI_TO_DTET = true -> t_z s = 0).
Proof.
  instance_of (t8_dtri_first_descendant_anchor (triangle 2 1 (2 ^ 19) 0)
                 (triangle 0 0 0 0)).
  - exact conn_ok_2d.
  - exact first_child_ok_2d.
  - valid_by_computation.
Defined.

Lemma t8_dtri_last_descendant_low_level_witness :
  t8_dtri_last_descendant (triangle 2 1 (2 ^ 19) 0) (triangle 0 0 0 0)
  = t8_dtri_init_linear_id (triangle 0 0 0 0) (4 ^ (T8_DTRI_MAXLEVEL - 2) - 1)
      T8_DTRI_MAXLEVEL.
Proof.
  instance_of (t8_dtri_last_descendant_low_level (triangle 2 1 (2 ^ 19) 0)
           (triangle 0 0 0 0));
    [exact conn_ok_2d | by_computation ..].
Defined.

Lemma t8_default_tri_compare_same_level_witness :
  exists r,
    t8_default_tri_compare (triangle 2 1 (2 ^ 19) 0) (triangle 2 0 (2 ^ 19) (2 ^ 19))
    = Some r
    /\ (r = -1 \/ r = 0 \/ r = 1)
    /\ (r = 0 <-> same_element (triangle 2 1 (2 ^ 19) 0)
                    (triangle 2 0 (2 ^ 19) (2 ^ 19)))
    /\ t8_default_tri_compare (triangle 2 0 (2 ^ 19) (2 ^ 19)) (triangle 2 1 (2 ^ 19) 0)
       = Some (- r).
Proof.
  instance_of (t8_default_tri_compare_same_level (triangle 2 1 (2 ^ 19) 0)
           (triangle 2 0 (2 ^ 19) (2 ^ 19))).
  - exact conn_ok_2d.
  - valid_by_computation.
  - valid_by_computation.
  - reflexivity.
Defined.

Lemma t8_dtri_successor_of_last_witness :
  t8_dtri_successor (triangle 2 0 (2 ^ 20 + 2 ^ 19) (2 ^ 20 + 2 ^ 19)) 2 = None.
Proof.
  instance_of (t8_dtri_successor_of_last
                 (triangle 2 0 (2 ^ 20 + 2 ^ 19) (2 ^ 20 + 2 ^ 19)));
    [exact conn_ok_2d | by_computation ..].
Defined.

Lemma t8_dtri_predecessor_linear_id_witness :
  exists s,
    t8_dtri_predecessor (triangle 2 0 (2 ^ 20) 0) 2 = Some s
    /\ t8_dtri_linear_id s 2 = Some (if 0 =? 0 then 4 + (4 - 1) else 4 - 1).
Proof.
  instance_of (t8_dtri_predecessor_linear_id (triangle 2 0 (2 ^ 20) 0) 4 0);
    [exact conn_ok_2d | by_computation ..].
Defined.

Lemma t8_dtri_ancestor_iter_parent_witness :
  exists a p,
    t8_dtri_ancestor (triangle 2 1 (2 ^ 19) 0) (2 - Z.of_nat 2) (triangle 0 0 0 0)
    = Some a
    /\ iter_parent 2 (triangle 2 1 (2 ^ 19) 0) = Some p
    /\ same_element a p.
Proof.
  instance_of (t8_dtri_ancestor_iter_parent (triangle 2 1 (2 ^ 19) 0) (triangle 0 0 0 0) 2);
    [exact parenttype_2d_ok_2d | by_computation ..].
Defined.

Lemma t8_dtri_is_inside_root_iff_valid_witness :
  t8_dtri_is_inside_root (triangle 2 1 (2 ^ 19) 0) = true
  <-> t8_dtri_valid (triangle 2 1 (2 ^ 19) 0).
Proof.
  instance_of (t8_dtri_is_inside_root_iff_valid (triangle 2 1 (2 ^ 19) 0));
    [exact parenttype_2d_ok_2d | by_computation ..].
Defined.

Lemma t8_dtri_is_ancestor_iff_ancestor_witness :
  exists a,
    t8_dtri_ancestor (triangle 2 1 (2 ^ 19) 0) 1 (triangle 0 0 0 0) = Some a
    /\ (t8_dtri_is_ancestor (triangle 1 0 0 0) (triangle 2 1 (2 ^ 19) 0) = true
        <-> same_element a (triangle 1 0 0 0)).
Proof.
  instance_of (t8_dtri_is_ancestor_iff_ancestor (triangle 1 0 0 0) (triangle 2 1 (2 ^ 19) 0)
           (triangle 0 0 0 0));
    by_computation.
Defined.

Lemma t8_dprism_vertex_coords_lower_end_only_witness :
  4 < 6
  /\ t8_dline_vertex_coords (line (prism 1 0 0 0 0)) 0 = Some (nth 2 [2 ^ 20; 0; 0] 0)
  /\ t8_dprism_vertex_coords (prism 1 0 0 0 0) (Z.rem 4 3) [0; 0; 0]
     = Some [2 ^ 20; 0; 0].
Proof.
  instance_of (t8_dprism_vertex_coords_lower_end_only (prism 1 0 0 0 0) 4 [0; 0; 0]
           [2 ^ 20; 0; 0]).
  - by_computation.
  - reflexivity.
  - by_computation.
  - vm_compute. reflexivity.
Defined.

Lemma t8_dprism_init_linear_id_above_triangle_range_witness :
  t8_dprism_init_linear_id (fun l _ _ => Some l) (prism 0 0 0 0 0) 1 5 = None.
Proof.
  instance_of (t8_dprism_init_linear_id_above_triangle_range (fun l _ _ => Some l)
           (prism 0 0 0 0 0) 1 5);
    by_computation.
Defined.
